(** * Gangland-Genesis: territory conflicts, succession and tick-stamped caches

    A shallow embedding of the simulation systems of the repository:

    - [TerritorySystem] (src/systems/TerritorySystem.ts): conflict detection
      on the 4x4 territory grid, registration in [conflictCache], resolution
      of mature conflicts and the war-strength formula; the upkeep of held
      cells ([maintainControl], [calculateStability]) and the tick
      ([update]);
    - [ConspiracySystem]: power vacuums, candidate successors, power
      collapse, and the tick-stamped [conspiracyCache]; the quick stability
      check and the level-by-level update of the power structures;
    - [UndergroundSystem]: the tick-stamped [discoveryCache] of
      [findSuitableMarket]; trading ([engageUnderground]) and heat
      ([handleInvestigation], [reduceHeat], [manageHeatLevel]).

    Conventions of the embedding.

    - Entity ids are naturals ([N]); bit fields stored in [Types.ui32],
      [Types.ui16] and [Types.ui8] columns are integers ([Z]) with the
      wrap-around of the typed-array store written out; the operators
      [&], [|], [~], [<<] and [>>] work on 32-bit signed operands as in the
      host language.
    - A value held in a float column, and a number that a method defined
      nowhere returns, is given by its exact rational value ([Q]).  The
      strength of a gang, on which the resolver branches, is computed from
      these values in the arithmetic of the host language, binary64,
      operation by operation ([JS.double]), and compared there.  The other
      arithmetic on stored values (reputations, stabilities, supports,
      heat) is done on the rationals, which leaves the rounding of the
      stored result out.  The sample worlds hold values that a 32-bit
      float column can hold.
    - A method runs in a state-and-exception monad: it returns, throws
      (leaving the writes made so far in place) or exhausts the fuel of a
      [while] loop.
    - Methods that are called but defined nowhere in the repository
      ([getAllyContribution], [handleStalemate], [isViableSuccessor], ...)
      are parameters, gathered per system in a class [Hooks]; what a
      statement assumes of one of them is written out as a hypothesis.
    - The component store ([get] on a component, the queries) belongs to
      the entity-component library; it is modelled from section 4.1 of the
      specification. *)

From Stdlib Require Import ZArith QArith Qabs Qminmax Lia Lqa.
From Stdlib Require SpecFloat.
From Stdlib Require Import Ascii String DecimalString DecimalN.
From Stdlib Require Import Sorting.Sorted Sorting.Permutation.
From stdpp Require Import base option list sorting gmap.

Local Open Scope Z_scope.

(** ** Host-language primitives *)

Module JS.

(** *** 32-bit integer operators *)

Definition ToInt32 (x : Z) : Z := (x + 2 ^ 31) mod 2 ^ 32 - 2 ^ 31.
Definition ToUint32 (x : Z) : Z := x mod 2 ^ 32.
Definition ToUint16 (x : Z) : Z := x mod 2 ^ 16.
Definition ToUint8 (x : Z) : Z := x mod 2 ^ 8.

(** [a & b], [a | b], [~a] *)
Definition and32 (a b : Z) : Z := Z.land (ToInt32 a) (ToInt32 b).
Definition or32 (a b : Z) : Z := Z.lor (ToInt32 a) (ToInt32 b).
Definition not32 (a : Z) : Z := Z.lnot (ToInt32 a).
(** [a << n]: the shift count is taken modulo 32 and the result wraps *)
Definition shl32 (a n : Z) : Z := ToInt32 (Z.shiftl (ToInt32 a) (Z.land n 31)).
(** [a >> n]: sign-propagating *)
Definition sar32 (a n : Z) : Z := Z.shiftr (ToInt32 a) (Z.land n 31).

(** Truthiness of a number: every number but zero. *)
Definition truthy (x : Z) : bool := negb (x =? 0).

(** *** Rational stand-ins for [>] and [Math.min] on numbers *)

Definition gtb (x y : Q) : bool := negb (Qle_bool x y).
Definition ltb (x y : Q) : bool := negb (Qle_bool y x).

(** *** Numbers in arithmetic: IEEE 754 binary64

    A number of the host language is a binary64 float.  The operations are
    those of the standard library's specification of floating-point
    arithmetic, at 53 bits of precision with the infinities at exponent
    1024: every result is the float nearest to the exact one, ties going to
    the even mantissa. *)

Definition double : Type := SpecFloat.spec_float.

Module Double.

Definition add : double -> double -> double := SpecFloat.SFadd 53 1024.
Definition sub : double -> double -> double := SpecFloat.SFsub 53 1024.
Definition mul : double -> double -> double := SpecFloat.SFmul 53 1024.
Definition div : double -> double -> double := SpecFloat.SFdiv 53 1024.

(** [Math.abs] *)
Definition abs : double -> double := SpecFloat.SFabs.

(** [x > y] and [x <= y]; each is false when an operand is NaN. *)
Definition gtb (x y : double) : bool := SpecFloat.SFltb y x.
Definition leb (x y : double) : bool := SpecFloat.SFleb x y.

(** The number of an integer. *)
Definition ofZ (z : Z) : double := SpecFloat.binary_normalize 53 1024 z 0 false.

(** The value of a finite number, as a rational; [None] for the infinities
    and NaN. *)
Definition value (x : double) : option Q :=
  match x with
  | SpecFloat.S754_zero _ => Some 0%Q
  | SpecFloat.S754_finite s m e =>
      Some (inject_Z (if s then Z.neg m else Z.pos m) * 2 ^ e)%Q
  | _ => None
  end.

End Double.

(** A decimal literal of the source, or a number that a method returns,
    given by a rational [n/d]: the quotient of [n] by [d] in binary64.  It
    is the float nearest to [n/d] when [n] and [d] are below 2^53, and
    [n/d] itself when that is a float. *)
Definition number (q : Q) : double :=
  Double.div (Double.ofZ (Qnum q)) (Double.ofZ (Z.pos (Qden q))).

(** The number read from a [Types.f32] column that holds the value given
    by the rational [n/d]: the quotient of [n] by [d] in binary32 (24 bits
    of precision, infinities at exponent 128), widened to binary64 without
    loss.  It is the 32-bit float nearest to [n/d] when [n] and [d] are
    below 2^24, which is what the column keeps of a number written to it,
    and [n/d] itself when that is a 32-bit float. *)
Definition float32 (q : Q) : double :=
  match SpecFloat.SFdiv 24 128
          (SpecFloat.binary_normalize 24 128 (Qnum q) 0 false)
          (SpecFloat.binary_normalize 24 128 (Z.pos (Qden q)) 0 false) with
  | SpecFloat.S754_finite s m e =>
      SpecFloat.binary_normalize 53 1024 (if s then Z.neg m else Z.pos m) e s
  | x => x
  end.

(** *** Template literals and [Number] on decimal strings *)

(** [`${n}`] for a natural number. *)
Definition toString (n : N) : string := NilEmpty.string_of_uint (N.to_uint n).

(** [Number(s)] on a string of decimal digits (the empty string gives 0);
    [None] stands for every other string, which the keys built by
    [registerConflict] never contain. *)
Definition Number (s : string) : option N :=
  match NilEmpty.uint_of_string s with
  | Some d => Some (N.of_uint d)
  | None => None
  end.

(** [s.split(c)] for a one-character separator. *)
Fixpoint split (c : ascii) (s : string) : list string :=
  match s with
  | EmptyString => [EmptyString]
  | String a s' =>
      if Ascii.eqb a c then EmptyString :: split c s'
      else match split c s' with
           | [] => [String a EmptyString]
           | w :: ws => String a w :: ws
           end
  end.

(** Whether the character [c] occurs in [s]. *)
Fixpoint occurs (c : ascii) (s : string) : bool :=
  match s with
  | EmptyString => false
  | String a s' => Ascii.eqb a c || occurs c s'
  end.

(** *** [Map]: string keys, iteration in insertion order *)

Abbreviation Map V := (list (string * V)) (only parsing).

Section Map.
Context {V : Type}.

Fixpoint get (k : string) (m : Map V) : option V :=
  match m with
  | [] => None
  | (k', v) :: m' => if String.eqb k k' then Some v else get k m'
  end.

Definition has (k : string) (m : Map V) : bool :=
  match get k m with Some _ => true | None => false end.

(** [m.set(k, v)]: an existing key keeps its place, a new one goes last. *)
Fixpoint set (k : string) (v : V) (m : Map V) : Map V :=
  match m with
  | [] => [(k, v)]
  | (k', v') :: m' =>
      if String.eqb k k' then (k', v) :: m' else (k', v') :: set k v m'
  end.

Fixpoint delete (k : string) (m : Map V) : Map V :=
  match m with
  | [] => []
  | (k', v') :: m' =>
      if String.eqb k k' then m' else (k', v') :: delete k m'
  end.

Definition size (m : Map V) : nat := length m.
Definition keys (m : Map V) : list string := map fst m.
End Map.

(** *** [Array.prototype.sort] with a comparator

    The sort is stable; [x] goes after [y] exactly when the comparator is
    positive on [(x, y)]. *)

Section Sort.
Context {A : Type} (compare : A -> A -> Q).

Fixpoint insert (x : A) (l : list A) : list A :=
  match l with
  | [] => [x]
  | y :: l' => if gtb (compare x y) 0 then y :: insert x l' else x :: y :: l'
  end.

Definition sort (l : list A) : list A := fold_right insert [] l.
End Sort.

(** *** Outcomes of a method call *)

Inductive error : Type :=
| MissingComponent            (* [get] on an entity without the component *)
| TypeError (method : string) (* call of a method that is not defined *).

Inductive outcome (S A : Type) : Type :=
| Return (a : A) (s : S)
| Throw (e : error) (s : S)
| OutOfFuel.
Arguments Return {S A} a s.
Arguments Throw {S A} e s.
Arguments OutOfFuel {S A}.

(** The state a call leaves behind, whether it returned or threw. *)
Definition stateOf {S A} (o : outcome S A) : option S :=
  match o with
  | Return _ s | Throw _ s => Some s
  | OutOfFuel => None
  end.

Definition M (S A : Type) : Type := S -> outcome S A.

Definition ret {S A} (a : A) : M S A := fun s => Return a s.
Definition throw {S A} (e : error) : M S A := fun s => Throw e s.
Definition bind {S A B} (m : M S A) (f : A -> M S B) : M S B :=
  fun s => match m s with
           | Return a s' => f a s'
           | Throw e s' => Throw e s'
           | OutOfFuel => OutOfFuel
           end.
Definition read {S} : M S S := fun s => Return s s.
Definition modify {S} (f : S -> S) : M S unit := fun s => Return tt (f s).

(** [for (const x of xs) body(x)] *)
Fixpoint forOf {S A} (xs : list A) (body : A -> M S unit) : M S unit :=
  match xs with
  | [] => ret tt
  | x :: xs' => bind (body x) (fun _ => forOf xs' body)
  end.

(** [for (const x of xs) acc = body(acc, x)], for a loop that grows a local
    array or keeps a running best. *)
Fixpoint forOfAcc {S A B} (xs : list A) (acc : B) (body : B -> A -> M S B) : M S B :=
  match xs with
  | [] => ret acc
  | x :: xs' => bind (body acc x) (fun acc' => forOfAcc xs' acc' body)
  end.

End JS.

Declare Scope double_scope.
Delimit Scope double_scope with D.
Infix "+" := JS.Double.add : double_scope.
Infix "-" := JS.Double.sub : double_scope.
Infix "*" := JS.Double.mul : double_scope.
Infix "/" := JS.Double.div : double_scope.

(** [m] run from [s] returns, in a state and with a value that satisfy [Q]. *)
Definition returns {S A} (m : JS.M S A) (s : S) (Q : A → S → Prop) : Prop :=
  ∃ a s', m s = JS.Return a s' ∧ Q a s'.

#[global] Instance M_ret {S} : MRet (JS.M S) := fun A => @JS.ret S A.
#[global] Instance M_bind {S} : MBind (JS.M S) := fun A B f m => JS.bind m f.

(** ** TerritorySystem (src/systems/TerritorySystem.ts) *)

Module Territory.

(** One row of the [TerritoryControl] component. *)
Record TerritoryControlRow : Type := {
  territories : Z;        (* ui32: bitfield of controlled areas *)
  protection : list Z;    (* ui8 x 16 *)
  income : list Z;        (* ui16 x 16 *)
  enforcers : Z;          (* ui32 *)
  rivals : Z;             (* ui32 *)
  stability : list Q      (* f32 x 16: control stability in each area *)
}.

(** One row of the [WarfareState] component. *)
Record WarfareStateRow : Type := {
  activeConflicts : Z;    (* ui32: bitfield of current wars *)
  warStrength : Q;        (* f32 *)
  allies : Z;             (* ui32 *)
  casualties : Z;         (* ui16 *)
  victories : Z;          (* ui16 *)
  reputation : Q          (* f32 *)
}.

(** The value stored in [conflictCache] under a pair key. *)
Record PendingConflict : Type := {
  territory : Z;
  startTime : Z;
  lastUpdate : Z
}.

(** The world as the system sees it, with the system's own fields. *)
Record System : Type := {
  time : Z;                                         (* world.time *)
  TerritoryControl : gmap N TerritoryControlRow;
  WarfareState : gmap N WarfareStateRow;
  UndergroundEconomy : gset N;                      (* holders of the component *)
  territoryGrid : list (option N);                  (* null or an entity id *)
  conflictCache : JS.Map PendingConflict
}.

Definition TERRITORY_GRID : Z := 16.
Definition MIN_STRENGTH : JS.double := JS.number (3 # 10).

(** Field writes. *)
Definition with_territories (v : Z) (r : TerritoryControlRow) : TerritoryControlRow :=
  {| territories := v; protection := protection r; income := income r;
     enforcers := enforcers r; rivals := rivals r; stability := stability r |}.
Definition with_activeConflicts (v : Z) (r : WarfareStateRow) : WarfareStateRow :=
  {| activeConflicts := v; warStrength := warStrength r; allies := allies r;
     casualties := casualties r; victories := victories r; reputation := reputation r |}.
Definition with_casualties (v : Z) (r : WarfareStateRow) : WarfareStateRow :=
  {| activeConflicts := activeConflicts r; warStrength := warStrength r; allies := allies r;
     casualties := v; victories := victories r; reputation := reputation r |}.
Definition with_victories (v : Z) (r : WarfareStateRow) : WarfareStateRow :=
  {| activeConflicts := activeConflicts r; warStrength := warStrength r; allies := allies r;
     casualties := casualties r; victories := v; reputation := reputation r |}.
Definition with_reputation (v : Q) (r : WarfareStateRow) : WarfareStateRow :=
  {| activeConflicts := activeConflicts r; warStrength := warStrength r; allies := allies r;
     casualties := casualties r; victories := victories r; reputation := v |}.
Definition with_lastUpdate (v : Z) (c : PendingConflict) : PendingConflict :=
  {| territory := territory c; startTime := startTime c; lastUpdate := v |}.

Definition with_TerritoryControl (v : gmap N TerritoryControlRow) (s : System) : System :=
  {| time := time s; TerritoryControl := v; WarfareState := WarfareState s;
     UndergroundEconomy := UndergroundEconomy s; territoryGrid := territoryGrid s;
     conflictCache := conflictCache s |}.
Definition with_WarfareState (v : gmap N WarfareStateRow) (s : System) : System :=
  {| time := time s; TerritoryControl := TerritoryControl s; WarfareState := v;
     UndergroundEconomy := UndergroundEconomy s; territoryGrid := territoryGrid s;
     conflictCache := conflictCache s |}.
Definition with_territoryGrid (v : list (option N)) (s : System) : System :=
  {| time := time s; TerritoryControl := TerritoryControl s; WarfareState := WarfareState s;
     UndergroundEconomy := UndergroundEconomy s; territoryGrid := v;
     conflictCache := conflictCache s |}.
Definition with_conflictCache (v : JS.Map PendingConflict) (s : System) : System :=
  {| time := time s; TerritoryControl := TerritoryControl s; WarfareState := WarfareState s;
     UndergroundEconomy := UndergroundEconomy s; territoryGrid := territoryGrid s;
     conflictCache := v |}.

(** Modelled from the spec: the component store's [get] (section 4.1:
    a mutable handle, MissingComponent if the entity has no such
    component).  A handle is the entity's row; writes through it are
    [alter] on the store. *)
Definition getTerritoryControl (e : N) : JS.M System TerritoryControlRow :=
  fun s => match TerritoryControl s !! e with
           | Some r => JS.Return r s
           | None => JS.Throw JS.MissingComponent s
           end.
Definition getWarfareState (e : N) : JS.M System WarfareStateRow :=
  fun s => match WarfareState s !! e with
           | Some r => JS.Return r s
           | None => JS.Throw JS.MissingComponent s
           end.
Definition setTerritoryControl (e : N) (f : TerritoryControlRow -> TerritoryControlRow)
  : JS.M System unit :=
  JS.modify (fun s => with_TerritoryControl (alter f e (TerritoryControl s)) s).
Definition setWarfareState (e : N) (f : WarfareStateRow -> WarfareStateRow)
  : JS.M System unit :=
  JS.modify (fun s => with_WarfareState (alter f e (WarfareState s)) s).

(** Modelled from the spec: the query [gangsters] (section 4.1: the
    entities holding all required components, in ascending id order). *)
Definition gangsters (s : System) : list N :=
  merge_sort N.le
    (elements (dom (TerritoryControl s) ∩ dom (WarfareState s) ∩ UndergroundEconomy s)).

(** [this.territoryGrid[i]] read as a condition: null and 0 are falsy. *)
Definition occupant (s : System) (i : Z) : option N :=
  match territoryGrid s !! Z.to_nat i with
  | Some (Some e) => if N.eqb e 0 then None else Some e
  | _ => None
  end.

(** [territory.territories & (1 << i)] read as a condition. *)
Definition claims (t : Z) (i : Z) : bool := JS.truthy (JS.and32 t (JS.shl32 1 i)).

Definition conflictKey (gang1 gang2 : N) : string :=
  (JS.toString (N.min gang1 gang2) ++ "_" ++ JS.toString (N.max gang1 gang2))%string.

Definition registerConflict (gang1 gang2 : N) (territoryId : Z) : JS.M System unit :=
  s ← JS.read;
  if negb (JS.has (conflictKey gang1 gang2) (conflictCache s)) then
    _ ← getWarfareState gang1;
    _ ← getWarfareState gang2;
    setWarfareState gang1 (fun w =>
      with_activeConflicts
        (JS.ToUint32 (JS.or32 (activeConflicts w) (JS.shl32 1 territoryId))) w);;
    setWarfareState gang2 (fun w =>
      with_activeConflicts
        (JS.ToUint32 (JS.or32 (activeConflicts w) (JS.shl32 1 territoryId))) w);;
    JS.modify (fun s =>
      with_conflictCache
        (JS.set (conflictKey gang1 gang2)
           {| territory := territoryId; startTime := time s; lastUpdate := time s |}
           (conflictCache s)) s)
  else mret tt.

(** The body of the inner loop of [updateTerritories] for grid cell [i]. *)
Definition claimCell (gangster : N) (i : Z) : JS.M System unit :=
  territory ← getTerritoryControl gangster;
  if claims (territories territory) i then
    s ← JS.read;
    match occupant s i with
    | Some other => registerConflict gangster other i
    | None =>
        JS.modify (fun s =>
          with_territoryGrid (<[Z.to_nat i := Some gangster]> (territoryGrid s)) s)
    end
  else mret tt.

Definition updateTerritories : JS.M System unit :=
  JS.modify (fun s =>
    with_territoryGrid (replicate (Z.to_nat TERRITORY_GRID) None) s);;
  s ← JS.read;
  JS.forOf (gangsters s) (fun gangster =>
    _ ← getTerritoryControl gangster;
    JS.forOf (seqZ 0 TERRITORY_GRID) (claimCell gangster)).

(** Vocabulary for the statements about detection. *)

(** Entity [g] holds (claims) grid cell [i]. *)
Definition holds (s : System) (g : N) (i : Z) : bool :=
  match TerritoryControl s !! g with
  | Some r => claims (territories r) i
  | None => false
  end.

(** The first entity, in the order the query yields them, that claims [i]. *)
Definition firstClaimant (s : System) (i : Z) : option N :=
  head (filter (fun g => holds s g i = true) (gangsters s)).

(** The first entity among the claims [P] (pairs of an entity and a cell, in
    the order the loops visit them) that holds cell [i]. *)
Definition firstOf (s : System) (P : list (N * Z)) (i : Z) : option N :=
  fst <$> head (filter (fun p => p.2 = i ∧ holds s p.1 p.2 = true) P).

(** The state once [updateTerritories] has cleared the grid. *)
Definition cleared (s : System) : System :=
  with_territoryGrid (replicate (Z.to_nat TERRITORY_GRID) None) s.

(** The pairs the two loops of [updateTerritories] visit, in order. *)
Definition visits (G : list N) : list (N * Z) :=
  g ← G; (fun i => (g, i)) <$> seqZ 0 TERRITORY_GRID.

(** What detection keeps true while it visits the claims [P], started in
    [s0] (grid cleared) over the entities [G]. *)
Record DetectInv (s0 : System) (G : list N) (P : list (N * Z)) (s : System) : Prop := {
  inv_time : time s = time s0;
  inv_TC : TerritoryControl s = TerritoryControl s0;
  inv_UE : UndergroundEconomy s = UndergroundEconomy s0;
  inv_WS : ∀ g, is_Some (WarfareState s !! g) ↔ is_Some (WarfareState s0 !! g);
  inv_P : ∀ g i, (g, i) ∈ P → g ∈ G ∧ 0 ≤ i < TERRITORY_GRID;
  inv_closed : ∀ g i j, (g, i) ∈ P → 0 ≤ j < i → (g, j) ∈ P;
  inv_grid_len : length (territoryGrid s) = Z.to_nat TERRITORY_GRID;
  inv_grid : ∀ i, 0 ≤ i < TERRITORY_GRID →
    territoryGrid s !! Z.to_nat i = Some (firstOf s0 P i);
  inv_keys : NoDup (JS.keys (conflictCache s));
  inv_old : ∀ k c,
    JS.get k (conflictCache s0) = Some c → JS.get k (conflictCache s) = Some c;
  inv_new : ∀ k c,
    JS.get k (conflictCache s) = Some c → JS.get k (conflictCache s0) = None →
    ∃ g f, k = conflictKey g f ∧ (g, territory c) ∈ P
           ∧ holds s0 g (territory c) = true
           ∧ firstOf s0 P (territory c) = Some f ∧ f ≠ g
           ∧ startTime c = time s0 ∧ lastUpdate c = time s0
           ∧ ∀ j, 0 ≤ j < territory c → holds s0 g j = true →
                  firstOf s0 P j ≠ Some f;
  inv_reg : ∀ g i f,
    (g, i) ∈ P → holds s0 g i = true → firstOf s0 P i = Some f → f ≠ g →
    is_Some (JS.get (conflictKey g f) (conflictCache s))
}.

(** The pending conflict of the pair [{a, b}], if there is one. *)
Definition pending (s : System) (a b : N) : option PendingConflict :=
  JS.get (conflictKey a b) (conflictCache s).

(** The entries of the pending map stored under the key of the pair. *)
Definition entriesOf (s : System) (a b : N) : list (string * PendingConflict) :=
  filter (fun kc => kc.1 = conflictKey a b) (conflictCache s).

(** Methods of the class that no file of the repository defines. *)
Class Hooks : Type := {
  (** [getAllyContribution(gangster, allyCount)], a number read off the world *)
  getAllyContribution : System -> N -> Z -> Q;
  (** [handleStalemate(gang1, gang2, conflict)] *)
  handleStalemate : N -> N -> PendingConflict -> JS.M System unit
}.

Section Resolution.
Context `{Hooks}.

(** The [while (allyMask)] loop of [calculateWarStrength].  [allyMask >>= 1]
    is a signed shift, so the loop needs fuel: a mask with bit 31 set turns
    negative and never reaches zero. *)
Fixpoint allyLoop (fuel : nat) (gangster : N) (allyMask allyCount : Z)
    (strength : JS.double) : JS.M System JS.double :=
  match fuel with
  | O => fun _ => JS.OutOfFuel
  | S fuel' =>
      if JS.truthy allyMask then
        s ← JS.read;
        let strength' :=
          if JS.truthy (JS.and32 allyMask 1)
          then (strength + JS.number (getAllyContribution s gangster allyCount))%D
          else strength in
        allyLoop fuel' gangster (JS.sar32 allyMask 1) (allyCount + 1) strength'
      else mret strength
  end.

(** The strength is computed in the numbers of the host language, operation
    by operation: the resolver branches on the result. *)
Definition calculateWarStrength (fuel : nat) (gangster : N) : JS.M System JS.double :=
  warfare ← getWarfareState gangster;
  territory ← getTerritoryControl gangster;
  (* Base strength, then ally strength *)
  strength ← allyLoop fuel gangster (allies warfare) 0 (JS.float32 (warStrength warfare));
  (* Factor in territory control *)
  let controlBonus :=
    (fold_left (fun sum s => sum + JS.float32 s) (stability territory) (JS.number 0)
     / JS.number 16)%D in
  let strength := (strength * (JS.number 1 + controlBonus))%D in
  (* Reputation modifier *)
  let strength :=
    (strength * (JS.number 1 + JS.float32 (reputation warfare) * JS.number (2 # 10)))%D in
  mret strength.

(** [updateWarReputation(gangster, warfare, victory)]; the handle [warfare]
    is the row of the entity it was obtained for. *)
Definition updateWarReputation (gangster : N) (warfare : N) (victory : bool)
  : JS.M System unit :=
  if victory then
    setWarfareState warfare (fun w =>
      with_reputation (Qmin 1 (reputation w + (1 # 10))) w)
  else
    setWarfareState warfare (fun w =>
      with_reputation (reputation w * (8 # 10))%Q w).

(** Vocabulary for the statements about strength. *)

(** The indices of the bits set in an ally mask, in ascending order. *)
Definition allyIndices (mask : Z) : list Z :=
  filter (fun k => Z.testbit mask k = true) (seqZ 0 31).

(** The base strength with the contribution of each ally added, in
    ascending order of the ally's bit. *)
Definition withAllies (s : System) (gangster : N) (base : JS.double) (mask : Z)
  : JS.double :=
  fold_left (fun acc k => acc + JS.number (getAllyContribution s gangster k))%D
    (allyIndices mask) base.

(** The sum of the ally contributions alone, as a rational. *)
Definition allySum (s : System) (gangster : N) (mask : Z) : Q :=
  fold_left (fun acc k => acc + getAllyContribution s gangster k)%Q (allyIndices mask) 0%Q.

(** [stability.reduce((sum, s) => sum + s, 0) / 16] *)
Definition controlBonus (t : TerritoryControlRow) : JS.double :=
  (fold_left (fun sum s => sum + JS.float32 s) (stability t) (JS.number 0)
   / JS.number 16)%D.

(** The strength as the specification words it: the base multiplied by one
    plus the ally sum, by one plus the average stability of the held cells,
    and by one plus the reputation times a factor [k]. *)
Definition heldStabilities (t : TerritoryControlRow) : list Q :=
  omap (fun i => if claims (territories t) i then stability t !! Z.to_nat i else None)
    (seqZ 0 TERRITORY_GRID).
Definition average (l : list Q) : Q :=
  (fold_left Qplus l 0 / inject_Z (Z.of_nat (length l)))%Q.
Definition specifiedStrength (s : System) (gangster : N)
    (w : WarfareStateRow) (t : TerritoryControlRow) (k : Q) : Q :=
  (warStrength w * (1 + allySum s gangster (allies w))
   * (1 + average (heldStabilities t)) * (1 + reputation w * k))%Q.

(** Entity [g] lacks a row the resolver reads. *)
Definition absent (s : System) (g : N) : Prop :=
  WarfareState s !! g = None ∨ TerritoryControl s !! g = None.

(** What the statements about stalemates assume of [handleStalemate]: it
    returns, and leaves the clock, the pending map and every bitfield of
    held cells as they were. *)
Definition stalemateFrame : Prop :=
  ∀ gang1 gang2 conflict s,
    ∃ s', handleStalemate gang1 gang2 conflict s = JS.Return tt s'
          ∧ time s' = time s
          ∧ conflictCache s' = conflictCache s
          ∧ ∀ e, territories <$> (TerritoryControl s' !! e)
                 = territories <$> (TerritoryControl s !! e).

(** The method the class defines under the name [resolveTerrritorialDispute]
    (three r's). *)
Definition resolveTerrritorialDispute (gang1 gang2 : N) (territoryId : Z) (winner : N)
  : JS.M System unit :=
  _ ← getTerritoryControl gang1;
  _ ← getTerritoryControl gang2;
  _ ← getWarfareState gang1;
  _ ← getWarfareState gang2;
  (* Transfer territory control *)
  (if N.eqb winner gang1 then
     setTerritoryControl gang2 (fun t =>
       with_territories
         (JS.ToUint32 (JS.and32 (territories t) (JS.not32 (JS.shl32 1 territoryId)))) t);;
     setTerritoryControl gang1 (fun t =>
       with_territories
         (JS.ToUint32 (JS.or32 (territories t) (JS.shl32 1 territoryId))) t);;
     setWarfareState gang1 (fun w => with_victories (JS.ToUint16 (victories w + 1)) w);;
     setWarfareState gang2 (fun w => with_casualties (JS.ToUint16 (casualties w + 1)) w)
   else
     setTerritoryControl gang1 (fun t =>
       with_territories
         (JS.ToUint32 (JS.and32 (territories t) (JS.not32 (JS.shl32 1 territoryId)))) t);;
     setTerritoryControl gang2 (fun t =>
       with_territories
         (JS.ToUint32 (JS.or32 (territories t) (JS.shl32 1 territoryId))) t);;
     setWarfareState gang2 (fun w => with_victories (JS.ToUint16 (victories w + 1)) w);;
     setWarfareState gang1 (fun w => with_casualties (JS.ToUint16 (casualties w + 1)) w));;
  (* Update reputation *)
  updateWarReputation gang1 gang1 (N.eqb winner gang1);;
  updateWarReputation gang2 gang2 (N.eqb winner gang2);;
  (* Clear conflict flags *)
  setWarfareState gang1 (fun w =>
    with_activeConflicts
      (JS.ToUint32 (JS.and32 (activeConflicts w) (JS.not32 (JS.shl32 1 territoryId)))) w);;
  setWarfareState gang2 (fun w =>
    with_activeConflicts
      (JS.ToUint32 (JS.and32 (activeConflicts w) (JS.not32 (JS.shl32 1 territoryId)))) w).

(** The methods of the class that take [(gang1, gang2, territoryId, winner)],
    by the name they are defined under.  A call [this.name(...)] looks the
    name up; a name that is not bound throws a TypeError. *)
Definition disputeMethods : list (string * (N -> N -> Z -> N -> JS.M System unit)) :=
  [("resolveTerrritorialDispute"%string, resolveTerrritorialDispute)].

Definition callMethod (name : string) (gang1 gang2 : N) (territoryId : Z) (winner : N)
  : JS.M System unit :=
  match JS.get name disputeMethods with
  | Some method => method gang1 gang2 territoryId winner
  | None => JS.throw (JS.TypeError name)
  end.

(** [key.split('_').map(Number)], destructured as [[gang1, gang2]]; [None]
    is a missing element or one that is not a number. *)
Definition splitKey (key : string) : option N * option N :=
  let parts := map JS.Number (JS.split "_" key) in
  (mjoin (parts !! 0%nat), mjoin (parts !! 1%nat)).

(** An entity id taken from a key; no component store holds a row for a
    value that is not a number. *)
Definition entity (e : option N) : JS.M System N :=
  match e with
  | Some g => mret g
  | None => JS.throw JS.MissingComponent
  end.

(** The body of the loop of [resolveConflicts] for the entry under [key]. *)
Definition resolveConflict (fuel : nat) (key : string) : JS.M System unit :=
  s ← JS.read;
  match JS.get key (conflictCache s) with
  | None => mret tt
  | Some conflict =>
      if time s - lastUpdate conflict >? 100 then
        let '(gang1, gang2) := splitKey key in
        (* Calculate war strength *)
        gang1 ← entity gang1;
        strength1 ← calculateWarStrength fuel gang1;
        gang2 ← entity gang2;
        strength2 ← calculateWarStrength fuel gang2;
        (* Resolve conflict *)
        if JS.Double.gtb (JS.Double.abs (strength1 - strength2)%D) MIN_STRENGTH then
          callMethod "resolveTerritorialDispute" gang1 gang2 (territory conflict)
            (if JS.Double.gtb strength1 strength2 then gang1 else gang2);;
          JS.modify (fun s => with_conflictCache (JS.delete key (conflictCache s)) s)
        else
          (* Stalemate - update casualties *)
          handleStalemate gang1 gang2 conflict;;
          (* conflict.lastUpdate = this.world.time, on the entry under [key] *)
          JS.modify (fun s =>
            match JS.get key (conflictCache s) with
            | Some c =>
                with_conflictCache
                  (JS.set key (with_lastUpdate (time s) c) (conflictCache s)) s
            | None => s
            end)
      else mret tt
  end.

(** [resolveConflicts]: the entries are visited in insertion order. *)
Definition resolveConflicts (fuel : nat) : JS.M System unit :=
  s ← JS.read;
  JS.forOf (JS.keys (conflictCache s)) (resolveConflict fuel).

End Resolution.

End Territory.

(** ** ConspiracySystem *)

Module Conspiracy.

Record ConspiracyStateRow : Type := {
  membershipFlags : Z;     (* ui32 *)
  rank : list Z;           (* ui8 x 4 *)
  knownMembers : Z;        (* ui32 *)
  secretGoals : list Z;    (* ui8 x 4 *)
  publicGoals : list Z;    (* ui8 x 4 *)
  trustNetwork : Z         (* ui32 *)
}.

Record PowerStructureRow : Type := {
  leaderPosition : Z;      (* ui8: position in hierarchy *)
  succession : list N;     (* ui32 x 4: potential successors, 0 = none *)
  supporters : Z;          (* ui32 *)
  rivals : Z;              (* ui32 *)
  powerBase : Q;           (* f32 *)
  stabilityFactor : Q      (* f32 *)
}.

Record Vacuum : Type := { position : Z; agent : N; severity : Q }.

Module Candidate.
Record t : Type := { agent : N; power : N (* handle: the row of [agent] *); support : Q }.
End Candidate.

Record Faction : Type := { leader : N; faction_supporters : list N }.

Record CacheEntry : Type := { status : Z; timestamp : Z }.

Record System : Type := {
  time : Z;                                         (* world.time *)
  ConspiracyState : gmap N ConspiracyStateRow;
  PowerStructure : gmap N PowerStructureRow;
  conspiracyCache : JS.Map CacheEntry;
  (** ghost: the agents [calculateConspiracyStatus] ran for, latest first *)
  calculated : list N
}.

Definition with_membershipFlags (v : Z) (r : ConspiracyStateRow) : ConspiracyStateRow :=
  {| membershipFlags := v; rank := rank r; knownMembers := knownMembers r;
     secretGoals := secretGoals r; publicGoals := publicGoals r;
     trustNetwork := trustNetwork r |}.
Definition with_secretGoals (v : list Z) (r : ConspiracyStateRow) : ConspiracyStateRow :=
  {| membershipFlags := membershipFlags r; rank := rank r; knownMembers := knownMembers r;
     secretGoals := v; publicGoals := publicGoals r; trustNetwork := trustNetwork r |}.
Definition with_publicGoals (v : list Z) (r : ConspiracyStateRow) : ConspiracyStateRow :=
  {| membershipFlags := membershipFlags r; rank := rank r; knownMembers := knownMembers r;
     secretGoals := secretGoals r; publicGoals := v; trustNetwork := trustNetwork r |}.
Definition with_leaderPosition (v : Z) (r : PowerStructureRow) : PowerStructureRow :=
  {| leaderPosition := v; succession := succession r; supporters := supporters r;
     rivals := rivals r; powerBase := powerBase r; stabilityFactor := stabilityFactor r |}.
Definition with_stabilityFactor (v : Q) (r : PowerStructureRow) : PowerStructureRow :=
  {| leaderPosition := leaderPosition r; succession := succession r;
     supporters := supporters r; rivals := rivals r; powerBase := powerBase r;
     stabilityFactor := v |}.

Definition with_ConspiracyState (v : gmap N ConspiracyStateRow) (s : System) : System :=
  {| time := time s; ConspiracyState := v; PowerStructure := PowerStructure s;
     conspiracyCache := conspiracyCache s; calculated := calculated s |}.
Definition with_PowerStructure (v : gmap N PowerStructureRow) (s : System) : System :=
  {| time := time s; ConspiracyState := ConspiracyState s; PowerStructure := v;
     conspiracyCache := conspiracyCache s; calculated := calculated s |}.
Definition with_conspiracyCache (v : JS.Map CacheEntry) (s : System) : System :=
  {| time := time s; ConspiracyState := ConspiracyState s;
     PowerStructure := PowerStructure s; conspiracyCache := v;
     calculated := calculated s |}.
Definition with_calculated (v : list N) (s : System) : System :=
  {| time := time s; ConspiracyState := ConspiracyState s;
     PowerStructure := PowerStructure s; conspiracyCache := conspiracyCache s;
     calculated := v |}.
(** The world at another tick. *)
Definition with_time (v : Z) (s : System) : System :=
  {| time := v; ConspiracyState := ConspiracyState s;
     PowerStructure := PowerStructure s; conspiracyCache := conspiracyCache s;
     calculated := calculated s |}.

(** Modelled from the spec: the component store's [get] (section 4.1). *)
Definition getConspiracyState (e : N) : JS.M System ConspiracyStateRow :=
  fun s => match ConspiracyState s !! e with
           | Some r => JS.Return r s
           | None => JS.Throw JS.MissingComponent s
           end.
Definition getPowerStructure (e : N) : JS.M System PowerStructureRow :=
  fun s => match PowerStructure s !! e with
           | Some r => JS.Return r s
           | None => JS.Throw JS.MissingComponent s
           end.
Definition setConspiracyState (e : N) (f : ConspiracyStateRow -> ConspiracyStateRow)
  : JS.M System unit :=
  JS.modify (fun s => with_ConspiracyState (alter f e (ConspiracyState s)) s).
Definition setPowerStructure (e : N) (f : PowerStructureRow -> PowerStructureRow)
  : JS.M System unit :=
  JS.modify (fun s => with_PowerStructure (alter f e (PowerStructure s)) s).

(** Methods and constants of the class that no file of the repository
    defines.  A handle argument is the id of the row it points to. *)
Class Hooks : Type := {
  isViableSuccessor : System -> N -> N -> Vacuum -> bool;
  isViableClaimant : System -> N -> N -> Vacuum -> bool;
  calculateSupport : System -> N -> list N -> Q;
  findAffectedAgents : System -> Vacuum -> list N -> list N;
  forceConspiracyRealignment : N -> N -> N -> JS.M System unit;
  divideSupporters : System -> Vacuum -> list Candidate.t -> list Faction;
  allocateConspiracyBit : JS.M System Z;
  SEIZE_POWER : Z;
  RESTORE_STABILITY : Z;
  calculateConspiracyStatus : System -> N -> N -> N -> Z
}.

Section Succession.
Context `{Hooks}.

Definition detectPowerVacuums (agents : list N) : JS.M System (list Vacuum) :=
  JS.forOfAcc agents [] (fun vacuums agent =>
    power ← getPowerStructure agent;
    if (0 <? leaderPosition power) && JS.ltb (stabilityFactor power) (2 # 10) then
      (* Potential vacuum forming *)
      mret (vacuums ++ [{| position := leaderPosition power; agent := agent;
                           severity := 1 - stabilityFactor power |}])
    else mret vacuums).

Definition findViableSuccessors (vacuum : Vacuum) (agents : list N)
  : JS.M System (list Candidate.t) :=
  power ← getPowerStructure (agent vacuum);
  (* Check designated successors first *)
  candidates ←
    JS.forOfAcc (succession power) [] (fun candidates successor =>
      if N.eqb successor 0 then mret candidates
      else
        _ ← getPowerStructure successor;
        s ← JS.read;
        if isViableSuccessor s successor successor vacuum then
          mret (candidates ++
                  [{| Candidate.agent := successor; Candidate.power := successor;
                      Candidate.support := calculateSupport s successor agents |}])
        else mret candidates);
  (* Then check other potential claimants *)
  candidates ←
    JS.forOfAcc agents candidates (fun candidates agent =>
      if existsb (N.eqb agent) (succession power) then mret candidates
      else
        _ ← getPowerStructure agent;
        s ← JS.read;
        if isViableClaimant s agent agent vacuum then
          mret (candidates ++
                  [{| Candidate.agent := agent; Candidate.power := agent;
                      Candidate.support := calculateSupport s agent agents |}])
        else mret candidates);
  mret (JS.sort (fun a b => Candidate.support b - Candidate.support a)%Q candidates).

Definition initiateSuccessionCrisis (vacuum : Vacuum) (successors : list Candidate.t)
  : JS.M System unit :=
  (* Create opposing factions *)
  s ← JS.read;
  JS.forOf (divideSupporters s vacuum successors) (fun faction =>
    _ ← getConspiracyState (leader faction);
    (* Create new conspiracy for this faction *)
    conspiracyBit ← allocateConspiracyBit;
    setConspiracyState (leader faction) (fun c =>
      with_membershipFlags
        (JS.ToUint32 (JS.or32 (membershipFlags c) (JS.shl32 1 conspiracyBit))) c);;
    (* Set up goals *)
    setConspiracyState (leader faction) (fun c =>
      with_secretGoals (<[0%nat := JS.ToUint8 SEIZE_POWER]> (secretGoals c)) c);;
    setConspiracyState (leader faction) (fun c =>
      with_publicGoals (<[0%nat := JS.ToUint8 RESTORE_STABILITY]> (publicGoals c)) c);;
    (* Mark supporters *)
    JS.forOf (faction_supporters faction) (fun supporter =>
      _ ← getConspiracyState supporter;
      setConspiracyState supporter (fun c =>
        with_membershipFlags
          (JS.ToUint32 (JS.or32 (membershipFlags c) (JS.shl32 1 conspiracyBit))) c))).

Definition handlePowerCollapse (vacuum : Vacuum) (agents : list N) : JS.M System unit :=
  s ← JS.read;
  (* Trigger cascade of power shifts *)
  JS.forOf (findAffectedAgents s vacuum agents) (fun agent =>
    _ ← getPowerStructure agent;
    _ ← getConspiracyState agent;
    (* Reduce all power positions *)
    setPowerStructure agent (fun p =>
      with_leaderPosition (JS.ToUint8 (Z.max 0 (leaderPosition p - 1))) p);;
    setPowerStructure agent (fun p =>
      with_stabilityFactor (stabilityFactor p * (5 # 10))%Q p);;
    (* Force conspiracy realignments *)
    forceConspiracyRealignment agent agent agent).

(** The body of the loop of [handlePowerVacuums]. *)
Definition handlePowerVacuum (agents : list N) (vacuum : Vacuum) : JS.M System unit :=
  successors ← findViableSuccessors vacuum agents;
  if (0 <? Z.of_nat (length successors)) then
    (* Trigger succession crisis *)
    initiateSuccessionCrisis vacuum successors
  else
    (* No clear successor - power collapse *)
    handlePowerCollapse vacuum agents.

Definition handlePowerVacuums (vacuums : list Vacuum) (agents : list N)
  : JS.M System unit :=
  (* Sort by severity and position *)
  let vacuums :=
    JS.sort (fun a b =>
               if Qeq_bool (severity b - severity a) 0
               then inject_Z (position b - position a)
               else (severity b - severity a)%Q) vacuums in
  JS.forOf vacuums (handlePowerVacuum agents).

Definition cacheKey (agent : N) (flags : Z) : string :=
  (JS.toString agent ++ "_" ++ JS.toString (Z.to_N flags))%string.

(** Vocabulary for the statements about succession. *)

(** The candidate record pushed for [x]. *)
Definition candidate (s : System) (agents : list N) (x : N) : Candidate.t :=
  {| Candidate.agent := x; Candidate.power := x;
     Candidate.support := calculateSupport s x agents |}.

(** The candidates in the order the two loops push them: the designated
    successors that are viable, in list order, then the other agents that
    are viable claimants, in query order. *)
Definition designated (s : System) (vacuum : Vacuum) (power : PowerStructureRow) : list N :=
  filter (fun x => x ≠ 0%N ∧ isViableSuccessor s x x vacuum = true) (succession power).
Definition claimants (s : System) (vacuum : Vacuum) (power : PowerStructureRow)
    (agents : list N) : list N :=
  filter (fun a => existsb (N.eqb a) (succession power) = false
                   ∧ isViableClaimant s a a vacuum = true) agents.
Definition enumeration (s : System) (vacuum : Vacuum) (power : PowerStructureRow)
    (agents : list N) : list Candidate.t :=
  candidate s agents <$> (designated s vacuum power ++ claimants s vacuum power agents).

(** Descending order of support. *)
Definition bySupport (a b : Candidate.t) : Prop :=
  (Candidate.support b <= Candidate.support a)%Q.

(** The candidates whose support equals [v]. *)
Definition withSupport (v : Q) (l : list Candidate.t) : list Candidate.t :=
  filter (fun c => Qeq_bool (Candidate.support c) v = true) l.

(** What the statements about power collapse assume of
    [forceConspiracyRealignment]: it returns, leaves the power structures
    as they were, and removes no conspiracy row. *)
Definition realignmentFrame : Prop :=
  ∀ agent conspiracy power s,
    ∃ s', forceConspiracyRealignment agent conspiracy power s = JS.Return tt s'
          ∧ PowerStructure s' = PowerStructure s
          ∧ ∀ e, is_Some (ConspiracyState s' !! e) ↔ is_Some (ConspiracyState s !! e).

(** The row of a stakeholder after a power collapse. *)
Definition collapsed (p : PowerStructureRow) : PowerStructureRow :=
  with_stabilityFactor (stabilityFactor p * (5 # 10))%Q
    (with_leaderPosition (JS.ToUint8 (Z.max 0 (leaderPosition p - 1))) p).

(** [updateConspiracyStatus(agent, conspiracy, power)] *)
Definition updateConspiracyStatus (agent conspiracy power : N) : JS.M System Z :=
  row ← getConspiracyState conspiracy;
  (* Use cached calculations where possible *)
  let cacheKey := cacheKey agent (membershipFlags row) in
  s ← JS.read;
  let recompute : JS.M System Z :=
    (* Calculate new status *)
    s ← JS.read;
    let status := calculateConspiracyStatus s agent conspiracy power in
    JS.modify (fun s => with_calculated (agent :: calculated s) s);;
    (* Cache result *)
    JS.modify (fun s =>
      with_conspiracyCache
        (JS.set cacheKey {| status := status; timestamp := time s |}
           (conspiracyCache s)) s);;
    mret status in
  match JS.get cacheKey (conspiracyCache s) with
  | Some cached =>
      if timestamp cached >? time s - 100 then mret (status cached) else recompute
  | None => recompute
  end.

End Succession.

End Conspiracy.

(** ** UndergroundSystem: market discovery *)

Module Underground.

Record UndergroundEconomyRow : Type := {
  marketAccess : Z;        (* ui32: bitfield of accessible black markets *)
  contraband : list Z;     (* ui16 x 8 *)
  contacts : Z;            (* ui32 *)
  reputation : Q;          (* f32 *)
  heatLevel : Q;           (* f32 *)
  fronts : list Z          (* ui8 x 4 *)
}.

(** [market] is null ([None]) or a market id. *)
Record CacheEntry : Type := { market : option N; timestamp : Z }.

Record System : Type := {
  time : Z;                                         (* world.time *)
  UndergroundEconomy : gmap N UndergroundEconomyRow;
  activeMarkets : list N;                           (* a Set, in insertion order *)
  discoveryCache : JS.Map CacheEntry;
  (** ghost: the [(marketId, operator)] pairs [evaluateMarketSuitability]
      ran for, latest first *)
  evaluated : list (N * N)
}.

Definition with_discoveryCache (v : JS.Map CacheEntry) (s : System) : System :=
  {| time := time s; UndergroundEconomy := UndergroundEconomy s;
     activeMarkets := activeMarkets s; discoveryCache := v; evaluated := evaluated s |}.
Definition with_evaluated (v : list (N * N)) (s : System) : System :=
  {| time := time s; UndergroundEconomy := UndergroundEconomy s;
     activeMarkets := activeMarkets s; discoveryCache := discoveryCache s;
     evaluated := v |}.

(** Modelled from the spec: the component store's [get] (section 4.1). *)
Definition getUndergroundEconomy (e : N) : JS.M System UndergroundEconomyRow :=
  fun s => match UndergroundEconomy s !! e with
           | Some r => JS.Return r s
           | None => JS.Throw JS.MissingComponent s
           end.

(** The method of the class that no file of the repository defines. *)
Class Hooks : Type := {
  evaluateMarketSuitability : System -> N -> N -> Q
}.

Section Discovery.
Context `{Hooks}.

Definition cacheKey (operator : N) (access : Z) : string :=
  (JS.toString operator ++ "_" ++ JS.toString (Z.to_N access))%string.

(** [findSuitableMarket(operator, underground)]; the handle [underground] is
    the id of the row it points to. *)
Definition findSuitableMarket (operator underground : N) : JS.M System (option N) :=
  row ← getUndergroundEconomy underground;
  let cacheKey := cacheKey operator (marketAccess row) in
  s ← JS.read;
  let search : JS.M System (option N) :=
    (* Find market through contacts *)
    s ← JS.read;
    best ← JS.forOfAcc (activeMarkets s) (None, 0%Q) (fun '(bestMarket, bestScore) marketId =>
      if JS.truthy (JS.and32 (marketAccess row) (JS.shl32 1 (Z.of_N marketId))) then
        s ← JS.read;
        let score := evaluateMarketSuitability s marketId operator in
        JS.modify (fun s => with_evaluated ((marketId, operator) :: evaluated s) s);;
        if JS.gtb score bestScore then mret (Some marketId, score)
        else mret (bestMarket, bestScore)
      else mret (bestMarket, bestScore));
    (* Cache result *)
    JS.modify (fun s =>
      with_discoveryCache
        (JS.set cacheKey {| market := best.1; timestamp := time s |}
           (discoveryCache s)) s);;
    mret best.1 in
  (* Check cache first *)
  match JS.get cacheKey (discoveryCache s) with
  | Some cached =>
      if timestamp cached >? time s - 100 then mret (market cached) else search
  | None => search
  end.

End Discovery.

End Underground.

(** ** Sample worlds *)

Module Sample.
Import Territory.

(** A gang that holds the cells of the bitfield [t], with no allies, zero
    stability and zero reputation. *)
Definition turf (t : Z) : TerritoryControlRow :=
  {| territories := t; protection := replicate 16 0; income := replicate 16 0;
     enforcers := 0; rivals := 0; stability := replicate 16 0%Q |}.
Definition force (strength : Q) (allies : Z) : WarfareStateRow :=
  {| activeConflicts := 0; warStrength := strength; allies := allies;
     casualties := 0; victories := 0; reputation := 0 |}.

Definition world (now : Z) (gangs : list (N * (TerritoryControlRow * WarfareStateRow)))
    (cache : JS.Map PendingConflict) : System :=
  {| time := now;
     TerritoryControl := list_to_map (prod_map id fst <$> gangs);
     WarfareState := list_to_map (prod_map id snd <$> gangs);
     UndergroundEconomy := list_to_set gangs.*1;
     territoryGrid := [];
     conflictCache := cache |}.

(** Entities 1 and 2 both hold cells 3 and 5 (bitfield 40). *)
Definition twoCells : System :=
  world 7 [(1%N, (turf 40, force 1 0)); (2%N, (turf 40, force 1 0))] [].

(** Entities 1 and 2 hold cell 3 and are already in a conflict over it. *)
Definition atWar : System :=
  world 50 [(1%N, (turf 8, force 1 0)); (2%N, (turf 8, force 1 0))]
    [(conflictKey 1 2, {| territory := 3; startTime := 7; lastUpdate := 7 |})].

(** Entities 0, 1 and 2 all hold cell 3 (bitfield 8). *)
Definition threeOnCell3 : System :=
  world 7 [(0%N, (turf 8, force 1 0)); (1%N, (turf 8, force 1 0));
           (2%N, (turf 8, force 1 0))] [].

End Sample.

(** ** Sample worlds for resolution *)

Module SampleWar.
Import Territory Sample.

(** Modelled from the spec: [handleStalemate] (section 4.4: in a stalemate
    both parties absorb a casualty-equivalent cost), the method itself being
    defined nowhere in the repository. *)
Definition stalemateCost (gang1 gang2 : N) (conflict : PendingConflict)
  : JS.M System unit :=
  setWarfareState gang1 (fun w => with_casualties (JS.ToUint16 (casualties w + 1)) w);;
  setWarfareState gang2 (fun w => with_casualties (JS.ToUint16 (casualties w + 1)) w).

(** Every ally contributes one unit of strength. *)
#[export] Instance hooks : Hooks :=
  {| getAllyContribution := fun _ _ _ => 1%Q; handleStalemate := stalemateCost |}.

Definition oldConflict : JS.Map PendingConflict :=
  [(conflictKey 1 2, {| territory := 3; startTime := 0; lastUpdate := 0 |})].

(** Strengths 10 and 7 at tick 200, conflict over cell 3 pending since 0. *)
Definition decisive : System :=
  world 200 [(1%N, (turf 8, force 10 0)); (2%N, (turf 8, force 7 0))] oldConflict.

(** Strengths 10 and 10. *)
Definition level : System :=
  world 200 [(1%N, (turf 8, force 10 0)); (2%N, (turf 8, force 10 0))] oldConflict.

(** A gang without allies, of reputation 1. *)
Definition feared (strength : Q) : WarfareStateRow :=
  with_reputation 1 (force strength 0).

(** Base strengths 0.25, at reputation 1, and 0: the strengths are
    0.25 * 1.2, which in binary64 is 0.3, the threshold itself, and 0. *)
Definition boundary : System :=
  world 200 [(1%N, (turf 8, feared (1 # 4))); (2%N, (turf 8, force 0 0))] oldConflict.

(** Base strengths 1.25 and 1, both at reputation 1: as rationals the
    strengths 1.25 * 1.2 and 1 * 1.2 are 3/10 apart; in binary64 they are
    1.5 and the float next below 6/5, and their difference is the float
    next above 0.3. *)
Definition hairline : System :=
  world 200 [(1%N, (turf 8, feared (5 # 4))); (2%N, (turf 8, feared 1))] oldConflict.

(** Entity 2 is gone. *)
Definition departed : System :=
  world 200 [(1%N, (turf 8, force 10 0))] oldConflict.

(** Entity 1 has base strength 2 and one ally (bit 0); it holds cell 0. *)
Definition allied : System :=
  world 200 [(1%N, (turf 1, force 2 1))] [].

(** Entity 1 has the ally with bit 31. *)
Definition ally31 : System :=
  world 200 [(1%N, (turf 1, force 2 (2 ^ 31)))] [].

End SampleWar.

(** ** Sample worlds for succession and caching *)

Module SampleCourt.
Import Conspiracy.

Definition plotter (flags : Z) : ConspiracyStateRow :=
  {| membershipFlags := flags; rank := [0; 0; 0; 0]; knownMembers := 0;
     secretGoals := [0; 0; 0; 0]; publicGoals := [0; 0; 0; 0]; trustNetwork := 0 |}.
Definition seat (position : Z) (successors : list N) (stability : Q) : PowerStructureRow :=
  {| leaderPosition := position; succession := successors; supporters := 0;
     rivals := 0; powerBase := 1; stabilityFactor := stability |}.

(** Every designated successor is viable and no other agent is; every
    candidate has support 1; a collapse affects all agents; the status of an
    agent is the tick at which it is computed. *)
#[export] Instance hooks : Hooks :=
  {| isViableSuccessor := fun _ _ _ _ => true;
     isViableClaimant := fun _ _ _ _ => false;
     calculateSupport := fun _ _ _ => 1%Q;
     findAffectedAgents := fun _ _ agents => agents;
     forceConspiracyRealignment := fun _ _ _ => mret tt;
     divideSupporters := fun _ _ _ => [];
     allocateConspiracyBit := mret 0;
     SEIZE_POWER := 1;
     RESTORE_STABILITY := 2;
     calculateConspiracyStatus := fun s _ _ _ => time s |}.

Definition world (now : Z) (agents : list (N * PowerStructureRow))
    (cache : JS.Map CacheEntry) : System :=
  {| time := now;
     ConspiracyState := list_to_map ((fun a => (a.1, plotter 5)) <$> agents);
     PowerStructure := list_to_map agents;
     conspiracyCache := cache;
     calculated := [] |}.

(** Agent 1 holds rank 2 with stability 0.1 and designates 5, then 3. *)
Definition court : System :=
  world 10 [(1%N, seat 2 [5; 3; 0; 0]%N (1 # 10));
            (3%N, seat 1 [0; 0; 0; 0]%N 1); (5%N, seat 1 [0; 0; 0; 0]%N 1)] [].
Definition courtVacuum : Vacuum :=
  {| position := 2; agent := 1; severity := 9 # 10 |}.

(** Agent 1 holds rank 1 with stability 0.1 and designates nobody; agent 2
    has rank 0. *)
Definition leaderless : System :=
  world 10 [(1%N, seat 1 [0; 0; 0; 0]%N (1 # 10));
            (2%N, seat 0 [0; 0; 0; 0]%N 1)] [].
Definition leaderlessVacuum : Vacuum :=
  {| position := 1; agent := 1; severity := 9 # 10 |}.

(** Agent 1 with membership flags 5 at tick 10, nothing cached. *)
Definition idle : System := world 10 [(1%N, seat 0 [0; 0; 0; 0]%N 1)] [].

(** The same agent at tick [now], with [entry] cached under its key. *)
Definition later (now : Z) (entry : CacheEntry) : System :=
  world now [(1%N, seat 0 [0; 0; 0; 0]%N 1)] [(cacheKey 1 5, entry)].

End SampleCourt.

Module SampleMarket.
Import Underground.

(** A market suits an operator as much as its id. *)
#[export] Instance hooks : Hooks :=
  {| evaluateMarketSuitability := fun _ marketId _ => inject_Z (Z.of_N marketId) |}.

(** Operator 1 has access to markets 1 and 2 (bitfield 6); markets 1, 2 and
    3 are active. *)
Definition bazaar (now : Z) (cache : JS.Map CacheEntry) : System :=
  {| time := now;
     UndergroundEconomy :=
       {[ 1%N := {| marketAccess := 6; contraband := replicate 8 0; contacts := 0;
                    reputation := 0; heatLevel := 0; fronts := [0; 0; 0; 0] |} ]};
     activeMarkets := [1; 2; 3]%N;
     discoveryCache := cache;
     evaluated := [] |}.

End SampleMarket.

(** ** TerritorySystem: vocabulary for frame statements *)

Module Frames.
Import Territory.

(** Vocabulary for the statements about what detection leaves alone. *)

(** The row [w'] is the row [w] with conflict flags added and nothing else
    changed. *)
Definition flagsGrow (w w' : WarfareStateRow) : Prop :=
  with_activeConflicts (activeConflicts w) w' = w
  ∧ ∀ j, 0 ≤ j < 32 →
      Z.testbit (activeConflicts w) j = true → Z.testbit (activeConflicts w') j = true.

(** The state [s'] differs from [s] at most by a rebuilt grid, by conflict
    flags added to the rows of [s] and by entries appended to the pending
    map. *)
Definition detected (s s' : System) : Prop :=
  time s' = time s
  ∧ TerritoryControl s' = TerritoryControl s
  ∧ UndergroundEconomy s' = UndergroundEconomy s
  ∧ length (territoryGrid s') = Z.to_nat TERRITORY_GRID
  ∧ (∃ added, conflictCache s' = conflictCache s ++ added)
  ∧ ∀ g, option_Forall2 flagsGrow (WarfareState s !! g) (WarfareState s' !! g).

(** Whether a call returned, rather than threw or ran out of fuel. *)
Definition returned {S A} (o : JS.outcome S A) : bool :=
  match o with JS.Return _ _ => true | _ => false end.

(** The state a call leaves behind satisfies [P], if the call leaves one. *)
Definition leaves {S A} (o : JS.outcome S A) (P : S → Prop) : Prop :=
  match JS.stateOf o with Some s' => P s' | None => True end.

(** The state [s'] has the pending conflicts of [s] under the same keys in
    the same order, and every gang holds the cells it held in [s]. *)
Definition sameTurf (s s' : System) : Prop :=
  JS.keys (conflictCache s') = JS.keys (conflictCache s)
  ∧ ∀ e, territories <$> (TerritoryControl s' !! e)
         = territories <$> (TerritoryControl s !! e).

End Frames.

(** ** TerritorySystem: the upkeep of held cells and the tick *)

Module Upkeep.
Import Territory.

(** Methods of the class that no file of the repository defines.  A handle
    argument is the id of the row it points to; the two counting methods
    read the world and give a number. *)
Class Hooks : Type := {
  (** [countEnforcersInTerritory(territory.enforcers, territoryId)] *)
  countEnforcersInTerritory : System -> Z -> Z -> Q;
  (** [calculateAlliedSupport(territory.territories, territoryId)] *)
  calculateAlliedSupport : System -> Z -> Z -> Q;
  (** [reinforceTerritory(gangster, index, territory)] *)
  reinforceTerritory : N -> Z -> N -> JS.M System unit;
  (** [handleInternalThreats(gangster, index, territory)] *)
  handleInternalThreats : N -> Z -> N -> JS.M System unit;
  (** [shouldExpand(territory, warfare)] *)
  shouldExpand : System -> N -> N -> bool;
  (** [planExpansion(gangster, territory, warfare)] *)
  planExpansion : N -> N -> N -> JS.M System unit;
  (** [manageConflicts(gangster, territory, warfare)] *)
  manageConflicts : N -> N -> N -> JS.M System unit
}.

(** A number that may be NaN ([None]): [undefined / 255] is NaN, arithmetic
    on NaN gives NaN, and every comparison with NaN is false. *)
Definition number : Type := option Q.

(** [x < c] for a number that may be NaN. *)
Definition lessThan (x : number) (c : Q) : bool :=
  match x with
  | Some v => JS.ltb v c
  | None => false
  end.

(** [a[i]] on a typed array: [undefined] outside the array. *)
Definition index {A} (a : list A) (i : Z) : option A :=
  if i <? 0 then None else a !! Z.to_nat i.

Section Control.
Context `{Territory.Hooks} `{Hooks}.

Definition calculateStability (gangster : N) (territoryId : Z) (territory warfare : N)
  : JS.M System number :=
  t ← getTerritoryControl territory;
  w ← getWarfareState warfare;
  s ← JS.read;
  (* Base stability from protection level *)
  let stability : number :=
    (fun p => inject_Z p / 255)%Q <$> index (protection t) territoryId in
  (* Reduce stability if at war *)
  let stability : number :=
    if JS.truthy (JS.and32 (activeConflicts w) (JS.shl32 1 territoryId))
    then (fun x => x * (7 # 10))%Q <$> stability
    else stability in
  (* Factor in enforcer presence *)
  let enforcerCount := countEnforcersInTerritory s (enforcers t) territoryId in
  let stability : number := (fun x => x + enforcerCount * (1 # 10))%Q <$> stability in
  (* Consider nearby allied territories *)
  let alliedSupport := calculateAlliedSupport s (territories t) territoryId in
  let stability : number := (fun x => x + alliedSupport * (2 # 10))%Q <$> stability in
  mret (Qmin 1 <$> stability).

(** The body of the loop of [maintainControl] for a cell whose bit is set. *)
Definition maintainCell (gangster territory warfare : N) (index : Z) : JS.M System unit :=
  (* Calculate control stability *)
  stability ← calculateStability gangster index territory warfare;
  (* Update protection needs *)
  (if lessThan stability (5 # 10)
   then reinforceTerritory gangster index territory
   else mret tt);;
  (* Check for internal threats *)
  if lessThan stability (3 # 10)
  then handleInternalThreats gangster index territory
  else mret tt.

(** The [while (controlMask)] loop of [maintainControl]; [controlMask >>= 1]
    is a signed shift, hence the fuel. *)
Fixpoint controlLoop (fuel : nat) (gangster territory warfare : N)
    (controlMask index : Z) : JS.M System unit :=
  match fuel with
  | O => fun _ => JS.OutOfFuel
  | S fuel' =>
      if JS.truthy controlMask then
        (if JS.truthy (JS.and32 controlMask 1)
         then maintainCell gangster territory warfare index
         else mret tt);;
        controlLoop fuel' gangster territory warfare (JS.sar32 controlMask 1) (index + 1)
      else mret tt
  end.

Definition maintainControl (fuel : nat) (gangster territory warfare : N)
  : JS.M System unit :=
  (* Check each controlled territory *)
  t ← getTerritoryControl territory;
  controlLoop fuel gangster territory warfare (territories t) 0.

(** The body of the loop of [update] for one gangster. *)
Definition act (fuel : nat) (gangster : N) : JS.M System unit :=
  _ ← getTerritoryControl gangster;
  _ ← getWarfareState gangster;
  (* Consider territorial expansion *)
  s ← JS.read;
  (if shouldExpand s gangster gangster
   then planExpansion gangster gangster gangster
   else mret tt);;
  (* Handle ongoing wars *)
  warfare ← getWarfareState gangster;
  (if JS.truthy (activeConflicts warfare)
   then manageConflicts gangster gangster gangster
   else mret tt);;
  (* Maintain territory control *)
  maintainControl fuel gangster gangster gangster.

Definition update (fuel : nat) : JS.M System unit :=
  s ← JS.read;
  let gangsters := gangsters s in
  (* Update territory control first *)
  updateTerritories;;
  (* Then handle active conflicts *)
  resolveConflicts fuel;;
  (* Finally process individual gang actions *)
  JS.forOf gangsters (act fuel).

(** What the statement about the tick assumes of [getAllyContribution]:
    the contribution of an ally does not depend on the grid, on the conflict
    flags or on the pending conflicts that detection has just added. *)
Definition contributionFrame : Prop :=
  ∀ s s' g k, Frames.detected s s' → getAllyContribution s' g k = getAllyContribution s g k.

End Control.

End Upkeep.

(** ** Sample hooks for the upkeep *)

Module SampleUpkeep.
Import Territory Sample SampleWar Upkeep.

Definition with_protection (v : list Z) (r : TerritoryControlRow) : TerritoryControlRow :=
  {| territories := territories r; protection := v; income := income r;
     enforcers := enforcers r; rivals := rivals r; stability := stability r |}.

(** Reinforcing a cell raises its protection to the maximum; nothing else
    is done, no enforcer and no allied cell counts, and no gang expands. *)
#[export] Instance upkeep : Upkeep.Hooks :=
  {| countEnforcersInTerritory := fun _ _ _ => 0%Q;
     calculateAlliedSupport := fun _ _ _ => 0%Q;
     reinforceTerritory := fun _ index territory =>
       setTerritoryControl territory (fun r =>
         with_protection (<[Z.to_nat index := 255]> (protection r)) r);
     handleInternalThreats := fun _ _ _ => mret tt;
     shouldExpand := fun _ _ _ => false;
     planExpansion := fun _ _ _ => mret tt;
     manageConflicts := fun _ _ _ => mret tt |}.

(** Entity 1 holds cells 0 and 20 (bitfield 2^20 + 1). *)
Definition farCell : System :=
  world 200 [(1%N, (turf (2 ^ 20 + 1), force 2 0))] [].

(** Entity 1 holds cell 31. *)
Definition cell31 : System :=
  world 200 [(1%N, (turf (2 ^ 31), force 2 0))] [].

End SampleUpkeep.

(** ** ConspiracySystem: stability checks and the hierarchy update *)

Module Hierarchy.
Import Conspiracy.

Definition STABILITY_THRESHOLD : Q := 3 # 10.

Definition with_powerBase (v : Q) (r : PowerStructureRow) : PowerStructureRow :=
  {| leaderPosition := leaderPosition r; succession := succession r;
     supporters := supporters r; rivals := rivals r; powerBase := v;
     stabilityFactor := stabilityFactor r |}.

(** A [Map] whose keys are numbers: keys are compared by value, iteration
    is in insertion order, [set] on an existing key keeps its place. *)
Section NumberMap.
Context {K V : Type} `{EqDecision K}.

Fixpoint get (k : K) (m : list (K * V)) : option V :=
  match m with
  | [] => None
  | (k', v) :: m' => if decide (k = k') then Some v else get k m'
  end.

Definition has (k : K) (m : list (K * V)) : bool :=
  match get k m with Some _ => true | None => false end.

Fixpoint set (k : K) (v : V) (m : list (K * V)) : list (K * V) :=
  match m with
  | [] => [(k, v)]
  | (k', v') :: m' =>
      if decide (k = k') then (k', v) :: m' else (k', v') :: set k v m'
  end.

Definition keys (m : list (K * V)) : list K := map fst m.
End NumberMap.

(** Methods of the class that no file of the repository defines. *)
Class Hooks : Type := {
  (** [calculatePowerShift(agent, power)], a number read off the world *)
  calculatePowerShift : System -> N -> N -> Q
}.

Section Levels.
Context `{Conspiracy.Hooks} `{Hooks}.

(** [needsStabilityCheck(conspiracy, power)]; [!==] compares the signed
    32-bit result of [&] with the unsigned value of the column. *)
Definition needsStabilityCheck (conspiracy power : N) : JS.M System bool :=
  c ← getConspiracyState conspiracy;
  p ← getPowerStructure power;
  (* Use bit operations for quick checks *)
  mret (negb (JS.and32 (membershipFlags c) (supporters p) =? supporters p)
        || JS.ltb (stabilityFactor p) STABILITY_THRESHOLD).

Definition updateHierarchyLevel (levelAgents : list N) : JS.M System unit :=
  (* Calculate power dynamics for this level *)
  powerShifts ←
    JS.forOfAcc levelAgents [] (fun powerShifts agent =>
      _ ← getPowerStructure agent;
      s ← JS.read;
      let baseChange := calculatePowerShift s agent agent in
      mret (set agent baseChange powerShifts));
  (* Apply changes atomically *)
  JS.forOf powerShifts (fun '(agent, shift) =>
    _ ← getPowerStructure agent;
    setPowerStructure agent (fun p => with_powerBase (powerBase p + shift)%Q p)).

Definition updatePowerStructures (agents : list N) : JS.M System unit :=
  (* Group updates by hierarchy level for efficiency *)
  hierarchyLevels ←
    JS.forOfAcc agents [] (fun hierarchyLevels agent =>
      power ← getPowerStructure agent;
      let level := leaderPosition power in
      let hierarchyLevels :=
        if negb (has level hierarchyLevels)
        then set level [] hierarchyLevels
        else hierarchyLevels in
      (* hierarchyLevels.get(level).push(agent) *)
      mret (set level (default [] (get level hierarchyLevels) ++ [agent])
              hierarchyLevels));
  (* Update from top down *)
  JS.forOf (JS.sort (fun a b => inject_Z (b - a)) (keys hierarchyLevels)) (fun level =>
    updateHierarchyLevel (default [] (get level hierarchyLevels))).

End Levels.

(** Vocabulary for the statements about vacuums and levels. *)

(** The agent holds a rank and its stability is below 0.2. *)
Definition unstable (s : System) (a : N) : bool :=
  match PowerStructure s !! a with
  | Some p => (0 <? leaderPosition p) && JS.ltb (stabilityFactor p) (2 # 10)
  | None => false
  end.

(** The order in which [handlePowerVacuums] goes through the vacuums: by
    falling severity and, at equal severity, by falling position. *)
Definition bySeverity (a b : Vacuum) : Prop :=
  (severity b < severity a)%Q
  ∨ ((severity b == severity a)%Q ∧ position b ≤ position a).

(** The rank of an agent. *)
Definition levelOf (s : System) (a : N) : option Z :=
  leaderPosition <$> (PowerStructure s !! a).

(** The agents of rank [l], in the order of the list. *)
Definition agentsAt (s : System) (l : Z) (agents : list N) : list N :=
  filter (fun a => levelOf s a = Some l) agents.

(** What the statement about succession crises assumes of
    [allocateConspiracyBit]: whatever it does, it leaves the power
    structures alone. *)
Definition allocationFrame `{Conspiracy.Hooks} : Prop :=
  ∀ s, Frames.leaves (allocateConspiracyBit s)
         (fun s' => PowerStructure s' = PowerStructure s).

End Hierarchy.

(** ** Sample hooks for the hierarchy update *)

Module SampleHierarchy.
Import Conspiracy Hierarchy SampleCourt.

(** The shift of every agent is the power base agent 3 has when the shift
    is computed. *)
#[export] Instance shifts : Hierarchy.Hooks :=
  {| calculatePowerShift := fun s _ _ =>
       default 0%Q (powerBase <$> (PowerStructure s !! 3%N)) |}.

End SampleHierarchy.

(** ** UndergroundSystem: trading and heat *)

Module Shadow.
Import Underground.

(** One row of the [BlackMarket] component. *)
Module Market.
Record t : Type := {
  resources : list Z;      (* ui16 x 8 *)
  operators : Z;           (* ui32 *)
  customers : Z;           (* ui32 *)
  security : Q;            (* f32 *)
  prices : list Q;         (* f32 x 8 *)
  specialties : Z          (* ui8 *)
}.
End Market.

(** One row of the [EconomicState] component (src/systems/EconomicSystem.ts). *)
Module Economy.
Record t : Type := {
  resources : list Z;      (* ui32 x 8 *)
  control : Z;             (* ui32 *)
  trade : list Z;          (* ui16 x 16 *)
  debts : list Z;          (* i16 x 8 *)
  marketInfluence : Q;     (* f32 *)
  blackmail : Z            (* ui32 *)
}.
End Economy.

(** The world of the underground system: the part market discovery works
    on, and the two other component stores the system reads and writes. *)
Record World : Type := {
  core : System;
  BlackMarket : gmap N Market.t;
  EconomicState : gmap N Economy.t
}.

Definition HEAT_THRESHOLD : Q := 7 # 10.
Definition MAX_MARKETS : Z := 32.

(** Field writes. *)
Definition with_marketAccess (v : Z) (r : UndergroundEconomyRow) : UndergroundEconomyRow :=
  {| marketAccess := v; contraband := contraband r; contacts := contacts r;
     reputation := reputation r; heatLevel := heatLevel r; fronts := fronts r |}.
Definition with_contacts (v : Z) (r : UndergroundEconomyRow) : UndergroundEconomyRow :=
  {| marketAccess := marketAccess r; contraband := contraband r; contacts := v;
     reputation := reputation r; heatLevel := heatLevel r; fronts := fronts r |}.
Definition with_heatLevel (v : Q) (r : UndergroundEconomyRow) : UndergroundEconomyRow :=
  {| marketAccess := marketAccess r; contraband := contraband r; contacts := contacts r;
     reputation := reputation r; heatLevel := v; fronts := fronts r |}.
Definition with_security (v : Q) (m : Market.t) : Market.t :=
  {| Market.resources := Market.resources m; Market.operators := Market.operators m;
     Market.customers := Market.customers m; Market.security := v;
     Market.prices := Market.prices m; Market.specialties := Market.specialties m |}.
Definition with_resources (v : list Z) (e : Economy.t) : Economy.t :=
  {| Economy.resources := v; Economy.control := Economy.control e;
     Economy.trade := Economy.trade e; Economy.debts := Economy.debts e;
     Economy.marketInfluence := Economy.marketInfluence e;
     Economy.blackmail := Economy.blackmail e |}.

Definition with_UndergroundEconomy (v : gmap N UndergroundEconomyRow) (s : System) : System :=
  {| time := time s; UndergroundEconomy := v; activeMarkets := activeMarkets s;
     discoveryCache := discoveryCache s; evaluated := evaluated s |}.
Definition with_core (v : System) (w : World) : World :=
  {| core := v; BlackMarket := BlackMarket w; EconomicState := EconomicState w |}.
Definition with_BlackMarket (v : gmap N Market.t) (w : World) : World :=
  {| core := core w; BlackMarket := v; EconomicState := EconomicState w |}.
Definition with_EconomicState (v : gmap N Economy.t) (w : World) : World :=
  {| core := core w; BlackMarket := BlackMarket w; EconomicState := v |}.

(** A method of the discovery part, run in the whole world. *)
Definition lift {A} (m : JS.M System A) : JS.M World A :=
  fun w => match m (core w) with
           | JS.Return a s => JS.Return a (with_core s w)
           | JS.Throw e s => JS.Throw e (with_core s w)
           | JS.OutOfFuel => JS.OutOfFuel
           end.

(** Modelled from the spec: the component store's [get] (section 4.1).  A
    read through a handle is a [get] of the row the handle points to; a
    write through it is [alter] on the store. *)
Definition getUnderground (e : N) : JS.M World UndergroundEconomyRow :=
  fun w => match UndergroundEconomy (core w) !! e with
           | Some r => JS.Return r w
           | None => JS.Throw JS.MissingComponent w
           end.
Definition getBlackMarket (e : N) : JS.M World Market.t :=
  fun w => match BlackMarket w !! e with
           | Some r => JS.Return r w
           | None => JS.Throw JS.MissingComponent w
           end.
Definition getEconomicState (e : N) : JS.M World Economy.t :=
  fun w => match EconomicState w !! e with
           | Some r => JS.Return r w
           | None => JS.Throw JS.MissingComponent w
           end.
Definition setUnderground (e : N) (f : UndergroundEconomyRow -> UndergroundEconomyRow)
  : JS.M World unit :=
  JS.modify (fun w =>
    with_core (with_UndergroundEconomy (alter f e (UndergroundEconomy (core w))) (core w)) w).
Definition setBlackMarket (e : N) (f : Market.t -> Market.t) : JS.M World unit :=
  JS.modify (fun w => with_BlackMarket (alter f e (BlackMarket w)) w).
Definition setEconomicState (e : N) (f : Economy.t -> Economy.t) : JS.M World unit :=
  JS.modify (fun w => with_EconomicState (alter f e (EconomicState w)) w).

(** A compound assignment through a handle, [handle.field op= v]. *)
Definition updateUnderground (e : N) (f : UndergroundEconomyRow -> UndergroundEconomyRow)
  : JS.M World unit :=
  _ ← getUnderground e;
  setUnderground e f.

(** Methods of the class that no file of the repository defines.  A handle
    argument is the id of the row it points to. *)
Class Hooks : Type := {
  (** [considerNewMarket(operator, underground)] *)
  considerNewMarket : N -> N -> JS.M World unit;
  (** [calculateSafeTradeVolume(underground, market)], a number *)
  calculateSafeTradeVolume : World -> N -> N -> Q;
  (** [isTradeWorthRisk(volume, market.prices)] *)
  isTradeWorthRisk : World -> Q -> list Q -> bool;
  (** [processTrade(operator, marketId, volume)] *)
  processTrade : N -> N -> Q -> JS.M World unit;
  (** [findCompromisedContacts(underground)], a bitfield *)
  findCompromisedContacts : World -> N -> Z;
  (** [isMarketCompromised(market)] *)
  isMarketCompromised : World -> N -> bool;
  (** [rotateFrontBusinesses(operator, underground)] *)
  rotateFrontBusinesses : N -> N -> JS.M World unit;
  (** [identifyRiskyContacts(underground)], a bitfield *)
  identifyRiskyContacts : World -> N -> Z
}.

Section Trading.
Context `{Underground.Hooks} `{Hooks}.

Definition executeUndergroundTrade (operator marketId underground economic : N)
  : JS.M World unit :=
  market ← getBlackMarket marketId;
  (* Calculate safe trade volume *)
  w ← JS.read;
  let volume := calculateSafeTradeVolume w underground marketId in
  (* Execute trade if worth the risk *)
  if isTradeWorthRisk w volume (Market.prices market) then
    processTrade operator marketId volume;;
    (* Update heat levels *)
    updateUnderground underground (fun r =>
      with_heatLevel (heatLevel r + volume * (1 # 10))%Q r);;
    _ ← getBlackMarket marketId;
    setBlackMarket marketId (fun m =>
      with_security (Market.security m - volume * (5 # 100))%Q m)
  else mret tt.

Definition engageUnderground (operator underground economic : N) : JS.M World unit :=
  (* Find or create suitable market *)
  market ← lift (findSuitableMarket operator underground);
  match market with
  | Some marketId =>
      (* [if (market)]: the id 0 is falsy *)
      if JS.truthy (Z.of_N marketId) then
        (* Attempt to trade *)
        executeUndergroundTrade operator marketId underground economic
      else
        (* Consider establishing new market *)
        considerNewMarket operator underground
  | None => considerNewMarket operator underground
  end.

Definition handleInvestigation (operator underground : N) : JS.M World unit :=
  (* Remove compromised contacts *)
  w ← JS.read;
  updateUnderground underground (fun r =>
    with_contacts
      (JS.ToUint32 (JS.and32 (contacts r) (JS.not32 (findCompromisedContacts w underground))))
      r);;
  (* Burn exposed markets *)
  r ← getUnderground underground;
  newAccess ←
    JS.forOfAcc (seqZ 0 MAX_MARKETS) (marketAccess r) (fun newAccess i =>
      if JS.truthy (JS.and32 newAccess (JS.shl32 1 i)) then
        _ ← getBlackMarket (Z.to_N i);
        w ← JS.read;
        if isMarketCompromised w (Z.to_N i)
        then mret (JS.and32 newAccess (JS.not32 (JS.shl32 1 i)))
        else mret newAccess
      else mret newAccess);
  setUnderground underground (fun r => with_marketAccess (JS.ToUint32 newAccess) r);;
  (* Switch front businesses if needed *)
  rotateFrontBusinesses operator underground.

Definition reduceHeat (operator underground : N) : JS.M World unit :=
  (* Use front businesses *)
  r ← getUnderground underground;
  JS.forOf (fronts r) (fun front =>
    if negb (front =? 0) then
      updateUnderground underground (fun r =>
        with_heatLevel (heatLevel r - (1 # 10))%Q r)
    else mret tt);;
  (* Bribe officials (costs resources) *)
  economic ← getEconomicState operator;
  (match Economy.resources economic !! 0%nat with
   | Some stock =>
       if 100 <? stock then
         setEconomicState operator (fun e =>
           with_resources
             (<[0%nat := JS.ToUint32 (stock - 100)]> (Economy.resources e)) e);;
         updateUnderground underground (fun r =>
           with_heatLevel (heatLevel r - (2 # 10))%Q r)
       else mret tt
   | None => mret tt (* [undefined > 100] is false *)
   end);;
  (* Cut ties with risky contacts *)
  w ← JS.read;
  let riskyContacts := identifyRiskyContacts w underground in
  updateUnderground underground (fun r =>
    with_contacts (JS.ToUint32 (JS.and32 (contacts r) (JS.not32 riskyContacts))) r).

Definition manageHeatLevel (operator underground : N) : JS.M World unit :=
  (* Natural heat decay *)
  updateUnderground underground (fun r =>
    with_heatLevel (heatLevel r * (95 # 100))%Q r);;
  (* Check for investigations *)
  r ← getUnderground underground;
  (if JS.gtb (heatLevel r) HEAT_THRESHOLD
   then handleInvestigation operator underground
   else mret tt);;
  (* Attempt to reduce heat *)
  r ← getUnderground underground;
  if JS.gtb (heatLevel r) (4 # 10)
  then reduceHeat operator underground
  else mret tt.

End Trading.

(** Vocabulary for the statements about discovery and heat. *)

(** [underground.marketAccess & (1 << marketId)] read as a condition. *)
Definition accessible (access : Z) (marketId : N) : bool :=
  JS.truthy (JS.and32 access (JS.shl32 1 (Z.of_N marketId))).

(** What the statements about discovery assume of
    [evaluateMarketSuitability]: the score does not depend on the log of
    evaluations. *)
Definition scoreFrame `{Underground.Hooks} : Prop :=
  ∀ s log marketId operator,
    evaluateMarketSuitability (with_evaluated log s) marketId operator
    = evaluateMarketSuitability s marketId operator.

(** What the statement about investigations assumes of
    [rotateFrontBusinesses]: it returns and leaves the rows of the
    underground economy as they were. *)
Definition rotationFrame `{Hooks} : Prop :=
  ∀ operator underground w,
    ∃ w', rotateFrontBusinesses operator underground w = JS.Return tt w'
          ∧ UndergroundEconomy (core w') = UndergroundEconomy (core w).

(** The number of cover businesses in use. *)
Definition frontsInUse (r : UndergroundEconomyRow) : nat :=
  length (filter (fun front => front ≠ 0) (fronts r)).

End Shadow.

(** ** Sample worlds for trading and heat *)

Module SampleShadow.
Import Underground Shadow.

(** Every market suits every operator equally. *)
Definition flat : Underground.Hooks :=
  {| evaluateMarketSuitability := fun _ _ _ => 1%Q |}.

(** A market is compromised when its security is below one half; contact 0
    is compromised and contact 1 is risky; every trade has volume 1 and is
    worth the risk; the remaining methods do nothing. *)
#[export] Instance dealings : Shadow.Hooks :=
  {| considerNewMarket := fun _ _ => mret tt;
     calculateSafeTradeVolume := fun _ _ _ => 1%Q;
     isTradeWorthRisk := fun _ _ _ => true;
     processTrade := fun _ _ _ => mret tt;
     findCompromisedContacts := fun _ _ => 1;
     isMarketCompromised := fun w marketId =>
       match BlackMarket w !! marketId with
       | Some m => JS.ltb (Market.security m) (1 # 2)
       | None => false
       end;
     rotateFrontBusinesses := fun _ _ => mret tt;
     identifyRiskyContacts := fun _ _ => 2 |}.

Definition stall (security : Q) : Market.t :=
  {| Market.resources := replicate 8 0; Market.operators := 0; Market.customers := 0;
     Market.security := security; Market.prices := replicate 8 1%Q;
     Market.specialties := 0 |}.
Definition purse (stock : Z) : Economy.t :=
  {| Economy.resources := stock :: replicate 7 0; Economy.control := 0;
     Economy.trade := replicate 16 0; Economy.debts := replicate 8 0;
     Economy.marketInfluence := 0; Economy.blackmail := 0 |}.
Definition dealer (access contacts : Z) (heat : Q) (fronts : list Z) : UndergroundEconomyRow :=
  {| marketAccess := access; contraband := replicate 8 0; contacts := contacts;
     reputation := 0; heatLevel := heat; fronts := fronts |}.

(** An operator with access to markets 0 and 1 (bitfield 3), contacts 0, 1
    and 2 (bitfield 7), heat 0.8 and two cover businesses. *)
Definition boss : UndergroundEconomyRow := dealer 3 7 (8 # 10) [4; 0; 9; 0].

(** Operator 1 is the boss, with 150 units of resource 0.  Markets 0 and 1
    are active; market 0 is well hidden, market 1 is not. *)
Definition alley : World :=
  {| core :=
       {| time := 10;
          UndergroundEconomy := {[ 1%N := boss ]};
          activeMarkets := [0; 1]%N;
          discoveryCache := [];
          evaluated := [] |};
     BlackMarket := {[ 0%N := stall 1; 1%N := stall (1 # 10) ]};
     EconomicState := {[ 1%N := purse 150 ]} |}.

(** The same world with market 1 ahead of market 0 in the set. *)
Definition lane : World :=
  {| core :=
       {| time := 10;
          UndergroundEconomy := {[ 1%N := boss ]};
          activeMarkets := [1; 0]%N;
          discoveryCache := [];
          evaluated := [] |};
     BlackMarket := {[ 0%N := stall 1; 1%N := stall (1 # 10) ]};
     EconomicState := {[ 1%N := purse 150 ]} |}.

End SampleShadow.

(** ** The tick-stamped caches: vocabulary *)

Module Caches.
Import Underground.

(** The evaluations a search of [s] logs for an operator with the access
    bitfield [access]: one for each active market the bitfield admits, the
    latest first. *)
Definition searched (s : System) (access : Z) (operator : N) : list (N * N) :=
  rev ((fun marketId => (marketId, operator))
         <$> filter (fun marketId => Shadow.accessible access marketId = true)
               (activeMarkets s)).

(** [best] is what a search of [s] finds: the first of the accessible
    active markets of maximal positive score, or null when no accessible
    active market has a positive score. *)
Definition bestMarket `{Hooks} (s : System) (access : Z) (operator : N)
    (best : option N) : Prop :=
  match best with
  | Some m =>
      ∃ pre post, activeMarkets s = pre ++ m :: post
        ∧ Shadow.accessible access m = true
        ∧ (0 < evaluateMarketSuitability s m operator)%Q
        ∧ (∀ m', m' ∈ pre → Shadow.accessible access m' = true →
             (evaluateMarketSuitability s m' operator
              < evaluateMarketSuitability s m operator)%Q)
        ∧ (∀ m', m' ∈ post → Shadow.accessible access m' = true →
             (evaluateMarketSuitability s m' operator
              <= evaluateMarketSuitability s m operator)%Q)
  | None =>
      ∀ m', m' ∈ activeMarkets s → Shadow.accessible access m' = true →
            (evaluateMarketSuitability s m' operator <= 0)%Q
  end.

End Caches.

(** ** Sample worlds with a stale cache entry *)

Module SampleStale.

(** Agent 1 at tick [now], with the status 10 cached at tick 10. *)
Definition courtAt (now : Z) : Conspiracy.System :=
  SampleCourt.later now {| Conspiracy.status := 10; Conspiracy.timestamp := 10 |}.

(** Operator 1 at tick [now], with market 1 cached at tick 10. *)
Definition bazaarAt (now : Z) : Underground.System :=
  SampleMarket.bazaar now
    [(Underground.cacheKey 1 6,
      {| Underground.market := Some 1%N; Underground.timestamp := 10 |})].

End SampleStale.

(** ** Sample hooks for succession crises *)

Module SampleCrisis.
Import Conspiracy.

(** The lowest of the 32 conspiracy bits that the membership flags of no
    agent use (bit 31 when all are in use). *)
Definition freeBit (s : System) : Z :=
  default 31
    (head (filter (fun bit =>
                     map_Forall (fun _ row => Z.testbit (membershipFlags row) bit = false)
                       (ConspiracyState s))
             (seqZ 0 32))).

(** Hooks under which a crisis splits the court: every viable successor
    leads a faction of its own, supported by the agent that leaves the
    vacuum; a conspiracy bit is the lowest free one, and allocating it
    drops the cached statuses, whose keys are built from membership flags.
    The other hooks are those of [SampleCourt]. *)
Definition factions : Hooks :=
  {| isViableSuccessor := @isViableSuccessor SampleCourt.hooks;
     isViableClaimant := @isViableClaimant SampleCourt.hooks;
     calculateSupport := @calculateSupport SampleCourt.hooks;
     findAffectedAgents := @findAffectedAgents SampleCourt.hooks;
     forceConspiracyRealignment := @forceConspiracyRealignment SampleCourt.hooks;
     divideSupporters := fun _ vacuum successors =>
       (fun c => {| leader := Candidate.agent c;
                    faction_supporters := [agent vacuum] |}) <$> successors;
     allocateConspiracyBit := fun s =>
       JS.Return (freeBit s) (with_conspiracyCache [] s);
     SEIZE_POWER := @SEIZE_POWER SampleCourt.hooks;
     RESTORE_STABILITY := @RESTORE_STABILITY SampleCourt.hooks;
     calculateConspiracyStatus := @calculateConspiracyStatus SampleCourt.hooks |}.

End SampleCrisis.

(** * Properties *)

(** ** Host-language primitives *)

Section MapFacts.
Context {V : Type}.
Implicit Types (m : JS.Map V) (k : string) (v : V).

Lemma Map_get_set_eq k v m : JS.get k (JS.set k v m) = Some v.
Proof.
  induction m as [|[k' v'] m IH]; simpl.
  - by rewrite String.eqb_refl.
  - destruct (String.eqb k k') eqn:E; simpl; rewrite E; [done | exact IH].
Qed.

Lemma Map_get_set_ne k k' v m : k ≠ k' → JS.get k' (JS.set k v m) = JS.get k' m.
Proof.
  intros Hne. induction m as [|[k0 v0] m IH]; simpl.
  - destruct (String.eqb k' k) eqn:E; [|done].
    apply String.eqb_eq in E. congruence.
  - destruct (String.eqb k k0) eqn:E; simpl.
    + apply String.eqb_eq in E. subst k0.
      destruct (String.eqb k' k) eqn:E'; [|done].
      apply String.eqb_eq in E'. congruence.
    + by rewrite IH.
Qed.

Lemma Map_has_get k m : JS.has k m = true ↔ is_Some (JS.get k m).
Proof.
  unfold JS.has. destruct (JS.get k m); split; intros Hs; done.
Qed.

Lemma Map_has_false k m : JS.has k m = false ↔ JS.get k m = None.
Proof. unfold JS.has. by destruct (JS.get k m). Qed.

Lemma Map_get_keys k m : is_Some (JS.get k m) ↔ k ∈ JS.keys m.
Proof.
  induction m as [|[k' v'] m IH]; simpl.
  - split; [by intros [? ?] | by intros ?%elem_of_nil].
  - rewrite elem_of_cons. destruct (String.eqb k k') eqn:E.
    + apply String.eqb_eq in E. split; [by left | by eexists].
    + apply String.eqb_neq in E. rewrite IH.
      split; [by right | by intros [?|?]].
Qed.

Lemma Map_set_fresh k v m : JS.get k m = None → JS.set k v m = m ++ [(k, v)].
Proof.
  induction m as [|[k' v'] m IH]; simpl; [done|].
  destruct (String.eqb k k'); [done|]. intros Hn. by rewrite IH.
Qed.

Lemma Map_size_set_fresh k v m :
  JS.get k m = None → JS.size (JS.set k v m) = S (JS.size m).
Proof.
  intros Hn. rewrite (Map_set_fresh _ _ _ Hn). unfold JS.size.
  rewrite length_app. simpl. lia.
Qed.

Lemma Map_keys_set_present k v m :
  is_Some (JS.get k m) → JS.keys (JS.set k v m) = JS.keys m.
Proof.
  induction m as [|[k' v'] m IH]; simpl.
  - by intros [? ?].
  - destruct (String.eqb k k') eqn:E; simpl; [done|].
    intros Hs. by rewrite IH.
Qed.

Lemma Map_size_set_present k v m :
  is_Some (JS.get k m) → JS.size (JS.set k v m) = JS.size m.
Proof.
  intros Hs. unfold JS.size.
  rewrite <- !(length_map fst). fold (JS.keys (JS.set k v m)) (JS.keys m).
  by rewrite Map_keys_set_present.
Qed.

Lemma Map_get_delete_eq k m : NoDup (JS.keys m) → JS.get k (JS.delete k m) = None.
Proof.
  induction m as [|[k' v'] m IH]; simpl; [done|].
  intros [Hnotin Hnd]%NoDup_cons.
  destruct (String.eqb k k') eqn:E; simpl.
  - apply String.eqb_eq in E. subst k'.
    destruct (JS.get k m) eqn:G; [|done].
    exfalso. apply Hnotin, Map_get_keys. by eexists.
  - rewrite E. by apply IH.
Qed.

Lemma Map_get_elem k v m : JS.get k m = Some v → (k, v) ∈ m.
Proof.
  induction m as [|[k' v'] m IH]; simpl; [done|].
  destruct (String.eqb k k') eqn:E.
  - apply String.eqb_eq in E. intros [= ->]. subst. by left.
  - intros Hg. right. by apply IH.
Qed.

Lemma Map_elem_get k v m : NoDup (JS.keys m) → (k, v) ∈ m → JS.get k m = Some v.
Proof.
  induction m as [|[k' v'] m IH]; simpl.
  - by intros _ ?%elem_of_nil.
  - intros [Hnotin Hnd]%NoDup_cons [Heq|Hin]%elem_of_cons.
    + injection Heq as -> ->. by rewrite String.eqb_refl.
    + destruct (String.eqb k k') eqn:E; [|by apply IH].
      apply String.eqb_eq in E. subst k'. exfalso. apply Hnotin.
      apply Map_get_keys. exists v. by apply IH.
Qed.

Lemma Map_keys_set_NoDup k v m : NoDup (JS.keys m) → NoDup (JS.keys (JS.set k v m)).
Proof.
  intros Hnd. destruct (JS.get k m) eqn:G.
  - rewrite Map_keys_set_present; [done | by eexists].
  - rewrite (Map_set_fresh _ _ _ G). unfold JS.keys. rewrite map_app. simpl.
    apply NoDup_app. split; [done|]. split; [|apply NoDup_singleton].
    intros x Hx ->%list_elem_of_singleton.
    apply Map_get_keys in Hx. rewrite G in Hx. by destruct Hx.
Qed.

End MapFacts.

Lemma split_without c s : JS.occurs c s = false → JS.split c s = [s].
Proof.
  induction s as [|a s IH]; simpl; [done|].
  intros [Ha Hs]%orb_false_iff. rewrite Ha, (IH Hs). done.
Qed.

Lemma split_app_sep c a b :
  JS.occurs c a = false →
  JS.split c (a ++ String c b)%string = a :: JS.split c b.
Proof.
  induction a as [|x a IH]; simpl.
  - intros _. by rewrite Ascii.eqb_refl.
  - intros [Hx Ha]%orb_false_iff. rewrite Hx, (IH Ha). done.
Qed.

Lemma string_of_uint_no_underscore d :
  JS.occurs "_" (NilEmpty.string_of_uint d) = false.
Proof. induction d; simpl; done. Qed.

Lemma toString_no_underscore n : JS.occurs "_" (JS.toString n) = false.
Proof. apply string_of_uint_no_underscore. Qed.

Lemma Number_toString n : JS.Number (JS.toString n) = Some n.
Proof.
  unfold JS.Number, JS.toString. rewrite NilEmpty.usu.
  f_equal. apply DecimalN.Unsigned.of_to.
Qed.

Lemma toString_inj a b : JS.toString a = JS.toString b → a = b.
Proof.
  intros Heq. apply (f_equal JS.Number) in Heq.
  rewrite !Number_toString in Heq. congruence.
Qed.

(** A key made of two ids splits back into the two ids. *)
Lemma split_pair_key a b :
  map JS.Number (JS.split "_" (JS.toString a ++ "_" ++ JS.toString b)%string)
  = [Some a; Some b].
Proof.
  change ("_" ++ JS.toString b)%string with (String "_" (JS.toString b)).
  rewrite split_app_sep by apply toString_no_underscore.
  rewrite split_without by apply toString_no_underscore.
  simpl. by rewrite !Number_toString.
Qed.

Lemma pair_key_inj a b a' b' :
  (JS.toString a ++ "_" ++ JS.toString b)%string
  = (JS.toString a' ++ "_" ++ JS.toString b')%string →
  a = a' ∧ b = b'.
Proof.
  intros Heq. apply (f_equal (fun k => map JS.Number (JS.split "_" k))) in Heq.
  rewrite !split_pair_key in Heq. by injection Heq as -> ->.
Qed.

(** *** Bit operators on stored bitfields *)

Lemma ToInt32_testbit x j : 0 ≤ j < 32 → Z.testbit (JS.ToInt32 x) j = Z.testbit x j.
Proof.
  intros Hj. unfold JS.ToInt32.
  rewrite <- (Z.mod_pow2_bits_low (_ - _) 32 j) by lia.
  rewrite <- (Z.mod_pow2_bits_low x 32 j) by lia.
  f_equal.
  rewrite Zminus_mod, Zmod_mod, <- Zminus_mod.
  replace (x + 2 ^ 31 - 2 ^ 31) with x by lia. done.
Qed.

Lemma ToInt32_small x : - 2 ^ 31 ≤ x < 2 ^ 31 → JS.ToInt32 x = x.
Proof.
  intros Hx. unfold JS.ToInt32. rewrite Z.mod_small; lia.
Qed.

Lemma shl32_one i : 0 ≤ i < 31 → JS.shl32 1 i = 2 ^ i.
Proof.
  intros Hi. unfold JS.shl32.
  assert (Z.land i 31 = i) as ->.
  { change 31 with (Z.ones 5). rewrite Z.land_ones by lia.
    apply Z.mod_small. change (2 ^ 5) with 32. lia. }
  rewrite (ToInt32_small 1) by lia.
  rewrite Z.shiftl_1_l. apply ToInt32_small.
  assert (0 < 2 ^ i) by (apply Z.pow_pos_nonneg; lia).
  assert (2 ^ i < 2 ^ 31) by (apply Z.pow_lt_mono_r; lia). lia.
Qed.

Lemma land_pow2_testbit x i :
  0 ≤ i → Z.land x (2 ^ i) = if Z.testbit x i then 2 ^ i else 0.
Proof.
  intros Hi. apply Z.bits_inj'. intros j Hj.
  rewrite Z.land_spec, Z.pow2_bits_eqb by lia.
  destruct (Z.eqb_spec i j) as [->|Hne].
  - destruct (Z.testbit x j); simpl.
    + by rewrite Z.pow2_bits_true.
    + by rewrite Z.bits_0.
  - rewrite andb_false_r. destruct (Z.testbit x i).
    + by rewrite Z.pow2_bits_false.
    + by rewrite Z.bits_0.
Qed.

(** On the grid's sixteen cells, [territories & (1 << i)] tests bit [i]. *)
Lemma claims_testbit t i : 0 ≤ i < 31 → Territory.claims t i = Z.testbit t i.
Proof.
  intros Hi. unfold Territory.claims, JS.and32, JS.truthy.
  rewrite shl32_one by done.
  rewrite (ToInt32_small (2 ^ i)).
  2:{ assert (0 < 2 ^ i) by (apply Z.pow_pos_nonneg; lia).
      assert (2 ^ i < 2 ^ 31) by (apply Z.pow_lt_mono_r; lia). lia. }
  rewrite land_pow2_testbit by lia.
  rewrite ToInt32_testbit by lia.
  destruct (Z.testbit t i); simpl; [|done].
  assert (0 < 2 ^ i) by (apply Z.pow_pos_nonneg; lia).
  destruct (Z.eqb_spec (2 ^ i) 0); [lia | done].
Qed.

(** *** Reasoning about method calls that return *)

Section Returns.
Context {S : Type}.

Lemma returns_ret {A} (a : A) s (Q : A → S → Prop) : Q a s → returns (mret a) s Q.
Proof. intros HQ. by exists a, s. Qed.

Lemma returns_bind {A B} (m : JS.M S A) (f : A → JS.M S B) s Q :
  returns m s (fun a s' => returns (f a) s' Q) → returns (m ≫= f) s Q.
Proof.
  intros (a & s' & Hm & b & s'' & Hf & HQ). exists b, s''. split; [|done].
  unfold mbind, M_bind, JS.bind. by rewrite Hm.
Qed.

Lemma returns_weaken {A} (m : JS.M S A) s (Q Q' : A → S → Prop) :
  returns m s Q → (∀ a s', Q a s' → Q' a s') → returns m s Q'.
Proof. intros (a & s' & Hm & HQ) Himp. exists a, s'. eauto. Qed.

Lemma returns_read s (Q : S → S → Prop) : Q s s → returns JS.read s Q.
Proof. intros HQ. by exists s, s. Qed.

Lemma returns_modify (f : S → S) s (Q : unit → S → Prop) :
  Q tt (f s) → returns (JS.modify f) s Q.
Proof. intros HQ. by exists tt, (f s). Qed.

(** A loop returns when its body keeps an invariant of the elements
    already visited. *)
Lemma returns_forOf {A} (I : list A → S → Prop) (xs : list A) (body : A → JS.M S unit) :
  ∀ pre s,
    I pre s →
    (∀ seen x rest s, pre ++ xs = seen ++ x :: rest → (length pre ≤ length seen)%nat →
       I seen s → returns (body x) s (fun _ s' => I (seen ++ [x]) s')) →
    returns (JS.forOf xs body) s (fun _ s' => I (pre ++ xs) s').
Proof.
  induction xs as [|x xs IH]; intros pre s HI Hbody; simpl.
  - apply returns_ret. by rewrite app_nil_r.
  - apply (returns_bind (body x)).
    eapply returns_weaken; [by apply (Hbody pre x xs)|].
    intros [] s' HI'. simpl in HI'.
    replace (pre ++ x :: xs) with ((pre ++ [x]) ++ xs) by by rewrite <- app_assoc.
    apply IH; [done|].
    intros seen y rest s'' Heq Hlen. apply (Hbody seen y rest).
    + by rewrite <- Heq, <- app_assoc.
    + rewrite length_app in Hlen. simpl in Hlen. lia.
Qed.

End Returns.

(** ** Conflict detection *)

Section Detection.
Import Territory.

Lemma conflictKey_comm a b : conflictKey a b = conflictKey b a.
Proof. unfold conflictKey. by rewrite N.min_comm, N.max_comm. Qed.

Lemma conflictKey_inj a b a' b' :
  conflictKey a b = conflictKey a' b' → (a = a' ∧ b = b') ∨ (a = b' ∧ b = a').
Proof.
  unfold conflictKey. intros [Hmin Hmax]%pair_key_inj. lia.
Qed.

Lemma registerConflict_present s g1 g2 i :
  JS.has (conflictKey g1 g2) (conflictCache s) = true →
  registerConflict g1 g2 i s = JS.Return tt s.
Proof.
  intros Hhas. unfold registerConflict, mbind, M_bind, JS.bind, JS.read.
  by rewrite Hhas.
Qed.

Lemma registerConflict_fresh s g1 g2 i w1 w2 :
  WarfareState s !! g1 = Some w1 →
  WarfareState s !! g2 = Some w2 →
  JS.has (conflictKey g1 g2) (conflictCache s) = false →
  ∃ s', registerConflict g1 g2 i s = JS.Return tt s'
        ∧ time s' = time s
        ∧ TerritoryControl s' = TerritoryControl s
        ∧ UndergroundEconomy s' = UndergroundEconomy s
        ∧ territoryGrid s' = territoryGrid s
        ∧ (∀ g, is_Some (WarfareState s' !! g) ↔ is_Some (WarfareState s !! g))
        ∧ conflictCache s'
          = JS.set (conflictKey g1 g2)
              {| territory := i; startTime := time s; lastUpdate := time s |}
              (conflictCache s).
Proof.
  intros H1 H2 Hhas. eexists. split.
  - unfold registerConflict, mbind, M_bind, JS.bind, JS.read.
    rewrite Hhas. simpl. unfold getWarfareState. rewrite H1, H2. simpl. reflexivity.
  - simpl. repeat split; try done.
    + intros Hs. by rewrite !lookup_alter_is_Some in Hs.
    + intros Hs. by rewrite !lookup_alter_is_Some.
Qed.

Lemma claimCell_eq s g i r :
  TerritoryControl s !! g = Some r →
  claimCell g i s =
    if claims (territories r) i then
      match occupant s i with
      | Some other => registerConflict g other i s
      | None =>
          JS.Return tt
            (with_territoryGrid (<[Z.to_nat i := Some g]> (territoryGrid s)) s)
      end
    else JS.Return tt s.
Proof.
  intros Hr. unfold claimCell, mbind, M_bind, JS.bind, getTerritoryControl.
  rewrite Hr. destruct (claims (territories r) i); [|done].
  simpl. by destruct (occupant s i).
Qed.

Lemma firstOf_snoc s0 P g i j :
  firstOf s0 (P ++ [(g, i)]) j =
    match firstOf s0 P j with
    | Some f => Some f
    | None => if decide (i = j ∧ holds s0 g i = true) then Some g else None
    end.
Proof.
  unfold firstOf. rewrite filter_app.
  destruct (filter _ P) as [|p l] eqn:E; simpl; [|done].
  rewrite filter_cons, filter_nil. simpl.
  destruct (decide (i = j ∧ holds s0 g i = true)); done.
Qed.

Lemma firstOf_Some s0 P i f :
  firstOf s0 P i = Some f → (f, i) ∈ P ∧ holds s0 f i = true.
Proof.
  unfold firstOf. destruct (filter _ P) as [|[g j] l] eqn:E; simpl; [done|].
  intros [= ->].
  assert ((f, j) ∈ filter (fun p => p.2 = i ∧ holds s0 p.1 p.2 = true) P) as Hin
    by (rewrite E; left).
  apply list_elem_of_filter in Hin as [[Hj Hh] Hin]. simpl in *. by subst j.
Qed.

Lemma firstOf_None s0 P i g :
  firstOf s0 P i = None → (g, i) ∈ P → holds s0 g i = false.
Proof.
  unfold firstOf. destruct (filter _ P) as [|p l] eqn:E; simpl; [|done].
  intros _ Hin. destruct (holds s0 g i) eqn:Hh; [|done].
  assert ((g, i) ∈ filter (fun p => p.2 = i ∧ holds s0 p.1 p.2 = true) P) as Hf
    by (apply list_elem_of_filter; done).
  rewrite E in Hf. by apply elem_of_nil in Hf.
Qed.

Lemma firstOf_mono s0 P g i j f :
  firstOf s0 P j = Some f → firstOf s0 (P ++ [(g, i)]) j = Some f.
Proof. intros Hf. by rewrite firstOf_snoc, Hf. Qed.

Section Step.
Context (s0 : System) (G : list N).
Hypothesis HG : ∀ g, g ∈ G →
  g ≠ 0%N ∧ is_Some (TerritoryControl s0 !! g) ∧ is_Some (WarfareState s0 !! g).

Lemma occupant_firstOf P s i :
  DetectInv s0 G P s → 0 ≤ i < TERRITORY_GRID → occupant s i = firstOf s0 P i.
Proof.
  intros HI Hi. unfold occupant. rewrite (inv_grid _ _ _ _ HI) by done.
  destruct (firstOf s0 P i) as [f|] eqn:Hf; [|done].
  apply firstOf_Some in Hf as [Hin _].
  apply (inv_P _ _ _ _ HI) in Hin as [HfG _].
  destruct (HG f HfG) as (Hnz & _).
  destruct (N.eqb_spec f 0); done.
Qed.

(** Visiting one more claim keeps the invariant, whatever the visit does,
    as long as the grid follows the first claimant and the pending map only
    gains the entry of the visited pair. *)
Lemma DetectInv_extend P s s' g i :
  DetectInv s0 G P s →
  g ∈ G → 0 ≤ i < TERRITORY_GRID → (g, i) ∉ P →
  (∀ j, 0 ≤ j < i → (g, j) ∈ P) →
  time s' = time s →
  TerritoryControl s' = TerritoryControl s →
  UndergroundEconomy s' = UndergroundEconomy s →
  (∀ e, is_Some (WarfareState s' !! e) ↔ is_Some (WarfareState s !! e)) →
  length (territoryGrid s') = length (territoryGrid s) →
  (∀ j, 0 ≤ j < TERRITORY_GRID →
     territoryGrid s' !! Z.to_nat j = Some (firstOf s0 (P ++ [(g, i)]) j)) →
  NoDup (JS.keys (conflictCache s')) →
  (∀ k c, JS.get k (conflictCache s) = Some c → JS.get k (conflictCache s') = Some c) →
  (∀ k c, JS.get k (conflictCache s') = Some c → JS.get k (conflictCache s) = None →
     ∃ f, k = conflictKey g f ∧ territory c = i ∧ holds s0 g i = true
          ∧ firstOf s0 P i = Some f
          ∧ startTime c = time s0 ∧ lastUpdate c = time s0) →
  (∀ f, holds s0 g i = true → firstOf s0 P i = Some f →
     is_Some (JS.get (conflictKey g f) (conflictCache s'))) →
  DetectInv s0 G (P ++ [(g, i)]) s'.
Proof.
  intros HI HgG Hi Hfresh Hearlier Ht HTC HUE HWS Hlen Hgrid Hnd Hmono Hnew Hreg.
  constructor.
  - by rewrite Ht, (inv_time _ _ _ _ HI).
  - by rewrite HTC, (inv_TC _ _ _ _ HI).
  - by rewrite HUE, (inv_UE _ _ _ _ HI).
  - intros e. by rewrite HWS, (inv_WS _ _ _ _ HI).
  - intros g' j [Hin|Hin%list_elem_of_singleton]%elem_of_app.
    + by apply (inv_P _ _ _ _ HI).
    + by injection Hin as -> ->.
  - intros g' i' j [Hin|Hin%list_elem_of_singleton]%elem_of_app Hj;
      apply elem_of_app; left.
    + by apply (inv_closed _ _ _ _ HI g' i').
    + injection Hin as -> ->. by apply Hearlier.
  - by rewrite Hlen, (inv_grid_len _ _ _ _ HI).
  - done.
  - done.
  - intros k c Hk. by apply Hmono, (inv_old _ _ _ _ HI).
  - intros k c Hk Hk0. destruct (JS.get k (conflictCache s)) as [c0|] eqn:Hks.
    + pose proof (Hmono _ _ Hks) as Hk'. rewrite Hk in Hk'. injection Hk' as ->.
      destruct (inv_new _ _ _ _ HI _ _ Hks Hk0)
        as (g' & f & -> & Hin & Hh & Hf & Hne & Hst & Hlu & Hmin).
      exists g', f. split; [done|]. split; [apply elem_of_app; by left|].
      split; [done|]. split; [by apply firstOf_mono|].
      split; [done|]. split; [done|]. split; [done|].
      intros j Hj Hhj. rewrite firstOf_snoc.
      destruct (firstOf s0 P j) as [x|] eqn:Hx.
      * intros [= ->]. by apply (Hmin j).
      * pose proof (inv_closed _ _ _ _ HI _ _ j Hin Hj) as Hinj.
        rewrite (firstOf_None _ _ _ _ Hx Hinj) in Hhj. done.
    + destruct (Hnew _ _ Hk Hks) as (f & -> & Hterr & Hh & Hf & Hst & Hlu).
      exists g, f. rewrite Hterr.
      split; [done|].
      split; [apply elem_of_app; right; by apply list_elem_of_singleton|].
      split; [done|]. split; [by apply firstOf_mono|].
      split; [intros ->; apply firstOf_Some in Hf as [Hin _]; done|].
      split; [done|]. split; [done|].
      intros j Hj Hhj. rewrite firstOf_snoc.
      destruct (firstOf s0 P j) as [x|] eqn:Hx.
      * intros [= ->].
        assert (f ≠ g) as Hne
          by (intros ->; apply firstOf_Some in Hf as [Hin _]; done).
        destruct (inv_reg _ _ _ _ HI g j f (Hearlier j Hj) Hhj Hx Hne) as [c' Hc'].
        congruence.
      * rewrite decide_False by (intros [? _]; lia). done.
  - intros g' j f [Hin|Hin%list_elem_of_singleton]%elem_of_app Hh Hf Hne.
    + destruct (firstOf s0 P j) as [f0|] eqn:Hf0.
      * rewrite (firstOf_mono _ _ _ _ _ _ Hf0) in Hf. injection Hf as ->.
        destruct (inv_reg _ _ _ _ HI _ _ _ Hin Hh Hf0 Hne) as [c Hc].
        exists c. by apply Hmono.
      * rewrite (firstOf_None _ _ _ _ Hf0 Hin) in Hh. done.
    + injection Hin as -> ->. rewrite firstOf_snoc in Hf.
      destruct (firstOf s0 P i) as [f0|] eqn:Hf0.
      * injection Hf as ->. by apply Hreg.
      * destruct (decide _); [|done]. by injection Hf as ->.
Qed.

Lemma firstOf_snoc_same P g i :
  (holds s0 g i = false ∨ is_Some (firstOf s0 P i)) →
  ∀ j, firstOf s0 (P ++ [(g, i)]) j = firstOf s0 P j.
Proof.
  intros Hor j. rewrite firstOf_snoc.
  destruct (firstOf s0 P j) as [f|] eqn:Hf; [done|].
  destruct (decide _) as [[-> Hh]|]; [|done].
  destruct Hor as [Hh'|[f Hf']]; congruence.
Qed.

(** One visit of the inner loop keeps the invariant. *)
Lemma claimCell_inv P s g i :
  DetectInv s0 G P s →
  g ∈ G → 0 ≤ i < TERRITORY_GRID → (g, i) ∉ P →
  (∀ j, 0 ≤ j < i → (g, j) ∈ P) →
  returns (claimCell g i) s (fun _ s' => DetectInv s0 G (P ++ [(g, i)]) s').
Proof.
  intros HI HgG Hi Hfresh Hearlier.
  destruct (HG g HgG) as (Hnz & [r Hr] & Hw).
  assert (TerritoryControl s !! g = Some r) as Hr'
    by by rewrite (inv_TC _ _ _ _ HI).
  assert (holds s0 g i = claims (territories r) i) as Hholds
    by (unfold holds; by rewrite Hr).
  unfold returns. rewrite (claimCell_eq _ _ _ _ Hr'), <- Hholds.
  destruct (holds s0 g i) eqn:Hh.
  - rewrite (occupant_firstOf _ _ _ HI Hi).
    destruct (firstOf s0 P i) as [o|] eqn:Ho.
    + (* the cell is taken: a conflict with its occupant *)
      assert (is_Some (firstOf s0 P i)) as Hsome by (by rewrite Ho).
      destruct (JS.has (conflictKey g o) (conflictCache s)) eqn:Hhas.
      * rewrite registerConflict_present by done.
        exists tt, s. split; [done|].
        apply (DetectInv_extend P s s g i); try done.
        -- intros j Hj. rewrite firstOf_snoc_same by (by right).
           by apply (inv_grid _ _ _ _ HI).
        -- apply (inv_keys _ _ _ _ HI).
        -- intros k c Hk Hk'. congruence.
        -- intros f _ Hf. rewrite Ho in Hf. injection Hf as <-.
           by apply Map_has_get.
      * pose proof (firstOf_Some _ _ _ _ Ho) as [HoP _].
        apply (inv_P _ _ _ _ HI) in HoP as [HoG _].
        destruct (HG o HoG) as (_ & _ & Hwo).
        apply (inv_WS _ _ _ _ HI) in Hw as [w1 Hw1].
        apply (inv_WS _ _ _ _ HI) in Hwo as [w2 Hw2].
        destruct (registerConflict_fresh s g o i w1 w2 Hw1 Hw2 Hhas)
          as (s' & -> & Ht & HTC & HUE & Hgrid & HWS & Hcache).
        apply Map_has_false in Hhas.
        exists tt, s'. split; [done|].
        apply (DetectInv_extend P s s' g i); try done.
        -- by rewrite Hgrid.
        -- intros j Hj. rewrite Hgrid, firstOf_snoc_same by (by right).
           by apply (inv_grid _ _ _ _ HI).
        -- rewrite Hcache. apply Map_keys_set_NoDup, (inv_keys _ _ _ _ HI).
        -- intros k c Hk. rewrite Hcache, Map_get_set_ne; [done|].
           intros <-. congruence.
        -- intros k c Hk Hk'. rewrite Hcache in Hk.
           destruct (decide (conflictKey g o = k)) as [<-|Hne].
           ++ rewrite Map_get_set_eq in Hk. injection Hk as <-. simpl.
              exists o. by rewrite (inv_time _ _ _ _ HI).
           ++ rewrite Map_get_set_ne in Hk by done. congruence.
        -- intros f _ Hf. rewrite Ho in Hf. injection Hf as <-.
           rewrite Hcache, Map_get_set_eq. by eexists.
    + (* the cell is free: the entity becomes its occupant *)
      eexists tt, _. split; [done|].
      apply (DetectInv_extend P s _ g i); try done; simpl.
      * by rewrite length_insert.
      * intros j Hj. rewrite firstOf_snoc.
        destruct (decide (i = j)) as [<-|Hne].
        -- rewrite Ho. rewrite decide_True by done.
           apply list_lookup_insert_eq.
           rewrite (inv_grid_len _ _ _ _ HI). unfold TERRITORY_GRID in *. lia.
        -- rewrite list_lookup_insert_ne by lia.
           rewrite (inv_grid _ _ _ _ HI) by done.
           destruct (firstOf s0 P j); [done|].
           by rewrite decide_False by (intros [? _]; done).
      * apply (inv_keys _ _ _ _ HI).
      * intros k c Hk Hk'. congruence.
      * intros f _ Hf. congruence.
  - exists tt, s. split; [done|].
    apply (DetectInv_extend P s s g i); try done.
    + intros j Hj. rewrite firstOf_snoc_same by (by left).
      by apply (inv_grid _ _ _ _ HI).
    + apply (inv_keys _ _ _ _ HI).
    + intros k c Hk Hk'. congruence.
    + intros f Hh'. congruence.
Qed.

End Step.

Lemma gangsters_elem s g :
  g ∈ gangsters s ↔
  is_Some (TerritoryControl s !! g) ∧ is_Some (WarfareState s !! g)
  ∧ g ∈ UndergroundEconomy s.
Proof.
  unfold gangsters. rewrite merge_sort_Permutation, elem_of_elements.
  rewrite !elem_of_intersection, !elem_of_dom. tauto.
Qed.

Lemma gangsters_NoDup s : NoDup (gangsters s).
Proof.
  unfold gangsters. rewrite merge_sort_Permutation. apply NoDup_elements.
Qed.

Lemma visits_snoc G g :
  visits (G ++ [g]) = visits G ++ ((fun i => (g, i)) <$> seqZ 0 TERRITORY_GRID).
Proof. unfold visits. rewrite bind_app. f_equal. Qed.

Lemma elem_of_visits G g i : (g, i) ∈ visits G → g ∈ G.
Proof.
  unfold visits. intros (g' & Hin & HG)%list_elem_of_bind.
  apply list_elem_of_fmap in Hin as (j & [= -> ->] & _). done.
Qed.

Lemma DetectInv_init s :
  NoDup (JS.keys (conflictCache s)) →
  DetectInv (cleared s) (gangsters s) [] (cleared s).
Proof.
  intros Hnd. constructor; try done.
  - intros g i Hin. by apply elem_of_nil in Hin.
  - intros g i j Hin. by apply elem_of_nil in Hin.
  - intros i Hi. apply lookup_replicate_2. unfold TERRITORY_GRID in *. lia.
  - intros k c Hk Hk'. congruence.
Qed.

(** In an ascending range, what comes before an element is what is below
    it. *)
Lemma seqZ_before n cells i rest j :
  seqZ 0 n = cells ++ i :: rest → 0 ≤ j < i → j ∈ cells.
Proof.
  intros Heq Hj.
  assert (i = Z.of_nat (length cells)) as Hi.
  { assert (seqZ 0 n !! length cells = Some i) as Hl
      by (rewrite Heq; apply list_lookup_middle; done).
    apply lookup_seqZ in Hl. lia. }
  assert (seqZ 0 n !! Z.to_nat j = Some j) as Hl.
  { apply lookup_seqZ. split; [lia|].
    assert (length (seqZ 0 n) = (length cells + S (length rest))%nat) as Hlen
      by (rewrite Heq, length_app; done).
    rewrite length_seqZ in Hlen. lia. }
  rewrite Heq, lookup_app_l in Hl by lia.
  apply list_elem_of_lookup. by eexists.
Qed.

(** Detection returns, and its invariant holds of all the visited claims. *)
Lemma updateTerritories_inv s :
  0%N ∉ gangsters s →
  NoDup (JS.keys (conflictCache s)) →
  returns updateTerritories s (fun _ s' =>
    DetectInv (cleared s) (gangsters s) (visits (gangsters s)) s').
Proof.
  intros Hnz Hnd.
  assert (∀ g, g ∈ gangsters s →
            g ≠ 0%N ∧ is_Some (TerritoryControl (cleared s) !! g)
            ∧ is_Some (WarfareState (cleared s) !! g)) as HG.
  { intros g Hg. split; [by intros ->|].
    apply gangsters_elem in Hg. simpl. tauto. }
  unfold updateTerritories.
  apply returns_bind, returns_modify. fold (cleared s).
  apply returns_bind, returns_read.
  change (gangsters (cleared s)) with (gangsters s).
  pose proof (gangsters_NoDup s) as HndG.
  apply (returns_forOf
           (fun seen s' => DetectInv (cleared s) (gangsters s) (visits seen) s')
           (gangsters s) _ []).
  { by apply DetectInv_init. }
  simpl. intros seen g rest s' Heq _ HI.
  rewrite Heq in HndG. apply NoDup_app in HndG as (_ & Hseen & Hrest).
  assert (g ∈ gangsters s) as HgG.
  { rewrite Heq. apply elem_of_app. right. by left. }
  assert (g ∉ seen) as Hg by (intros Hin; apply (Hseen g Hin); by left).
  destruct (HG g HgG) as (_ & [r Hr] & _).
  apply returns_bind. exists r, s'. split.
  { unfold getTerritoryControl. by rewrite (inv_TC _ _ _ _ HI), Hr. }
  rewrite visits_snoc.
  pose proof (NoDup_seqZ 0 TERRITORY_GRID) as Hslots.
  eapply returns_weaken.
  - apply (returns_forOf
             (fun cells s'' =>
                DetectInv (cleared s) (gangsters s)
                  (visits seen ++ ((fun i => (g, i)) <$> cells)) s'')
             (seqZ 0 TERRITORY_GRID) (claimCell g) []).
    + simpl. by rewrite app_nil_r.
    + simpl. intros cells i rest' s'' Heq' _ HI'.
      rewrite fmap_app, app_assoc. simpl.
      pose proof Hslots as Hslots'.
      rewrite Heq' in Hslots. apply NoDup_app in Hslots as (_ & Hcells & _).
      apply (claimCell_inv _ _ HG); try done.
      * assert (i ∈ seqZ 0 TERRITORY_GRID) as Hi
          by (rewrite Heq'; apply elem_of_app; right; by left).
        apply elem_of_seqZ in Hi. lia.
      * intros [Hin|Hin]%elem_of_app.
        -- by apply elem_of_visits in Hin.
        -- apply list_elem_of_fmap in Hin as (j & [= ->] & Hin).
           apply (Hcells _ Hin). by left.
      * intros j Hj. apply elem_of_app. right.
        apply list_elem_of_fmap. exists j. split; [done|].
        by apply (seqZ_before _ _ _ _ _ Heq').
  - simpl. by intros [] s''.
Qed.

Lemma filter_row s g i (l : list Z) :
  NoDup l →
  filter (fun p => p.2 = i ∧ holds s p.1 p.2 = true) ((fun j => (g, j)) <$> l)
  = if decide (i ∈ l ∧ holds s g i = true) then [(g, i)] else [].
Proof.
  induction l as [|a l IH]; intros Hnd.
  - rewrite decide_False; [done|]. intros [Hin _]. by apply elem_of_nil in Hin.
  - apply NoDup_cons in Hnd as [Ha Hnd]. rewrite fmap_cons, filter_cons. simpl.
    rewrite (IH Hnd).
    destruct (decide (a = i ∧ holds s g a = true)) as [[-> Hh]|Hn];
      destruct (decide (i ∈ l ∧ holds s g i = true)) as [[Hin Hh']|Hn'];
      destruct (decide (i ∈ _ :: l ∧ holds s g i = true)) as [[Hin'' Hh'']|Hn''];
      try done.
    + exfalso. apply Hn''. split; [by left | done].
    + exfalso. apply Hn''. split; [by right | done].
    + exfalso. apply elem_of_cons in Hin'' as [->|Hin'']; [by apply Hn | by apply Hn'].
Qed.

Lemma firstOf_visits s G i :
  0 ≤ i < TERRITORY_GRID →
  firstOf s (visits G) i = head (filter (fun g => holds s g i = true) G).
Proof.
  intros Hi. induction G as [|g G IH]; [done|].
  unfold firstOf, visits in *.
  rewrite bind_cons, filter_app, (filter_cons (fun g => holds s g i = true) g G).
  rewrite filter_row by apply NoDup_seqZ.
  destruct (decide (holds s g i = true)) as [Hh|Hh].
  - rewrite decide_True; [done|]. split; [|done]. apply elem_of_seqZ. lia.
  - rewrite decide_False by (intros [_ ?]; done). simpl. apply IH.
Qed.

Lemma firstClaimant_cleared s i : firstClaimant (cleared s) i = firstClaimant s i.
Proof. done. Qed.

Lemma filter_none {A} (P : A → Prop) `{∀ x, Decision (P x)} (l : list A) :
  (∀ x, x ∈ l → ¬ P x) → filter P l = [].
Proof.
  induction l as [|a l IH]; intros Hno; [done|].
  rewrite filter_cons, decide_False by (apply Hno; by left).
  apply IH. intros x Hx. apply Hno. by right.
Qed.

Lemma entries_of_key {V} (m : JS.Map V) k v :
  NoDup (JS.keys m) → JS.get k m = Some v → filter (fun kv => kv.1 = k) m = [(k, v)].
Proof.
  induction m as [|[k' v'] m IH]; [done|].
  intros Hnd Hget. simpl in Hnd, Hget. apply NoDup_cons in Hnd as [Hnotin Hnd].
  rewrite filter_cons. simpl.
  destruct (String.eqb k k') eqn:E.
  - apply String.eqb_eq in E. subst k'. injection Hget as ->.
    destruct (decide (k = k)); [|done]. f_equal.
    apply filter_none. intros [k' v'] Hin Heq. simpl in Heq. subst k'.
    apply Hnotin. apply list_elem_of_fmap. by exists (k, v').
  - apply String.eqb_neq in E.
    destruct (decide (k' = k)); [congruence|]. by apply IH.
Qed.

Lemma elem_of_visits_2 G g i : g ∈ G → 0 ≤ i < TERRITORY_GRID → (g, i) ∈ visits G.
Proof.
  intros Hg Hi. unfold visits. apply list_elem_of_bind. exists g. split; [|done].
  apply list_elem_of_fmap. exists i. split; [done|]. apply elem_of_seqZ. lia.
Qed.

(** C5.  Registration is idempotent: when the pair already has a pending
    conflict, registering a claim of the pair again (on any cell, mature or
    not) returns and leaves the state as it was; the pending map keeps its
    size and the pair's conflict keeps its [startTime] and [lastUpdate]. *)
Theorem registerConflict_idempotent s g1 g2 i c :
  pending s g1 g2 = Some c →
  ∃ s', registerConflict g1 g2 i s = JS.Return tt s'
        ∧ JS.size (conflictCache s') = JS.size (conflictCache s)
        ∧ pending s' g1 g2 = Some c
        ∧ s' = s.
Proof.
  intros Hp. exists s. repeat split; try done.
  apply registerConflict_present, Map_has_get. by exists c.
Qed.

Lemma registerConflict_idempotent_witness :
  ∃ s', registerConflict 2 1 3 Sample.atWar = JS.Return tt s'
        ∧ JS.size (conflictCache s') = JS.size (conflictCache Sample.atWar)
        ∧ pending s' 2 1
          = Some {| territory := 3; startTime := 7; lastUpdate := 7 |}
        ∧ s' = Sample.atWar.
Proof. apply registerConflict_idempotent. reflexivity. Defined.

(** The order of the two parties does not matter to registration. *)
Lemma registerConflict_sym s g1 g2 i c :
  pending s g1 g2 = Some c → registerConflict g2 g1 i s = JS.Return tt s.
Proof.
  intros Hp. apply registerConflict_present, Map_has_get.
  rewrite conflictKey_comm. by exists c.
Qed.

(** The first element with a property comes before any other element with
    it. *)
Lemma head_filter_before {A} (P : A → Prop) `{∀ x, Decision (P x)} (l : list A) f x :
  head (filter P l) = Some f → x ∈ l → P x → x ≠ f →
  ∃ n m, l !! n = Some f ∧ l !! m = Some x ∧ (n < m)%nat.
Proof.
  induction l as [|a l IH]; intros Hhead Hx HP Hne.
  - by apply elem_of_nil in Hx.
  - rewrite filter_cons in Hhead. destruct (decide (P a)) as [Ha|Ha].
    + injection Hhead as ->.
      apply elem_of_cons in Hx as [->|Hx]; [done|].
      apply list_elem_of_lookup in Hx as [m Hm].
      exists 0%nat, (S m). repeat split; [done|lia].
    + apply elem_of_cons in Hx as [->|Hx]; [done|].
      destruct (IH Hhead Hx HP Hne) as (n & m & Hn & Hm & Hlt).
      exists (S n), (S m). repeat split; [done|done|lia].
Qed.

(** Two entities cannot each be the first claimant of a cell the other
    holds. *)
Lemma first_claimants_ordered s i t g f :
  firstClaimant s i = Some f → holds s g i = true → g ∈ gangsters s →
  firstClaimant s t = Some g → holds s f t = true → g ≠ f → False.
Proof.
  intros Hfi Hgi Hg Hgt Hft Hne. unfold firstClaimant in *.
  destruct (head_filter_before _ _ _ _ Hfi Hg Hgi Hne) as (n & m & Hn & Hm & Hlt).
  assert (f ∈ gangsters s) as Hf by (apply list_elem_of_lookup; by exists n).
  destruct (head_filter_before _ _ _ _ Hgt Hf Hft (not_eq_sym Hne))
    as (n' & m' & Hn' & Hm' & Hlt').
  pose proof (gangsters_NoDup s) as Hnd.
  pose proof (NoDup_lookup _ _ _ _ Hnd Hn Hm').
  pose proof (NoDup_lookup _ _ _ _ Hnd Hm Hn'). lia.
Qed.

(** C4, as amended.  With nonzero entity ids, detection returns, and for
    every entity [g] that claims a cell whose first claimant is another
    entity [f], the pending map then holds exactly one entry for the pair
    (the key is the pair alone).  An entry made in this tick records the
    lowest cell on which [g] met [f] as first claimant, stamped with the
    current time, whatever other cells the two collide on; an entry that
    was there before is left as it was. *)
Theorem detection_one_conflict_per_pair s :
  0%N ∉ gangsters s →
  NoDup (JS.keys (conflictCache s)) →
  ∃ s', updateTerritories s = JS.Return tt s' ∧
    ∀ i g f,
      0 ≤ i < TERRITORY_GRID → g ∈ gangsters s → holds s g i = true →
      firstClaimant s i = Some f → g ≠ f →
      ∃ c, entriesOf s' g f = [(conflictKey g f, c)]
           ∧ (pending s g f = None →
              0 ≤ territory c ≤ i
              ∧ holds s g (territory c) = true
              ∧ firstClaimant s (territory c) = Some f
              ∧ (∀ j, 0 ≤ j < territory c → holds s g j = true →
                      firstClaimant s j ≠ Some f)
              ∧ startTime c = time s ∧ lastUpdate c = time s)
           ∧ (∀ c0, pending s g f = Some c0 → c = c0).
Proof.
  intros Hnz Hnd.
  destruct (updateTerritories_inv s Hnz Hnd) as ([] & s' & Hrun & HI).
  exists s'. split; [done|].
  intros i g f Hi Hg Hh Hf Hne.
  pose proof Hf as Hf0.
  rewrite <- firstClaimant_cleared in Hf. unfold firstClaimant in Hf.
  rewrite <- (firstOf_visits _ _ _ Hi) in Hf.
  destruct (inv_reg _ _ _ _ HI g i f) as [c Hc]; try done.
  { by apply elem_of_visits_2. }
  exists c. split; [|split].
  - unfold entriesOf. apply entries_of_key; [|done]. apply (inv_keys _ _ _ _ HI).
  - intros Hp.
    destruct (inv_new _ _ _ _ HI _ _ Hc Hp)
      as (g' & f' & Hkey & Hin & Hh' & Hf' & Hne' & Hst & Hlu & Hmin).
    apply (inv_P _ _ _ _ HI) in Hin as [_ Hrange].
    pose proof (firstOf_Some _ _ _ _ Hf') as [_ Hhf'].
    rewrite (firstOf_visits _ _ _ Hrange) in Hf'.
    apply conflictKey_inj in Hkey as [[-> ->]|[-> ->]].
    + assert (∀ j, 0 ≤ j < territory c → holds s g' j = true →
                   firstClaimant s j ≠ Some f') as Hmin'.
      { intros j Hj Hhj. specialize (Hmin j Hj Hhj).
        rewrite firstOf_visits in Hmin by lia. done. }
      repeat split; try done; try lia.
      destruct (Z.le_gt_cases (territory c) i) as [Hle|Hgt]; [done|].
      exfalso. apply (Hmin' i); [lia | done | done].
    + exfalso.
      by apply (first_claimants_ordered s i (territory c) f' g').
  - intros c0 Hp. pose proof (inv_old _ _ _ _ HI _ _ Hp) as Hc0.
    unfold pending in *. simpl in Hc0. congruence.
Qed.

Lemma detection_one_conflict_per_pair_witness :
  ∃ s', updateTerritories Sample.twoCells = JS.Return tt s' ∧
    ∀ i g f,
      0 ≤ i < TERRITORY_GRID → g ∈ gangsters Sample.twoCells →
      holds Sample.twoCells g i = true →
      firstClaimant Sample.twoCells i = Some f → g ≠ f →
      ∃ c, entriesOf s' g f = [(conflictKey g f, c)]
           ∧ (pending Sample.twoCells g f = None →
              0 ≤ territory c ≤ i
              ∧ holds Sample.twoCells g (territory c) = true
              ∧ firstClaimant Sample.twoCells (territory c) = Some f
              ∧ (∀ j, 0 ≤ j < territory c → holds Sample.twoCells g j = true →
                      firstClaimant Sample.twoCells j ≠ Some f)
              ∧ startTime c = time Sample.twoCells
              ∧ lastUpdate c = time Sample.twoCells)
           ∧ (∀ c0, pending Sample.twoCells g f = Some c0 → c = c0).
Proof.
  apply detection_one_conflict_per_pair.
  - apply (bool_decide_unpack _). vm_compute. exact I.
  - simpl. apply NoDup_nil_2.
Defined.

(** C4, as stated, fails: entities 1 and 2 both hold cells 3 and 5 in the
    same tick, and detection leaves a single pending conflict for the pair,
    recorded for cell 3; there is none for cell 5. *)
Lemma detection_two_cells_one_conflict :
  holds Sample.twoCells 1 3 = true ∧ holds Sample.twoCells 2 3 = true
  ∧ holds Sample.twoCells 1 5 = true ∧ holds Sample.twoCells 2 5 = true
  ∧ conflictCache <$> JS.stateOf (updateTerritories Sample.twoCells)
    = Some [(conflictKey 1 2, {| territory := 3; startTime := 7; lastUpdate := 7 |})].
Proof. repeat split; vm_compute; reflexivity. Qed.

(** With nonzero entity ids, detection records the first claimant of each
    cell as its occupant, and every conflict it registers is, for the cell
    it records, between the first claimant of that cell and a later one. *)
Lemma detection_first_claimant s :
  0%N ∉ gangsters s →
  NoDup (JS.keys (conflictCache s)) →
  ∃ s', updateTerritories s = JS.Return tt s'
    ∧ (∀ i, 0 ≤ i < TERRITORY_GRID →
         territoryGrid s' !! Z.to_nat i = Some (firstClaimant s i))
    ∧ (∀ k c,
         JS.get k (conflictCache s') = Some c → JS.get k (conflictCache s) = None →
         ∃ g f, k = conflictKey g f ∧ firstClaimant s (territory c) = Some f
                ∧ g ∈ gangsters s ∧ holds s g (territory c) = true ∧ g ≠ f).
Proof.
  intros Hnz Hnd.
  destruct (updateTerritories_inv s Hnz Hnd) as ([] & s' & Hrun & HI).
  exists s'. split; [done|]. split.
  - intros i Hi. rewrite (inv_grid _ _ _ _ HI) by done.
    by rewrite (firstOf_visits _ _ _ Hi).
  - intros k c Hk Hk0.
    destruct (inv_new _ _ _ _ HI _ _ Hk Hk0)
      as (g & f & Hkey & Hin & Hh & Hf & Hne & _).
    apply (inv_P _ _ _ _ HI) in Hin as [HgG Hrange].
    rewrite (firstOf_visits _ _ _ Hrange) in Hf.
    exists g, f. repeat split; done.
Qed.

(** C10 at entity 0.  Entities 0, 1 and 2 all hold cell 3.  Entity 0 is
    processed first, yet entity 1 ends up as the recorded occupant, the
    conflict registered is between the two later claimants 1 and 2, and
    entity 0 is party to none. *)
Theorem detection_entity_zero_displaced :
  gangsters Sample.threeOnCell3 = [0; 1; 2]%N
  ∧ firstClaimant Sample.threeOnCell3 3 = Some 0%N
  ∧ (fun s => territoryGrid s !! 3%nat)
      <$> JS.stateOf (updateTerritories Sample.threeOnCell3)
    = Some (Some (Some 1%N))
  ∧ conflictCache <$> JS.stateOf (updateTerritories Sample.threeOnCell3)
    = Some [(conflictKey 1 2, {| territory := 3; startTime := 7; lastUpdate := 7 |})].
Proof. repeat split; vm_compute; reflexivity. Qed.

End Detection.

(** ** War strength *)

Section Strength.
Import Territory.
Context `{Hooks}.

Lemma filter_ext_in {A} (P Q : A → Prop) `{∀ x, Decision (P x)} `{∀ x, Decision (Q x)}
    (l : list A) :
  (∀ x, x ∈ l → P x ↔ Q x) → filter P l = filter Q l.
Proof.
  induction l as [|a l IH]; intros Hext; [done|].
  rewrite !filter_cons.
  assert (filter P l = filter Q l) as ->
    by (apply IH; intros x Hx; apply Hext; by right).
  destruct (decide (P a)) as [HP|HP], (decide (Q a)) as [HQ|HQ]; try done.
  - exfalso. apply HQ, Hext; [by left | done].
  - exfalso. apply HP, Hext; [by left | done].
Qed.

(** The loop adds the contributions of the set bits, lowest bit first. *)
Lemma allyLoop_returns (n : nat) : ∀ fuel gangster mask count strength s,
  0 ≤ mask < 2 ^ Z.of_nat n → (n ≤ 31)%nat → (n < fuel)%nat →
  allyLoop fuel gangster mask count strength s
  = JS.Return
      (fold_left (fun acc k => acc + JS.number (getAllyContribution s gangster k))%D
         (filter (fun k => Z.testbit mask (k - count) = true) (seqZ count (Z.of_nat n)))
         strength) s.
Proof.
  induction n as [|n IH]; intros fuel gangster mask count strength s Hmask Hn Hfuel.
  - destruct fuel as [|fuel]; [lia|]. simpl.
    assert (mask = 0) as -> by (simpl in Hmask; lia). done.
  - destruct fuel as [|fuel]; [lia|]. simpl allyLoop.
    unfold JS.truthy at 1. destruct (Z.eqb_spec mask 0) as [->|Hnz]; cbn [negb].
    + rewrite filter_none; [done|]. intros k _. by rewrite Z.bits_0.
    + unfold mbind, M_bind, JS.bind, JS.read.
      assert (2 ^ Z.of_nat (S n) ≤ 2 ^ 31) as Hle by (apply Z.pow_le_mono_r; lia).
      assert (JS.sar32 mask 1 = mask / 2) as ->.
      { unfold JS.sar32. rewrite ToInt32_small by lia.
        change (Z.land 1 31) with 1. by rewrite Z.shiftr_div_pow2. }
      assert (JS.truthy (JS.and32 mask 1) = Z.testbit mask 0) as ->.
      { unfold JS.and32, JS.truthy. rewrite !ToInt32_small by lia.
        change 1 with (2 ^ 0) at 1. rewrite land_pow2_testbit by lia.
        by destruct (Z.testbit mask 0). }
      cbv beta.
      rewrite IH; [|split; [apply Z.div_pos; lia|] | lia | lia].
      2:{ apply Z.div_lt_upper_bound; [lia|].
          rewrite Nat2Z.inj_succ, Z.pow_succ_r in Hmask; [apply Hmask | lia]. }
      f_equal. rewrite Nat2Z.inj_succ, (seqZ_cons count) by lia.
      rewrite filter_cons, Z.sub_diag, Z.pred_succ.
      rewrite (filter_ext_in
                 (fun k => Z.testbit mask (k - count) = true)
                 (fun k => Z.testbit (mask / 2) (k - Z.succ count) = true)).
      2:{ intros k Hk%elem_of_seqZ.
          change (mask / 2) with (mask / 2 ^ 1).
          rewrite Z.div_pow2_bits by lia.
          by replace (k - Z.succ count + 1) with (k - count) by lia. }
      replace (count + 1) with (Z.succ count) by lia.
      destruct (Z.testbit mask 0); simpl; rewrite ?decide_True by done; done.
Qed.

Lemma allyIndices_filter mask :
  filter (fun k => Z.testbit mask (k - 0) = true) (seqZ 0 (Z.of_nat 31))
  = allyIndices mask.
Proof.
  unfold allyIndices. apply filter_ext_in. intros k _. by rewrite Z.sub_0_r.
Qed.

(** C2, as amended.  For a party whose rows exist and whose ally mask has
    bit 31 clear, strength evaluation returns, without changing the state,
    the base capability plus the contributions of the allies in the mask,
    multiplied by one plus a sixteenth of the sum of the sixteen stability
    entries, multiplied by one plus the reputation times 0.2, every
    operation being that of binary64 arithmetic, in this order. *)
Theorem calculateWarStrength_formula fuel s g w t :
  WarfareState s !! g = Some w →
  TerritoryControl s !! g = Some t →
  0 ≤ allies w < 2 ^ 31 →
  (32 ≤ fuel)%nat →
  calculateWarStrength fuel g s
  = JS.Return
      (withAllies s g (JS.float32 (warStrength w)) (allies w)
       * (JS.number 1 + controlBonus t)
       * (JS.number 1 + JS.float32 (reputation w) * JS.number (2 # 10)))%D s.
Proof.
  intros Hw Ht Hmask Hfuel.
  unfold calculateWarStrength, mbind, M_bind, JS.bind.
  unfold getWarfareState, getTerritoryControl. rewrite Hw, Ht.
  rewrite (allyLoop_returns 31) by (try done; lia).
  by rewrite allyIndices_filter.
Qed.

(** A mask that went negative under the signed shift stays negative. *)
Lemma allyLoop_negative fuel : ∀ gangster mask count strength s,
  - 2 ^ 31 ≤ mask < 0 →
  allyLoop fuel gangster mask count strength s = JS.OutOfFuel.
Proof.
  induction fuel as [|fuel IH]; intros gangster mask count strength s Hmask; [done|].
  simpl allyLoop. unfold JS.truthy at 1.
  destruct (Z.eqb_spec mask 0) as [->|_]; [lia|]. cbn [negb].
  unfold mbind, M_bind, JS.bind, JS.read. cbv beta.
  apply IH. unfold JS.sar32. rewrite ToInt32_small by lia.
  change (Z.land 1 31) with 1. rewrite Z.shiftr_div_pow2 by lia.
  change (2 ^ 1) with 2. split.
  - apply Z.div_le_lower_bound; lia.
  - apply Z.div_lt_upper_bound; lia.
Qed.

(** With ally bit 31 set the [while] loop of [calculateWarStrength] never
    ends: no amount of fuel gives a result. *)
Lemma calculateWarStrength_bit31 fuel s g w t :
  WarfareState s !! g = Some w →
  TerritoryControl s !! g = Some t →
  2 ^ 31 ≤ allies w < 2 ^ 32 →
  calculateWarStrength fuel g s = JS.OutOfFuel.
Proof.
  intros Hw Ht Hmask.
  unfold calculateWarStrength, mbind, M_bind, JS.bind.
  unfold getWarfareState, getTerritoryControl. rewrite Hw, Ht.
  destruct fuel as [|fuel]; [done|]. simpl allyLoop. unfold JS.truthy at 1.
  destruct (Z.eqb_spec (allies w) 0) as [Hz|_]; [lia|]. cbn [negb].
  unfold mbind, M_bind, JS.bind, JS.read. cbv beta.
  rewrite allyLoop_negative; [done|].
  assert (JS.ToInt32 (allies w) = allies w - 2 ^ 32) as Hint.
  { unfold JS.ToInt32.
    replace (allies w + 2 ^ 31) with (allies w - 2 ^ 31 + 1 * 2 ^ 32) by lia.
    rewrite Z_mod_plus_full, Z.mod_small by lia. lia. }
  unfold JS.sar32. rewrite Hint.
  change (Z.land 1 31) with 1. rewrite Z.shiftr_div_pow2 by lia.
  change (2 ^ 1) with 2. split.
  - apply Z.div_le_lower_bound; lia.
  - apply Z.div_lt_upper_bound; lia.
Qed.

(** Strength evaluation reads the world and writes nothing. *)
Lemma calculateWarStrength_pure fuel s g v s' :
  calculateWarStrength fuel g s = JS.Return v s' → s' = s.
Proof.
  unfold calculateWarStrength, mbind, M_bind, JS.bind.
  unfold getWarfareState, getTerritoryControl.
  destruct (WarfareState s !! g) as [w|]; [|done].
  destruct (TerritoryControl s !! g) as [t|]; [|done].
  assert (∀ fuel mask count strength v s',
            allyLoop fuel g mask count strength s = JS.Return v s' → s' = s) as Hloop.
  { clear. intros fuel. induction fuel as [|fuel IH]; intros mask count strength v s';
      [done|]. simpl allyLoop. destruct (JS.truthy mask).
    - unfold mbind, M_bind, JS.bind, JS.read. cbv beta. apply IH.
    - by intros [= _ ->]. }
  destruct (allyLoop fuel g (allies w) 0 (JS.float32 (warStrength w)) s) as [v0 s0| |] eqn:E;
    [|done|done].
  apply Hloop in E. subst s0. by intros [= _ ->].
Qed.

End Strength.

Section StrengthSamples.
Import Territory Sample SampleWar.

Lemma calculateWarStrength_formula_witness :
  calculateWarStrength 32 1 allied
  = JS.Return
      (withAllies allied 1 (JS.float32 2) 1
       * (JS.number 1 + controlBonus (turf 1))
       * (JS.number 1 + JS.float32 0 * JS.number (2 # 10)))%D
      allied.
Proof.
  apply (calculateWarStrength_formula 32 allied 1 (force 2 1) (turf 1)).
  - reflexivity.
  - reflexivity.
  - simpl. lia.
  - lia.
Defined.

(** C2, as stated, fails: entity 1 has base strength 2 and one ally that
    contributes 1; its stabilities and its reputation are zero.  The code
    evaluates its strength to 2 + 1 = 3, the product of the claim is
    2 * (1 + 1) = 4, whatever the reputation factor. *)
Lemma strength_adds_allies_to_base :
  ∃ v w t,
    calculateWarStrength 32 1 allied = JS.Return (JS.number v) allied
    ∧ WarfareState allied !! 1%N = Some w
    ∧ TerritoryControl allied !! 1%N = Some t
    ∧ (v == 3)%Q
    ∧ ∀ k, (specifiedStrength allied 1 w t k == 4)%Q
           ∧ ¬ (v == specifiedStrength allied 1 w t k)%Q.
Proof.
  exists 3%Q, (force 2 1), (turf 1). split; [|split; [|split; [|split]]].
  - vm_compute. reflexivity.
  - reflexivity.
  - reflexivity.
  - reflexivity.
  - intros k.
    assert (specifiedStrength allied 1 (force 2 1) (turf 1) k == 4)%Q as Hspec.
    { unfold specifiedStrength.
      assert (allySum allied 1 (allies (force 2 1)) == 1)%Q as ->
        by (vm_compute; reflexivity).
      assert (average (heldStabilities (turf 1)) == 0)%Q as ->
        by (vm_compute; reflexivity).
      simpl. ring. }
    split; [done|]. rewrite Hspec. vm_compute. discriminate.
Qed.

(** Ally bit 31: strength evaluation does not return. *)
Example strength_diverges_on_bit31 fuel :
  calculateWarStrength fuel 1 ally31 = JS.OutOfFuel.
Proof.
  apply (calculateWarStrength_bit31 fuel ally31 1 (force 2 (2 ^ 31)) (turf 1)).
  - reflexivity.
  - reflexivity.
  - simpl. lia.
Qed.

End StrengthSamples.

(** ** Conflict resolution *)

Section ResolutionFacts.
Import Territory.
Context `{Hooks}.

Lemma splitKey_conflictKey a b :
  splitKey (conflictKey a b) = (Some (N.min a b), Some (N.max a b)).
Proof. unfold splitKey, conflictKey. by rewrite split_pair_key. Qed.

(** The call site names a method the class does not define. *)
Lemma callMethod_undefined gang1 gang2 territoryId winner s :
  callMethod "resolveTerritorialDispute" gang1 gang2 territoryId winner s
  = JS.Throw (JS.TypeError "resolveTerritorialDispute") s.
Proof. reflexivity. Qed.

(** A mature conflict between two parties whose strengths evaluate: the
    loop body reduces to the decision. *)
Lemma resolveConflict_mature fuel key s conflict g1 g2 st1 st2 :
  JS.get key (conflictCache s) = Some conflict →
  100 < time s - lastUpdate conflict →
  splitKey key = (Some g1, Some g2) →
  calculateWarStrength fuel g1 s = JS.Return st1 s →
  calculateWarStrength fuel g2 s = JS.Return st2 s →
  resolveConflict fuel key s =
    if JS.Double.gtb (JS.Double.abs (st1 - st2)%D) MIN_STRENGTH then
      JS.Throw (JS.TypeError "resolveTerritorialDispute") s
    else
      (handleStalemate g1 g2 conflict;;
       JS.modify (fun s =>
         match JS.get key (conflictCache s) with
         | Some c =>
             with_conflictCache
               (JS.set key (with_lastUpdate (time s) c) (conflictCache s)) s
         | None => s
         end)) s.
Proof.
  intros Hget Hmature Hsplit H1 H2.
  unfold resolveConflict, mbind, M_bind, JS.bind, JS.read.
  rewrite Hget. apply Z.gtb_lt in Hmature. rewrite Hmature, Hsplit.
  simpl entity. unfold mret, M_ret, JS.ret. rewrite H1, H2.
  destruct (JS.Double.gtb (JS.Double.abs (st1 - st2)%D) MIN_STRENGTH); [|done].
  by rewrite callMethod_undefined.
Qed.

(** In binary64 as elsewhere, a number that is at most [y] is not greater
    than [y]. *)
Lemma Double_leb_gtb x y : JS.Double.leb x y = true → JS.Double.gtb x y = false.
Proof.
  unfold JS.Double.leb, JS.Double.gtb, SpecFloat.SFleb, SpecFloat.SFltb.
  destruct x as [sx|sx| |sx mx ex], y as [sy|sy| |sy my ey]; cbn;
    try congruence;
    try (destruct sx; cbn; congruence);
    try (destruct sy; cbn; congruence);
    try (destruct sx, sy; cbn; congruence).
  destruct sx, sy; try congruence.
  - rewrite (Z.compare_antisym ex ey). destruct (ex ?= ey); cbn; try congruence.
    rewrite !Pos.compare_cont_spec. cbn.
    rewrite (Pos.compare_antisym mx my). destruct (mx ?= my)%positive; cbn; congruence.
  - rewrite (Z.compare_antisym ex ey). destruct (ex ?= ey); cbn; try congruence.
    rewrite !Pos.compare_cont_spec. cbn.
    rewrite (Pos.compare_antisym mx my). destruct (mx ?= my)%positive; cbn; congruence.
Qed.

(** C3.  A mature pending conflict whose two strengths, subtracted and
    compared as the resolver does in binary64, differ by the threshold or
    less (equality included) ends in a stalemate: the loop body returns,
    no entity's bitfield of held cells changes, the entry of the conflict
    stays in the pending map with its cell and its start time and with
    [lastUpdate] set to the current time, and the pending map keeps the
    same keys.  [handleStalemate] is a parameter, assumed to leave cells,
    clock and pending map alone; it is called once, for this conflict, and
    apart from the refreshed entry the state is as it left it. *)
Theorem stalemate_keeps_conflict fuel key s conflict g1 g2 st1 st2 :
  stalemateFrame →
  JS.get key (conflictCache s) = Some conflict →
  100 < time s - lastUpdate conflict →
  splitKey key = (Some g1, Some g2) →
  calculateWarStrength fuel g1 s = JS.Return st1 s →
  calculateWarStrength fuel g2 s = JS.Return st2 s →
  JS.Double.leb (JS.Double.abs (st1 - st2)%D) MIN_STRENGTH = true →
  ∃ s' refreshed,
    resolveConflict fuel key s = JS.Return tt s'
    ∧ (∀ e, territories <$> (TerritoryControl s' !! e)
            = territories <$> (TerritoryControl s !! e))
    ∧ JS.get key (conflictCache s') = Some refreshed
    ∧ lastUpdate refreshed = time s
    ∧ lastUpdate refreshed ≠ lastUpdate conflict
    ∧ territory refreshed = territory conflict
    ∧ startTime refreshed = startTime conflict
    ∧ JS.keys (conflictCache s') = JS.keys (conflictCache s)
    ∧ ∃ s1, handleStalemate g1 g2 conflict s = JS.Return tt s1
            ∧ WarfareState s' = WarfareState s1
            ∧ TerritoryControl s' = TerritoryControl s1
            ∧ UndergroundEconomy s' = UndergroundEconomy s1
            ∧ territoryGrid s' = territoryGrid s1
            ∧ time s' = time s1
            ∧ ∀ k, k ≠ key →
                   JS.get k (conflictCache s') = JS.get k (conflictCache s1).
Proof.
  intros Hframe Hget Hmature Hsplit H1 H2 Hle.
  rewrite (resolveConflict_mature _ _ _ _ _ _ _ _ Hget Hmature Hsplit H1 H2).
  rewrite (Double_leb_gtb _ _ Hle).
  destruct (Hframe g1 g2 conflict s) as (s1 & Hrun & Ht & Hcache & Hterr).
  unfold mbind, M_bind, JS.bind, JS.modify. rewrite Hrun, Hcache, Hget, Ht.
  eexists _, (with_lastUpdate (time s) conflict). split; [done|].
  cbn [conflictCache with_conflictCache TerritoryControl with_lastUpdate
         lastUpdate territory startTime].
  split; [done|]. split; [apply Map_get_set_eq|].
  split; [done|]. split; [lia|]. split; [done|]. split; [done|].
  split; [apply Map_keys_set_present; by eexists|].
  exists s1. split; [done|]. cbn. repeat split.
  intros k Hk. rewrite <- Hcache. by apply Map_get_set_ne.
Qed.

(** With a single pending conflict the loop is its body. *)
Lemma resolveConflicts_single fuel s key conflict :
  conflictCache s = [(key, conflict)] →
  resolveConflicts fuel s = resolveConflict fuel key s.
Proof.
  intros Hcache. unfold resolveConflicts, mbind, M_bind, JS.bind, JS.read.
  rewrite Hcache. simpl. unfold JS.bind, JS.ret.
  by destruct (resolveConflict fuel key s) as [[] s'| |].
Qed.

(** A mature conflict whose strengths differ by more than the threshold:
    the loop body throws at the call of [resolveTerritorialDispute], before
    any write. *)
Lemma decisive_conflict_throws fuel key s conflict g1 g2 st1 st2 :
  JS.get key (conflictCache s) = Some conflict →
  100 < time s - lastUpdate conflict →
  splitKey key = (Some g1, Some g2) →
  calculateWarStrength fuel g1 s = JS.Return st1 s →
  calculateWarStrength fuel g2 s = JS.Return st2 s →
  JS.Double.gtb (JS.Double.abs (st1 - st2)%D) MIN_STRENGTH = true →
  resolveConflict fuel key s
  = JS.Throw (JS.TypeError "resolveTerritorialDispute") s.
Proof.
  intros Hget Hmature Hsplit H1 H2 Hlt.
  rewrite (resolveConflict_mature _ _ _ _ _ _ _ _ Hget Hmature Hsplit H1 H2).
  by rewrite Hlt.
Qed.

(** C9, as amended.  When a party to a mature conflict has lost a row the
    resolver reads, the loop body throws MissingComponent at strength
    evaluation and leaves the state as it was: no cell, counter, reputation
    or conflict flag changes and no winner or stalemate is declared, but
    the pending conflict stays in the pending map. *)
Theorem absent_party_aborts fuel key s conflict g1 g2 :
  JS.get key (conflictCache s) = Some conflict →
  100 < time s - lastUpdate conflict →
  splitKey key = (Some g1, Some g2) →
  absent s g1 ∨ ((∃ st1, calculateWarStrength fuel g1 s = JS.Return st1 s) ∧ absent s g2) →
  resolveConflict fuel key s = JS.Throw JS.MissingComponent s.
Proof.
  intros Hget Hmature Hsplit Habs.
  assert (∀ g, absent s g → calculateWarStrength fuel g s = JS.Throw JS.MissingComponent s)
    as Hthrow.
  { intros g [Hw|Ht]; unfold calculateWarStrength, mbind, M_bind, JS.bind,
      getWarfareState, getTerritoryControl.
    - by rewrite Hw.
    - destruct (WarfareState s !! g); [|done]. by rewrite Ht. }
  unfold resolveConflict, mbind, M_bind, JS.bind, JS.read.
  rewrite Hget. apply Z.gtb_lt in Hmature. rewrite Hmature, Hsplit.
  simpl entity. unfold mret, M_ret, JS.ret.
  destruct Habs as [Ha|[[st1 H1] Ha]].
  - by rewrite (Hthrow _ Ha).
  - by rewrite H1, (Hthrow _ Ha).
Qed.

(** *** The method defined as [resolveTerrritorialDispute], called directly *)

Lemma ToUint32_testbit x j : 0 ≤ j < 32 → Z.testbit (JS.ToUint32 x) j = Z.testbit x j.
Proof. intros Hj. unfold JS.ToUint32. apply Z.mod_pow2_bits_low. lia. Qed.

Lemma pow2_small i : 0 ≤ i < 31 → 0 < 2 ^ i < 2 ^ 31.
Proof.
  intros Hi. split; [apply Z.pow_pos_nonneg; lia | apply Z.pow_lt_mono_r; lia].
Qed.

(** [t | (1 << i)], stored: bit [i] is set, the other bits are those of [t]. *)
Lemma set_bit_spec t i j :
  0 ≤ i < 31 → 0 ≤ j < 32 →
  Z.testbit (JS.ToUint32 (JS.or32 t (JS.shl32 1 i))) j
  = if Z.eqb i j then true else Z.testbit t j.
Proof.
  intros Hi Hj. pose proof (pow2_small i Hi).
  rewrite ToUint32_testbit by done. unfold JS.or32.
  rewrite shl32_one by done. rewrite (ToInt32_small (2 ^ i)) by lia.
  rewrite Z.lor_spec, ToInt32_testbit, Z.pow2_bits_eqb by lia.
  destruct (Z.eqb i j); [apply orb_true_r | apply orb_false_r].
Qed.

(** [t & ~(1 << i)], stored: bit [i] is clear, the other bits are those of [t]. *)
Lemma clear_bit_spec t i j :
  0 ≤ i < 31 → 0 ≤ j < 32 →
  Z.testbit (JS.ToUint32 (JS.and32 t (JS.not32 (JS.shl32 1 i)))) j
  = if Z.eqb i j then false else Z.testbit t j.
Proof.
  intros Hi Hj. pose proof (pow2_small i Hi).
  rewrite ToUint32_testbit by done. unfold JS.and32, JS.not32.
  rewrite shl32_one by done. rewrite (ToInt32_small (2 ^ i)) by lia.
  rewrite (ToInt32_small (Z.lnot (2 ^ i))) by (unfold Z.lnot; lia).
  rewrite Z.land_spec, ToInt32_testbit, Z.lnot_spec, Z.pow2_bits_eqb by lia.
  destruct (Z.eqb i j); [apply andb_false_r | apply andb_true_r].
Qed.

(** Called directly for two distinct parties with the first as winner, the
    method does what is asked of a decisive resolution: the loser's cell
    bit is cleared and the winner's set, the winner gains a victory and the
    loser a casualty (16-bit counters), the winner's reputation rises by
    0.1 capped at 1, the loser's is multiplied by 0.8, and both conflict
    flags for the cell are cleared. *)
Lemma resolveTerrritorialDispute_first_wins s g1 g2 i t1 t2 w1 w2 :
  g1 ≠ g2 →
  TerritoryControl s !! g1 = Some t1 → TerritoryControl s !! g2 = Some t2 →
  WarfareState s !! g1 = Some w1 → WarfareState s !! g2 = Some w2 →
  ∃ s', resolveTerrritorialDispute g1 g2 i g1 s = JS.Return tt s'
    ∧ TerritoryControl s' !! g1
      = Some (with_territories
                (JS.ToUint32 (JS.or32 (territories t1) (JS.shl32 1 i))) t1)
    ∧ TerritoryControl s' !! g2
      = Some (with_territories
                (JS.ToUint32 (JS.and32 (territories t2) (JS.not32 (JS.shl32 1 i)))) t2)
    ∧ WarfareState s' !! g1
      = Some {| activeConflicts :=
                  JS.ToUint32 (JS.and32 (activeConflicts w1) (JS.not32 (JS.shl32 1 i)));
                warStrength := warStrength w1; allies := allies w1;
                casualties := casualties w1;
                victories := JS.ToUint16 (victories w1 + 1);
                reputation := Qmin 1 (reputation w1 + (1 # 10)) |}
    ∧ WarfareState s' !! g2
      = Some {| activeConflicts :=
                  JS.ToUint32 (JS.and32 (activeConflicts w2) (JS.not32 (JS.shl32 1 i)));
                warStrength := warStrength w2; allies := allies w2;
                casualties := JS.ToUint16 (casualties w2 + 1);
                victories := victories w2;
                reputation := (reputation w2 * (8 # 10))%Q |}
    ∧ conflictCache s' = conflictCache s.
Proof.
  intros Hne Ht1 Ht2 Hw1 Hw2. eexists. split.
  - unfold resolveTerrritorialDispute, mbind, M_bind, JS.bind,
      getTerritoryControl, getWarfareState.
    rewrite Ht1, Ht2, Hw1, Hw2, N.eqb_refl.
    assert (N.eqb g1 g2 = false) as -> by by apply N.eqb_neq.
    simpl. reflexivity.
  - simpl. rewrite !lookup_alter.
    repeat (case_decide; try congruence).
    rewrite Ht1, Ht2, Hw1, Hw2. done.
Qed.

Lemma resolveTerrritorialDispute_second_wins s g1 g2 i t1 t2 w1 w2 :
  g1 ≠ g2 →
  TerritoryControl s !! g1 = Some t1 → TerritoryControl s !! g2 = Some t2 →
  WarfareState s !! g1 = Some w1 → WarfareState s !! g2 = Some w2 →
  ∃ s', resolveTerrritorialDispute g1 g2 i g2 s = JS.Return tt s'
    ∧ TerritoryControl s' !! g2
      = Some (with_territories
                (JS.ToUint32 (JS.or32 (territories t2) (JS.shl32 1 i))) t2)
    ∧ TerritoryControl s' !! g1
      = Some (with_territories
                (JS.ToUint32 (JS.and32 (territories t1) (JS.not32 (JS.shl32 1 i)))) t1)
    ∧ WarfareState s' !! g2
      = Some {| activeConflicts :=
                  JS.ToUint32 (JS.and32 (activeConflicts w2) (JS.not32 (JS.shl32 1 i)));
                warStrength := warStrength w2; allies := allies w2;
                casualties := casualties w2;
                victories := JS.ToUint16 (victories w2 + 1);
                reputation := Qmin 1 (reputation w2 + (1 # 10)) |}
    ∧ WarfareState s' !! g1
      = Some {| activeConflicts :=
                  JS.ToUint32 (JS.and32 (activeConflicts w1) (JS.not32 (JS.shl32 1 i)));
                warStrength := warStrength w1; allies := allies w1;
                casualties := JS.ToUint16 (casualties w1 + 1);
                victories := victories w1;
                reputation := (reputation w1 * (8 # 10))%Q |}
    ∧ conflictCache s' = conflictCache s.
Proof.
  intros Hne Ht1 Ht2 Hw1 Hw2. eexists. split.
  - unfold resolveTerrritorialDispute, mbind, M_bind, JS.bind,
      getTerritoryControl, getWarfareState.
    rewrite Ht1, Ht2, Hw1, Hw2, N.eqb_refl.
    assert (N.eqb g2 g1 = false) as -> by (apply N.eqb_neq; congruence).
    simpl. reflexivity.
  - simpl. rewrite !lookup_alter.
    repeat (case_decide; try congruence).
    rewrite Ht1, Ht2, Hw1, Hw2. done.
Qed.

End ResolutionFacts.

Section ResolutionSamples.
Import Territory Sample SampleWar.

Lemma stalemateCost_frame : stalemateFrame.
Proof.
  intros gang1 gang2 conflict s. eexists. split; [reflexivity|]. done.
Qed.

Lemma stalemate_keeps_conflict_witness :
  ∃ s' refreshed,
    resolveConflict 32 (conflictKey 1 2) boundary = JS.Return tt s'
    ∧ (∀ e, territories <$> (TerritoryControl s' !! e)
            = territories <$> (TerritoryControl boundary !! e))
    ∧ JS.get (conflictKey 1 2) (conflictCache s') = Some refreshed
    ∧ lastUpdate refreshed = 200
    ∧ lastUpdate refreshed ≠ 0
    ∧ territory refreshed = 3
    ∧ startTime refreshed = 0
    ∧ JS.keys (conflictCache s') = JS.keys (conflictCache boundary)
    ∧ ∃ s1, stalemateCost 1 2 {| territory := 3; startTime := 0; lastUpdate := 0 |}
              boundary = JS.Return tt s1
            ∧ WarfareState s' = WarfareState s1
            ∧ TerritoryControl s' = TerritoryControl s1
            ∧ UndergroundEconomy s' = UndergroundEconomy s1
            ∧ territoryGrid s' = territoryGrid s1
            ∧ time s' = time s1
            ∧ ∀ k, k ≠ conflictKey 1 2 →
                   JS.get k (conflictCache s') = JS.get k (conflictCache s1).
Proof.
  refine (stalemate_keeps_conflict 32 (conflictKey 1 2) boundary
            {| territory := 3; startTime := 0; lastUpdate := 0 |} 1 2
            (JS.number (3 # 10)) (JS.number 0)
            stalemateCost_frame eq_refl _ eq_refl _ _ _).
  - simpl. lia.
  - vm_compute. reflexivity.
  - vm_compute. reflexivity.
  - vm_compute. reflexivity.
Defined.

(** The boundary is inclusive.  The strengths of [boundary] are 0.3, the
    threshold itself, and 0; the whole resolver run ends in a stalemate
    that costs each party a casualty and refreshes [lastUpdate]. *)
Example stalemate_at_threshold :
  calculateWarStrength 32 1 boundary = JS.Return MIN_STRENGTH boundary
  ∧ calculateWarStrength 32 2 boundary = JS.Return (JS.number 0) boundary
  ∧ (fun s => (conflictCache s, casualties <$> (WarfareState s !! 1%N),
               casualties <$> (WarfareState s !! 2%N),
               territories <$> (TerritoryControl s !! 1%N),
               territories <$> (TerritoryControl s !! 2%N)))
      <$> JS.stateOf (resolveConflicts 32 boundary)
    = Some ([(conflictKey 1 2, {| territory := 3; startTime := 0; lastUpdate := 200 |})],
            Some 1, Some 1, Some 8, Some 8).
Proof. repeat split; vm_compute; reflexivity. Qed.

(** Equal strengths: a stalemate as well. *)
Example stalemate_at_equal_strengths :
  (fun s => (conflictCache s, territories <$> (TerritoryControl s !! 1%N),
             territories <$> (TerritoryControl s !! 2%N)))
    <$> JS.stateOf (resolveConflicts 32 level)
  = Some ([(conflictKey 1 2, {| territory := 3; startTime := 0; lastUpdate := 200 |})],
          Some 8, Some 8).
Proof. vm_compute. reflexivity. Qed.

(** Rounding decides next to the threshold.  In [hairline] the strengths
    are 1.25 * 1.2 and 1 * 1.2: as rationals 3/2 and 6/5, exactly 3/10
    apart.  In binary64 the first is 1.5 and the second the float next
    below 6/5, so that the difference is the float next above 0.3: the
    resolver takes the decisive branch and throws at the misspelt call. *)
Example rounding_decides_next_to_threshold :
  (∃ st1 st2 q1 q2,
     calculateWarStrength 32 1 hairline = JS.Return st1 hairline
     ∧ calculateWarStrength 32 2 hairline = JS.Return st2 hairline
     ∧ JS.Double.value st1 = Some q1 ∧ JS.Double.value st2 = Some q2
     ∧ (q1 == 3 # 2)%Q ∧ (q2 < 6 # 5)%Q ∧ (3 # 10 < q1 - q2)%Q
     ∧ JS.Double.gtb (JS.Double.abs (st1 - st2)%D) MIN_STRENGTH = true)
  ∧ resolveConflicts 32 hairline
    = JS.Throw (JS.TypeError "resolveTerritorialDispute") hairline.
Proof.
  split; [|vm_compute; reflexivity].
  eexists _, _, _, _. split; [vm_compute; reflexivity|].
  split; [vm_compute; reflexivity|].
  split; [reflexivity|]. split; [reflexivity|].
  repeat split; vm_compute; reflexivity.
Qed.

(** C1 at strengths 10 and 7.  The conflict over cell 3 is mature and the
    strengths differ by 3, more than the threshold; resolution throws at the
    call of [resolveTerritorialDispute], which the class does not define
    (the method is spelt [resolveTerrritorialDispute]), and the state is
    left as it was: the conflict is still pending, no cell is transferred
    and no counter, reputation or flag changes. *)
Theorem decisive_conflict_not_resolved :
  (calculateWarStrength 32 1 decisive = JS.Return (JS.number 10) decisive
   ∧ calculateWarStrength 32 2 decisive = JS.Return (JS.number 7) decisive)
  ∧ resolveConflicts 32 decisive
    = JS.Throw (JS.TypeError "resolveTerritorialDispute") decisive
  ∧ pending decisive 1 2 = Some {| territory := 3; startTime := 0; lastUpdate := 0 |}.
Proof.
  split; [|split].
  - split; vm_compute; reflexivity.
  - vm_compute. reflexivity.
  - reflexivity.
Qed.

(** C9, as stated, fails: entity 2 is gone, and the mature conflict of the
    pair is still in the pending map after the resolver ran (it threw). *)
Lemma absent_party_conflict_remains :
  absent departed 2
  ∧ resolveConflicts 32 departed = JS.Throw JS.MissingComponent departed
  ∧ JS.has (conflictKey 1 2) (conflictCache departed) = true.
Proof.
  split; [|split].
  - by left.
  - vm_compute. reflexivity.
  - reflexivity.
Qed.

Lemma absent_party_aborts_witness :
  resolveConflict 32 (conflictKey 1 2) departed
  = JS.Throw JS.MissingComponent departed.
Proof.
  eapply (absent_party_aborts 32 (conflictKey 1 2) departed _ 1 2).
  - reflexivity.
  - simpl. lia.
  - reflexivity.
  - right. split; [eexists; vm_compute; reflexivity | by left].
Defined.

End ResolutionSamples.

(** ** Sorting with a comparator *)

Section SortByKey.
Context {A : Type} (key : A → Q).

(** The comparator [(a, b) => key(b) - key(a)] *)
#[local] Abbreviation compare := (fun a b : A => (key b - key a)%Q).
#[local] Abbreviation descending := (fun a b : A => (key b <= key a)%Q).

Lemma insert_Permutation x l : JS.insert compare x l ≡ₚ x :: l.
Proof.
  induction l as [|y l IH]; simpl; [done|].
  destruct (JS.gtb (key y - key x) 0); [|done].
  rewrite IH. apply Permutation_swap.
Qed.

Lemma sort_Permutation l : JS.sort compare l ≡ₚ l.
Proof.
  induction l as [|x l IH]; simpl; [done|].
  by rewrite insert_Permutation, IH.
Qed.

Lemma gtb_spec x y : JS.gtb x y = true ↔ (y < x)%Q.
Proof.
  unfold JS.gtb. split.
  - intros Hb. apply Qnot_le_lt. intros Hle%Qle_bool_iff. by rewrite Hle in Hb.
  - intros Hlt. destruct (Qle_bool x y) eqn:E; [|done].
    apply Qle_bool_iff in E. exfalso. by apply (Qlt_not_le y x).
Qed.

Lemma insert_sorted x l :
  StronglySorted descending l → StronglySorted descending (JS.insert compare x l).
Proof.
  induction 1 as [|y l Hs IH Hall]; simpl.
  - repeat constructor.
  - destruct (JS.gtb (key y - key x) 0) eqn:E.
    + apply gtb_spec in E. constructor; [done|].
      rewrite insert_Permutation. constructor; [|done].
      simpl. lra.
    + assert (key y <= key x)%Q as Hle.
      { apply Qnot_lt_le. intros Hlt. 
        assert (JS.gtb (key y - key x) 0 = true) as E' by (apply gtb_spec; lra).
        congruence. }
      constructor; [by constructor|]. constructor; [done|].
      eapply Forall_impl; [exact Hall|]. simpl. intros z Hz. lra.
Qed.

Lemma sort_sorted l : StronglySorted descending (JS.sort compare l).
Proof.
  induction l as [|x l IH]; simpl; [constructor | by apply insert_sorted].
Qed.

(** Elements of equal key keep the order they had before the sort. *)
Lemma insert_stable v x l :
  filter (fun c => Qeq_bool (key c) v = true) (JS.insert compare x l)
  = filter (fun c => Qeq_bool (key c) v = true) (x :: l).
Proof.
  induction l as [|y l IH]; simpl; [done|].
  destruct (JS.gtb (key y - key x) 0) eqn:E; [|done].
  apply gtb_spec in E.
  rewrite (filter_cons _ y), IH, !filter_cons.
  destruct (decide (Qeq_bool (key y) v = true)) as [Hy|Hy];
    destruct (decide (Qeq_bool (key x) v = true)) as [Hx|Hx]; try done.
  apply Qeq_bool_iff in Hx, Hy. exfalso. lra.
Qed.

Lemma sort_stable v l :
  filter (fun c => Qeq_bool (key c) v = true) (JS.sort compare l)
  = filter (fun c => Qeq_bool (key c) v = true) l.
Proof.
  induction l as [|x l IH]; simpl; [done|].
  by rewrite insert_stable, !filter_cons, IH.
Qed.

End SortByKey.

(** ** Succession *)

Section Loops.
Context {S A B : Type}.

(** A loop whose body only computes: it returns the fold of its steps. *)
Lemma forOfAcc_pure (step : B → A → B) (body : B → A → JS.M S B) (s : S) :
  ∀ xs acc,
    (∀ acc x, x ∈ xs → body acc x s = JS.Return (step acc x) s) →
    JS.forOfAcc xs acc body s = JS.Return (fold_left step xs acc) s.
Proof.
  induction xs as [|x xs IH]; intros acc Hbody; simpl; [done|].
  unfold JS.bind. rewrite Hbody by (by left).
  apply IH. intros acc' y Hy. apply Hbody. by right.
Qed.

Lemma fold_left_push (keep : A → Prop) `{∀ x, Decision (keep x)} (f : A → B) :
  ∀ xs acc,
    fold_left (fun acc x => if decide (keep x) then acc ++ [f x] else acc) xs acc
    = acc ++ (f <$> filter keep xs).
Proof.
  induction xs as [|x xs IH]; intros acc; simpl.
  - by rewrite app_nil_r.
  - rewrite IH, filter_cons. destruct (decide (keep x)); [|done].
    by rewrite fmap_cons, <- app_assoc.
Qed.

End Loops.

Section SuccessionFacts.
Import Conspiracy.
Context `{Hooks}.

(** Candidate enumeration returns, without changing the state, the sorted
    enumeration. *)
Lemma findViableSuccessors_returns vacuum agents s power :
  PowerStructure s !! agent vacuum = Some power →
  (∀ x, x ∈ succession power → x ≠ 0%N → is_Some (PowerStructure s !! x)) →
  (∀ a, a ∈ agents → existsb (N.eqb a) (succession power) = false →
        is_Some (PowerStructure s !! a)) →
  findViableSuccessors vacuum agents s
  = JS.Return
      (JS.sort (fun a b => Candidate.support b - Candidate.support a)%Q
         (enumeration s vacuum power agents)) s.
Proof.
  intros Hp Hsucc Hagents.
  unfold findViableSuccessors, mbind, M_bind, JS.bind, getPowerStructure.
  rewrite Hp.
  rewrite (forOfAcc_pure
             (fun acc x =>
                if decide (x ≠ 0%N ∧ isViableSuccessor s x x vacuum = true)
                then acc ++ [candidate s agents x] else acc)).
  2:{ intros acc x Hx. destruct (N.eqb_spec x 0) as [->|Hnz].
      - rewrite decide_False by (intros [? _]; done). done.
      - destruct (Hsucc x Hx Hnz) as [r Hr]. rewrite Hr. unfold JS.read.
        destruct (isViableSuccessor s x x vacuum) eqn:E.
        + by rewrite decide_True.
        + rewrite decide_False by (intros [_ ?]; done). done. }
  rewrite fold_left_push, app_nil_l.
  rewrite (forOfAcc_pure
             (fun acc a =>
                if decide (existsb (N.eqb a) (succession power) = false
                           ∧ isViableClaimant s a a vacuum = true)
                then acc ++ [candidate s agents a] else acc)).
  2:{ intros acc a Ha. destruct (existsb (N.eqb a) (succession power)) eqn:Hin.
      - rewrite decide_False by (intros [? _]; done). done.
      - destruct (Hagents a Ha Hin) as [r Hr]. rewrite Hr. unfold JS.read.
        destruct (isViableClaimant s a a vacuum) eqn:E.
        + by rewrite decide_True.
        + rewrite decide_False by (intros [_ ?]; done). done. }
  rewrite fold_left_push. unfold enumeration, designated, claimants.
  by rewrite fmap_app.
Qed.

(** C7, as amended.  Candidate enumeration pushes the viable designated
    successors first, in list order, then the other agents that are viable
    claimants, in query order; the list returned is a permutation of that
    enumeration in descending order of support, and candidates of equal
    support keep their order of enumeration (the sort is stable; entity
    ids play no part). *)
Theorem findViableSuccessors_sorted_stable vacuum agents s power :
  PowerStructure s !! agent vacuum = Some power →
  (∀ x, x ∈ succession power → x ≠ 0%N → is_Some (PowerStructure s !! x)) →
  (∀ a, a ∈ agents → existsb (N.eqb a) (succession power) = false →
        is_Some (PowerStructure s !! a)) →
  ∃ candidates,
    findViableSuccessors vacuum agents s = JS.Return candidates s
    ∧ candidates
      = JS.sort (fun a b => Candidate.support b - Candidate.support a)%Q
          (candidate s agents
             <$> (designated s vacuum power ++ claimants s vacuum power agents))
    ∧ candidates ≡ₚ enumeration s vacuum power agents
    ∧ StronglySorted bySupport candidates
    ∧ ∀ v, withSupport v candidates
           = withSupport v (enumeration s vacuum power agents).
Proof.
  intros Hp Hsucc Hagents. eexists. split; [|split; [|split; [|split]]].
  - by apply findViableSuccessors_returns.
  - done.
  - apply (sort_Permutation Candidate.support).
  - apply (sort_sorted Candidate.support).
  - intros v. apply (sort_stable Candidate.support).
Qed.

(** No viable designated successor and no viable claimant: no candidate. *)
Lemma findViableSuccessors_none vacuum agents s power :
  PowerStructure s !! agent vacuum = Some power →
  (∀ x, x ∈ succession power → x ≠ 0%N → is_Some (PowerStructure s !! x)) →
  (∀ a, a ∈ agents → existsb (N.eqb a) (succession power) = false →
        is_Some (PowerStructure s !! a)) →
  designated s vacuum power = [] →
  claimants s vacuum power agents = [] →
  findViableSuccessors vacuum agents s = JS.Return [] s.
Proof.
  intros Hp Hsucc Hagents Hd Hc.
  rewrite (findViableSuccessors_returns _ _ _ _ Hp Hsucc Hagents).
  unfold enumeration. by rewrite Hd, Hc.
Qed.

Lemma collapsed_rank p :
  0 ≤ leaderPosition p < 256 →
  leaderPosition (collapsed p)
  = if leaderPosition p =? 0 then 0 else leaderPosition p - 1.
Proof.
  intros Hr. simpl. unfold JS.ToUint8.
  destruct (Z.eqb_spec (leaderPosition p) 0) as [->|Hnz]; [done|].
  rewrite Z.mod_small; lia.
Qed.

Lemma collapsed_stability p :
  (stabilityFactor (collapsed p) == stabilityFactor p / 2)%Q.
Proof. simpl. field. Qed.

(** A power collapse returns and rewrites the row of every affected agent,
    and of no other. *)
Lemma handlePowerCollapse_returns vacuum agents s :
  realignmentFrame →
  NoDup (findAffectedAgents s vacuum agents) →
  (∀ a, a ∈ findAffectedAgents s vacuum agents →
        is_Some (PowerStructure s !! a) ∧ is_Some (ConspiracyState s !! a)) →
  ∃ s', handlePowerCollapse vacuum agents s = JS.Return tt s'
        ∧ (∀ a p, a ∈ findAffectedAgents s vacuum agents →
             PowerStructure s !! a = Some p →
             PowerStructure s' !! a = Some (collapsed p))
        ∧ (∀ a, a ∉ findAffectedAgents s vacuum agents →
             PowerStructure s' !! a = PowerStructure s !! a).
Proof.
  intros Hframe Hnd Hrows.
  enough (returns (handlePowerCollapse vacuum agents) s (fun _ s' =>
            (∀ a p, a ∈ findAffectedAgents s vacuum agents →
               PowerStructure s !! a = Some p →
               PowerStructure s' !! a = Some (collapsed p))
            ∧ (∀ a, a ∉ findAffectedAgents s vacuum agents →
               PowerStructure s' !! a = PowerStructure s !! a)))
    as ([] & s' & Hrun & HP) by (by exists s').
  unfold handlePowerCollapse. apply returns_bind, returns_read.
  eapply returns_weaken.
  - apply (returns_forOf
             (fun seen s' =>
                (∀ a p, a ∈ seen → PowerStructure s !! a = Some p →
                        PowerStructure s' !! a = Some (collapsed p))
                ∧ (∀ a, a ∉ seen → PowerStructure s' !! a = PowerStructure s !! a)
                ∧ (∀ e, is_Some (ConspiracyState s' !! e)
                        ↔ is_Some (ConspiracyState s !! e)))
             (findAffectedAgents s vacuum agents) _ []).
    + split; [|split]; try done. intros a p Hin. by apply elem_of_nil in Hin.
    + simpl. intros seen a rest s' Heq _ (Hseen & Hother & Hcs).
      rewrite Heq in Hnd. apply NoDup_app in Hnd as (_ & Hdisj & _).
      assert (a ∉ seen) as Ha by (intros Hin; apply (Hdisj a Hin); by left).
      assert (a ∈ findAffectedAgents s vacuum agents) as Hin
        by (rewrite Heq; apply elem_of_app; right; by left).
      destruct (Hrows a Hin) as [[p Hp] Hc].
      apply Hcs in Hc as [c Hc].
      pose proof (Hother a Ha) as Hp'. rewrite Hp in Hp'.
      apply returns_bind. exists p, s'. split.
      { unfold getPowerStructure. by rewrite Hp'. }
      apply returns_bind. exists c, s'. split.
      { unfold getConspiracyState. by rewrite Hc. }
      apply returns_bind, returns_modify.
      apply returns_bind, returns_modify.
      destruct (Hframe a a a
                  (with_PowerStructure
                     (alter (fun p => with_stabilityFactor
                                        (stabilityFactor p * (5 # 10))%Q p) a
                        (PowerStructure
                           (with_PowerStructure
                              (alter (fun p => with_leaderPosition
                                                 (JS.ToUint8 (Z.max 0 (leaderPosition p - 1))) p)
                                 a (PowerStructure s')) s')))
                     (with_PowerStructure
                        (alter (fun p => with_leaderPosition
                                           (JS.ToUint8 (Z.max 0 (leaderPosition p - 1))) p)
                           a (PowerStructure s')) s')))
        as (s'' & Hrun & Hps & Hcs').
      exists tt, s''. split; [done|]. simpl in Hps, Hcs'.
      split; [|split].
      * intros b q [Hb|Hb%list_elem_of_singleton]%elem_of_app Hq.
        -- rewrite Hps, !lookup_alter_ne by (intros ->; done). by apply Hseen.
        -- subst b. rewrite Hps, !lookup_alter_eq, Hp'. simpl.
           rewrite Hp in Hq. by injection Hq as <-.
      * intros b Hb. rewrite Hps.
        rewrite !lookup_alter_ne.
        -- apply Hother. intros Hin'. apply Hb, elem_of_app. by left.
        -- intros ->. apply Hb, elem_of_app. right. by apply list_elem_of_singleton.
        -- intros ->. apply Hb, elem_of_app. right. by apply list_elem_of_singleton.
      * intros e. by rewrite Hcs'.
  - simpl. intros [] s' (Hseen & Hother & _). done.
Qed.

(** C6, as amended.  For a vacuum with no viable designated successor and
    no viable claimant, the engine performs a power collapse: the row of
    every affected stakeholder is rewritten with the rank lowered by one
    but never below 0 (a stakeholder of rank 0 keeps rank 0) and the
    stability factor multiplied by 0.5.  [forceConspiracyRealignment] is a
    parameter, assumed to leave the power structures alone. *)
Theorem power_collapse_demotes vacuum agents s power :
  realignmentFrame →
  PowerStructure s !! agent vacuum = Some power →
  (∀ x, x ∈ succession power → x ≠ 0%N → is_Some (PowerStructure s !! x)) →
  (∀ a, a ∈ agents → existsb (N.eqb a) (succession power) = false →
        is_Some (PowerStructure s !! a)) →
  designated s vacuum power = [] →
  claimants s vacuum power agents = [] →
  NoDup (findAffectedAgents s vacuum agents) →
  (∀ a, a ∈ findAffectedAgents s vacuum agents →
        is_Some (PowerStructure s !! a) ∧ is_Some (ConspiracyState s !! a)) →
  ∃ s', handlePowerVacuum agents vacuum s = JS.Return tt s'
        ∧ ∀ a p, a ∈ findAffectedAgents s vacuum agents →
            PowerStructure s !! a = Some p →
            ∃ p', PowerStructure s' !! a = Some p'
                  ∧ (0 ≤ leaderPosition p < 256 →
                     leaderPosition p'
                     = if leaderPosition p =? 0 then 0 else leaderPosition p - 1)
                  ∧ (stabilityFactor p' == stabilityFactor p / 2)%Q.
Proof.
  intros Hframe Hp Hsucc Hagents Hd Hc Hnd Hrows.
  destruct (handlePowerCollapse_returns vacuum agents s Hframe Hnd Hrows)
    as (s' & Hrun & Haff & _).
  exists s'. split.
  - unfold handlePowerVacuum, mbind, M_bind, JS.bind.
    by rewrite (findViableSuccessors_none _ _ _ _ Hp Hsucc Hagents Hd Hc).
  - intros a p Ha Hpa. exists (collapsed p). split; [by apply Haff|]. split.
    + apply collapsed_rank.
    + apply collapsed_stability.
Qed.

End SuccessionFacts.

Section SuccessionSamples.
Import Conspiracy SampleCourt.

Lemma no_realignment_frame : realignmentFrame.
Proof. intros agent conspiracy power s. by exists s. Qed.

Lemma findViableSuccessors_sorted_stable_witness :
  ∃ candidates,
    findViableSuccessors courtVacuum [1; 3; 5]%N court = JS.Return candidates court
    ∧ candidates
      = JS.sort (fun a b => Candidate.support b - Candidate.support a)%Q
          (candidate court [1; 3; 5]%N
             <$> (designated court courtVacuum (seat 2 [5; 3; 0; 0]%N (1 # 10))
                  ++ claimants court courtVacuum (seat 2 [5; 3; 0; 0]%N (1 # 10))
                       [1; 3; 5]%N))
    ∧ candidates ≡ₚ enumeration court courtVacuum (seat 2 [5; 3; 0; 0]%N (1 # 10))
                      [1; 3; 5]%N
    ∧ StronglySorted bySupport candidates
    ∧ ∀ v, withSupport v candidates
           = withSupport v (enumeration court courtVacuum
                              (seat 2 [5; 3; 0; 0]%N (1 # 10)) [1; 3; 5]%N).
Proof.
  apply findViableSuccessors_sorted_stable.
  - reflexivity.
  - intros x Hx Hnz. simpl in Hx.
    repeat (apply elem_of_cons in Hx as [->|Hx]); try done;
      try (by eexists). by apply elem_of_nil in Hx.
  - intros a Ha Hnot.
    repeat (apply elem_of_cons in Ha as [->|Ha]); try done;
      try (by eexists). by apply elem_of_nil in Ha.
Defined.

(** C7, as stated, fails: agent 1 designates 5, then 3, and both have
    support 1; the candidates come back with agent 5 first, not the lowest
    id 3. *)
Lemma equal_support_keeps_list_order :
  ∃ candidates,
    findViableSuccessors courtVacuum [1; 3; 5]%N court = JS.Return candidates court
    ∧ Candidate.agent <$> candidates = [5; 3]%N
    ∧ Candidate.support <$> candidates = [1; 1]%Q.
Proof. eexists. repeat split; vm_compute; reflexivity. Qed.

Lemma power_collapse_demotes_witness :
  ∃ s', handlePowerVacuum [1; 2]%N leaderlessVacuum leaderless = JS.Return tt s'
        ∧ ∀ a p, a ∈ findAffectedAgents leaderless leaderlessVacuum [1; 2]%N →
            PowerStructure leaderless !! a = Some p →
            ∃ p', PowerStructure s' !! a = Some p'
                  ∧ (0 ≤ leaderPosition p < 256 →
                     leaderPosition p'
                     = if leaderPosition p =? 0 then 0 else leaderPosition p - 1)
                  ∧ (stabilityFactor p' == stabilityFactor p / 2)%Q.
Proof.
  apply (power_collapse_demotes leaderlessVacuum [1; 2]%N leaderless
           (seat 1 [0; 0; 0; 0]%N (1 # 10))).
  - exact no_realignment_frame.
  - reflexivity.
  - intros x Hx Hnz. simpl in Hx.
    repeat (apply elem_of_cons in Hx as [->|Hx]); try done.
    by apply elem_of_nil in Hx.
  - intros a Ha _.
    repeat (apply elem_of_cons in Ha as [->|Ha]); try (by eexists).
    by apply elem_of_nil in Ha.
  - reflexivity.
  - reflexivity.
  - simpl. apply (bool_decide_unpack _). vm_compute. exact I.
  - intros a Ha. simpl in Ha.
    repeat (apply elem_of_cons in Ha as [->|Ha]); try (split; by eexists).
    by apply elem_of_nil in Ha.
Defined.

(** C6, as stated, fails: agent 2 is affected by the collapse and has rank
    0; after the collapse its rank is still 0, not one level lower. *)
Lemma rank_zero_is_not_demoted :
  findViableSuccessors leaderlessVacuum [1; 2]%N leaderless = JS.Return [] leaderless
  ∧ 2%N ∈ findAffectedAgents leaderless leaderlessVacuum [1; 2]%N
  ∧ leaderPosition <$> (PowerStructure leaderless !! 2%N) = Some 0
  ∧ (s' ← JS.stateOf (handlePowerVacuum [1; 2]%N leaderlessVacuum leaderless);
     leaderPosition <$> (PowerStructure s' !! 2%N)) = Some 0
  ∧ (s' ← JS.stateOf (handlePowerVacuum [1; 2]%N leaderlessVacuum leaderless);
     leaderPosition <$> (PowerStructure s' !! 1%N)) = Some 0.
Proof.
  repeat split; try (vm_compute; reflexivity).
  simpl. apply elem_of_cons. right. by left.
Qed.

End SuccessionSamples.

(** ** Tick-stamped caches *)

Section StatusCache.
Import Conspiracy.
Context `{Hooks}.

(** A lookup that finds an entry younger than 100 ticks returns its status
    and touches nothing: [calculateConspiracyStatus] does not run. *)
Lemma updateConspiracyStatus_hit agent conspiracy power s row entry :
  ConspiracyState s !! conspiracy = Some row →
  JS.get (cacheKey agent (membershipFlags row)) (conspiracyCache s) = Some entry →
  time s - timestamp entry < 100 →
  updateConspiracyStatus agent conspiracy power s = JS.Return (status entry) s.
Proof.
  intros Hrow Hget Hage.
  unfold updateConspiracyStatus, mbind, M_bind, JS.bind, getConspiracyState, JS.read.
  rewrite Hrow, Hget.
  assert ((timestamp entry >? time s - 100) = true) as -> by (apply Z.gtb_lt; lia).
  done.
Qed.

(** A lookup that finds no entry, or one aged 100 ticks or more, runs
    [calculateConspiracyStatus] once and stores the result stamped with the
    current time. *)
Lemma updateConspiracyStatus_compute agent conspiracy power s row :
  ConspiracyState s !! conspiracy = Some row →
  (∀ entry,
     JS.get (cacheKey agent (membershipFlags row)) (conspiracyCache s) = Some entry →
     100 ≤ time s - timestamp entry) →
  ∃ s', updateConspiracyStatus agent conspiracy power s
        = JS.Return (calculateConspiracyStatus s agent conspiracy power) s'
        ∧ calculated s' = agent :: calculated s
        ∧ conspiracyCache s'
          = JS.set (cacheKey agent (membershipFlags row))
              {| status := calculateConspiracyStatus s agent conspiracy power;
                 timestamp := time s |} (conspiracyCache s)
        ∧ time s' = time s
        ∧ ConspiracyState s' = ConspiracyState s
        ∧ PowerStructure s' = PowerStructure s.
Proof.
  intros Hrow Hstale. eexists. split.
  - unfold updateConspiracyStatus, mbind, M_bind, JS.bind, getConspiracyState, JS.read.
    rewrite Hrow.
    destruct (JS.get _ (conspiracyCache s)) as [entry|] eqn:Hget.
    + assert ((timestamp entry >? time s - 100) = false) as ->.
      { specialize (Hstale entry eq_refl). rewrite Z.gtb_ltb. apply Z.ltb_ge. lia. }
      simpl. reflexivity.
    + simpl. reflexivity.
  - done.
Qed.

(** Two lookups in a row, the second [d] ticks later with [d] below 100:
    the computation runs for the first only. *)
Lemma two_lookups_compute_once agent conspiracy power s row d :
  ConspiracyState s !! conspiracy = Some row →
  (∀ entry,
     JS.get (cacheKey agent (membershipFlags row)) (conspiracyCache s) = Some entry →
     100 ≤ time s - timestamp entry) →
  d < 100 →
  ∃ v s',
    updateConspiracyStatus agent conspiracy power s = JS.Return v s'
    ∧ updateConspiracyStatus agent conspiracy power (with_time (time s + d) s')
      = JS.Return v (with_time (time s + d) s')
    ∧ calculated (with_time (time s + d) s') = agent :: calculated s.
Proof.
  intros Hrow Hstale Hd.
  destruct (updateConspiracyStatus_compute agent conspiracy power s row Hrow Hstale)
    as (s' & Hrun & Hcalc & Hcache & Ht & Hcs & _).
  eexists _, s'. split; [exact Hrun|]. split; [|done].
  apply (updateConspiracyStatus_hit agent conspiracy power _ row
           {| status := _; timestamp := time s |}).
  - simpl. by rewrite Hcs.
  - simpl. rewrite Hcache. apply Map_get_set_eq.
  - simpl. lia.
Qed.

End StatusCache.

Section StatusCacheSamples.
Import Conspiracy SampleCourt.

(** The status computed at tick 10 is served until tick 109 and computed
    again at tick 110. *)
Example status_served_then_recomputed :
  updateConspiracyStatus 1 1 1 (later 109 {| status := 10; timestamp := 10 |})
  = JS.Return 10 (later 109 {| status := 10; timestamp := 10 |})
  ∧ (fun o => match o with JS.Return v s => Some (v, calculated s, conspiracyCache s)
                         | _ => None end)
      (updateConspiracyStatus 1 1 1 (later 110 {| status := 10; timestamp := 10 |}))
    = Some (110, [1%N], [(cacheKey 1 5, {| status := 110; timestamp := 110 |})]).
Proof. split; vm_compute; reflexivity. Qed.

End StatusCacheSamples.

Section DiscoveryCache.
Import Underground.
Context `{Hooks}.

Lemma returns_forOfAcc {S A B} (I : B → S → Prop) (body : B → A → JS.M S B) :
  ∀ xs acc s,
    I acc s →
    (∀ acc x s, I acc s → returns (body acc x) s I) →
    returns (JS.forOfAcc xs acc body) s I.
Proof.
  induction xs as [|x xs IH]; intros acc s HI Hbody; simpl.
  - by apply returns_ret.
  - apply (returns_bind (body acc x)).
    eapply returns_weaken; [by apply Hbody|].
    intros acc' s' HI'. by apply IH.
Qed.

(** A lookup that finds an entry younger than 100 ticks returns its market
    and touches nothing: no market is evaluated. *)
Lemma findSuitableMarket_hit operator underground s row entry :
  UndergroundEconomy s !! underground = Some row →
  JS.get (cacheKey operator (marketAccess row)) (discoveryCache s) = Some entry →
  time s - timestamp entry < 100 →
  findSuitableMarket operator underground s = JS.Return (market entry) s.
Proof.
  intros Hrow Hget Hage.
  unfold findSuitableMarket, mbind, M_bind, JS.bind, getUndergroundEconomy, JS.read.
  rewrite Hrow, Hget.
  assert ((timestamp entry >? time s - 100) = true) as -> by (apply Z.gtb_lt; lia).
  done.
Qed.

(** A lookup that finds no entry, or one aged 100 ticks or more, searches
    the active markets and stores what it found stamped with the current
    time. *)
Lemma findSuitableMarket_search operator underground s row :
  UndergroundEconomy s !! underground = Some row →
  (∀ entry,
     JS.get (cacheKey operator (marketAccess row)) (discoveryCache s) = Some entry →
     100 ≤ time s - timestamp entry) →
  ∃ best s',
    findSuitableMarket operator underground s = JS.Return best s'
    ∧ discoveryCache s'
      = JS.set (cacheKey operator (marketAccess row))
          {| market := best; timestamp := time s |} (discoveryCache s)
    ∧ time s' = time s.
Proof.
  intros Hrow Hstale.
  enough (returns (findSuitableMarket operator underground) s (fun best s' =>
            discoveryCache s'
            = JS.set (cacheKey operator (marketAccess row))
                {| market := best; timestamp := time s |} (discoveryCache s)
            ∧ time s' = time s)) as (best & s' & Hrun & HQ) by (by exists best, s').
  unfold findSuitableMarket.
  apply returns_bind. exists row, s. split.
  { unfold getUndergroundEconomy. by rewrite Hrow. }
  apply returns_bind, returns_read.
  assert (returns
            (JS.read ≫= fun s0 =>
             JS.forOfAcc (activeMarkets s0) (None, 0%Q)
               (fun '(bestMarket, bestScore) marketId =>
                  if JS.truthy
                       (JS.and32 (marketAccess row) (JS.shl32 1 (Z.of_N marketId)))
                  then
                    JS.read ≫= fun s1 =>
                    JS.modify
                      (fun s2 => with_evaluated ((marketId, operator) :: evaluated s2) s2)
                    ≫= fun _ =>
                    if JS.gtb (evaluateMarketSuitability s1 marketId operator) bestScore
                    then mret (Some marketId,
                               evaluateMarketSuitability s1 marketId operator)
                    else mret (bestMarket, bestScore)
                  else mret (bestMarket, bestScore))
             ≫= fun best =>
             JS.modify
               (fun s1 =>
                  with_discoveryCache
                    (JS.set (cacheKey operator (marketAccess row))
                       {| market := best.1; timestamp := time s1 |}
                       (discoveryCache s1)) s1)
             ≫= fun _ => mret best.1) s
            (fun best s' =>
               discoveryCache s'
               = JS.set (cacheKey operator (marketAccess row))
                   {| market := best; timestamp := time s |} (discoveryCache s)
               ∧ time s' = time s)) as Hsearch.
  { apply returns_bind, returns_read. apply returns_bind.
    eapply returns_weaken.
    - apply (returns_forOfAcc
               (fun _ s' => discoveryCache s' = discoveryCache s ∧ time s' = time s)).
      + done.
      + intros [bestMarket bestScore] marketId s0 [Hc Ht].
        destruct (JS.truthy _); [|by apply returns_ret].
        apply returns_bind, returns_read. apply returns_bind, returns_modify.
        destruct (JS.gtb _ bestScore); by apply returns_ret.
    - simpl. intros best s0 [Hc Ht].
      apply returns_bind, returns_modify. apply returns_ret. simpl.
      by rewrite Hc, Ht. }
  destruct (JS.get _ (discoveryCache s)) as [entry|] eqn:Hget; [|exact Hsearch].
  assert ((timestamp entry >? time s - 100) = false) as ->; [|exact Hsearch].
  specialize (Hstale entry eq_refl). rewrite Z.gtb_ltb. apply Z.ltb_ge. lia.
Qed.

End DiscoveryCache.

Section DiscoveryCacheSamples.
Import Underground SampleMarket.

(** An empty cache at tick 10: markets 1 and 2 are evaluated, market 2 is
    found and cached; at tick 109 it is served from the cache; at tick 110
    the search runs again. *)
Example market_found_served_then_searched :
  (fun o => match o with
            | JS.Return v s => Some (v, evaluated s, discoveryCache s)
            | _ => None
            end) (findSuitableMarket 1 1 (bazaar 10 []))
  = Some (Some 2%N, [(2, 1); (1, 1)]%N,
          [(cacheKey 1 6, {| market := Some 2%N; timestamp := 10 |})])
  ∧ findSuitableMarket 1 1
      (bazaar 109 [(cacheKey 1 6, {| market := Some 2%N; timestamp := 10 |})])
    = JS.Return (Some 2%N)
        (bazaar 109 [(cacheKey 1 6, {| market := Some 2%N; timestamp := 10 |})])
  ∧ (fun o => match o with
              | JS.Return v s => Some (v, evaluated s, discoveryCache s)
              | _ => None
              end)
      (findSuitableMarket 1 1
         (bazaar 110 [(cacheKey 1 6, {| market := Some 2%N; timestamp := 10 |})]))
    = Some (Some 2%N, [(2, 1); (1, 1)]%N,
            [(cacheKey 1 6, {| market := Some 2%N; timestamp := 110 |})]).
Proof. repeat split; vm_compute; reflexivity. Qed.

End DiscoveryCacheSamples.

(** ** TerritorySystem: pair keys and registration, further properties *)

Section PairKeys.
Import Territory.

(** X1. The key [registerConflict] builds for a pair parses back, with
    [key.split('_').map(Number)] as [resolveConflicts] does it, to the two
    ids of the pair, the smaller one first. *)
Theorem conflict_key_round_trip (a b : N) :
  splitKey (conflictKey a b) = (Some (N.min a b), Some (N.max a b)).
Proof. apply splitKey_conflictKey. Qed.

(** X2. Two pairs get the same key exactly when they are the same
    unordered pair. *)
Theorem conflict_key_same_pair (a b a' b' : N) :
  conflictKey a b = conflictKey a' b' ↔ (a = a' ∧ b = b') ∨ (a = b' ∧ b = a').
Proof.
  split.
  - apply conflictKey_inj.
  - intros [[-> ->]|[-> ->]]; [done | apply conflictKey_comm].
Qed.

(** The state [registerConflict] leaves for a pair without an entry. *)
Lemma registerConflict_fresh_state s g1 g2 i w1 w2 :
  WarfareState s !! g1 = Some w1 →
  WarfareState s !! g2 = Some w2 →
  pending s g1 g2 = None →
  registerConflict g1 g2 i s
  = JS.Return tt
      (with_conflictCache
         (conflictCache s
          ++ [(conflictKey g1 g2,
               {| territory := i; startTime := time s; lastUpdate := time s |})])
         (with_WarfareState
            (alter (fun w => with_activeConflicts
                               (JS.ToUint32 (JS.or32 (activeConflicts w) (JS.shl32 1 i))) w)
               g2
               (alter (fun w => with_activeConflicts
                                  (JS.ToUint32 (JS.or32 (activeConflicts w) (JS.shl32 1 i))) w)
                  g1 (WarfareState s))) s)).
Proof.
  intros H1 H2 Hp. unfold pending in Hp.
  unfold registerConflict, mbind, M_bind, JS.bind, JS.read.
  assert (JS.has (conflictKey g1 g2) (conflictCache s) = false) as ->
    by by apply Map_has_false.
  cbn [negb]. unfold getWarfareState. rewrite H1, H2.
  unfold setWarfareState, JS.modify. cbn.
  by rewrite Map_set_fresh.
Qed.

(** X3. Registering a pair that has no pending conflict sets the bit of
    the cell in the conflict flags of both parties and changes no other bit
    or field, appends one entry stamped with the current tick at the end of
    the pending map, and touches nothing else. *)
Theorem registerConflict_fresh_effect s g1 g2 i w1 w2 :
  WarfareState s !! g1 = Some w1 →
  WarfareState s !! g2 = Some w2 →
  pending s g1 g2 = None →
  0 ≤ i < 31 →
  ∃ s', registerConflict g1 g2 i s = JS.Return tt s'
    ∧ conflictCache s'
      = conflictCache s
        ++ [(conflictKey g1 g2,
             {| territory := i; startTime := time s; lastUpdate := time s |})]
    ∧ (∀ g w, g = g1 ∨ g = g2 → WarfareState s !! g = Some w →
         ∃ w', WarfareState s' !! g = Some w'
           ∧ (∀ j, 0 ≤ j < 32 →
                Z.testbit (activeConflicts w') j
                = if i =? j then true else Z.testbit (activeConflicts w) j)
           ∧ with_activeConflicts (activeConflicts w) w' = w)
    ∧ (∀ g, g ≠ g1 → g ≠ g2 → WarfareState s' !! g = WarfareState s !! g)
    ∧ TerritoryControl s' = TerritoryControl s
    ∧ territoryGrid s' = territoryGrid s
    ∧ time s' = time s.
Proof.
  intros H1 H2 Hp Hi. eexists. split; [by eapply registerConflict_fresh_state|].
  cbn. split; [done|]. split; [|split; [|done]].
  - intros g w Hg Hw.
    destruct (decide (g = g2)) as [-> | Hne2].
    + rewrite lookup_alter_eq.
      destruct (decide (g1 = g2)) as [-> | Hne].
      * rewrite lookup_alter_eq, Hw. cbn. eexists. split; [done|]. split.
        -- intros j Hj. cbn. rewrite !set_bit_spec by done.
           by destruct (i =? j).
        -- by destruct w.
      * rewrite lookup_alter_ne, Hw by done. cbn. eexists. split; [done|]. split.
        -- intros j Hj. cbn. by rewrite set_bit_spec.
        -- by destruct w.
    + destruct Hg as [-> | ->]; [|done].
      rewrite lookup_alter_ne, lookup_alter_eq, Hw by done. cbn.
      eexists. split; [done|]. split.
      * intros j Hj. cbn. by rewrite set_bit_spec.
      * by destruct w.
  - intros g Hg1 Hg2. by rewrite !lookup_alter_ne.
Qed.

(** X4. Registering a pair without a pending conflict when one of the
    parties has no [WarfareState] row throws MissingComponent before
    anything is written: no flag is set and no entry is added. *)
Theorem registerConflict_missing_party s g1 g2 i :
  pending s g1 g2 = None →
  WarfareState s !! g1 = None ∨ WarfareState s !! g2 = None →
  registerConflict g1 g2 i s = JS.Throw JS.MissingComponent s.
Proof.
  intros Hp Hrow. unfold pending in Hp.
  unfold registerConflict, mbind, M_bind, JS.bind, JS.read.
  assert (JS.has (conflictKey g1 g2) (conflictCache s) = false) as ->
    by by apply Map_has_false.
  cbn [negb]. unfold getWarfareState.
  destruct (WarfareState s !! g1) eqn:E1; [|done].
  destruct Hrow as [? | ->]; done.
Qed.

End PairKeys.

Section PairKeySamples.
Import Territory Sample.

Lemma registerConflict_fresh_effect_witness :
  ∃ s', registerConflict 1 2 3 twoCells = JS.Return tt s'
    ∧ conflictCache s'
      = conflictCache twoCells
        ++ [(conflictKey 1 2,
             {| territory := 3; startTime := time twoCells;
                lastUpdate := time twoCells |})]
    ∧ (∀ g w, g = 1%N ∨ g = 2%N → WarfareState twoCells !! g = Some w →
         ∃ w', WarfareState s' !! g = Some w'
           ∧ (∀ j, 0 ≤ j < 32 →
                Z.testbit (activeConflicts w') j
                = if 3 =? j then true else Z.testbit (activeConflicts w) j)
           ∧ with_activeConflicts (activeConflicts w) w' = w)
    ∧ (∀ g, g ≠ 1%N → g ≠ 2%N → WarfareState s' !! g = WarfareState twoCells !! g)
    ∧ TerritoryControl s' = TerritoryControl twoCells
    ∧ territoryGrid s' = territoryGrid twoCells
    ∧ time s' = time twoCells.
Proof.
  apply (registerConflict_fresh_effect twoCells 1 2 3 (force 1 0) (force 1 0));
    [reflexivity | reflexivity | reflexivity | lia].
Defined.

Lemma registerConflict_missing_party_witness :
  registerConflict 1 9 3 twoCells = JS.Throw JS.MissingComponent twoCells.
Proof.
  apply registerConflict_missing_party; [reflexivity | right; reflexivity].
Defined.

End PairKeySamples.

(** ** TerritorySystem: what detection leaves alone *)

Section LoopFacts.
Context {S : Type}.

Lemma returns_forOf_each {A} (I : S → Prop) (body : A → JS.M S unit) :
  ∀ xs s,
    I s →
    (∀ x s, x ∈ xs → I s → returns (body x) s (fun _ s' => I s')) →
    returns (JS.forOf xs body) s (fun _ s' => I s').
Proof.
  induction xs as [|x xs IH]; intros s HI Hbody.
  - by exists tt, s.
  - cbn [JS.forOf]. apply (returns_bind (S := S)).
    eapply returns_weaken; [apply Hbody; [by left | done]|].
    intros ? s' HI'. apply IH; [done|].
    intros y s'' Hy. apply Hbody. by right.
Qed.

End LoopFacts.

Section DetectionFrame.
Import Territory Frames.

Lemma flagsGrow_refl w : flagsGrow w w.
Proof. split; [by destruct w | done]. Qed.

Lemma flagsGrow_set w w' i :
  0 ≤ i < 31 →
  flagsGrow w w' →
  flagsGrow w
    (with_activeConflicts
       (JS.ToUint32 (JS.or32 (activeConflicts w') (JS.shl32 1 i))) w').
Proof.
  intros Hi [Hsame Hbits]. split.
  - by destruct w, w'.
  - intros j Hj Hset. cbn. rewrite set_bit_spec by done.
    destruct (i =? j); [done | by apply Hbits].
Qed.

Lemma flagsGrow_alter (m0 m : gmap N WarfareStateRow) f e :
  (∀ w w', flagsGrow w w' → flagsGrow w (f w')) →
  (∀ g, option_Forall2 flagsGrow (m0 !! g) (m !! g)) →
  ∀ g, option_Forall2 flagsGrow (m0 !! g) (alter f e m !! g).
Proof.
  intros Hf Hm g. destruct (decide (e = g)) as [-> | Hne].
  - rewrite lookup_alter_eq. destruct (Hm g); constructor. by apply Hf.
  - by rewrite lookup_alter_ne.
Qed.

(** What the loops of [updateTerritories] keep true, started from [s]. *)
Lemma claimCell_detected s s' g i :
  g ∈ gangsters s → 0 ≤ i < TERRITORY_GRID →
  detected s s' ∧ (∀ n e, territoryGrid s' !! n = Some (Some e) → e ∈ gangsters s) →
  returns (claimCell g i) s' (fun _ s'' =>
    detected s s''
    ∧ ∀ n e, territoryGrid s'' !! n = Some (Some e) → e ∈ gangsters s).
Proof.
  intros Hg Hi HI.
  pose proof HI as [(Ht & HTC & HUE & Hlen & [added Hadd] & HWS) Hgrid].
  apply gangsters_elem in Hg as Hrows. destruct Hrows as ([r Hr] & [w Hw] & _).
  unfold returns. rewrite (claimCell_eq s' g i r) by by rewrite HTC.
  destruct (claims (territories r) i); [|by exists tt, s'].
  destruct (occupant s' i) as [other|] eqn:Hocc.
  - assert (other ∈ gangsters s) as Hother.
    { unfold occupant in Hocc.
      destruct (territoryGrid s' !! Z.to_nat i) as [[e|]|] eqn:Hcell; try done.
      destruct (N.eqb e 0); [done|]. injection Hocc as <-. by eapply Hgrid. }
    apply gangsters_elem in Hother as (_ & [wo Hwo] & _).
    pose proof (HWS g) as Hg'. rewrite Hw in Hg'.
    destruct (WarfareState s' !! g) as [wg'|] eqn:Hwg'; [|inversion Hg'].
    pose proof (HWS other) as Ho'. rewrite Hwo in Ho'.
    destruct (WarfareState s' !! other) as [wo'|] eqn:Hwo'; [|inversion Ho'].
    destruct (JS.has (conflictKey g other) (conflictCache s')) eqn:Hhas.
    + rewrite registerConflict_present by done. by exists tt, s'.
    + apply Map_has_false in Hhas.
      rewrite (registerConflict_fresh_state s' g other i wg' wo') by done.
      eexists tt, _. split; [done|]. cbn. split; [|done].
      repeat split; try done.
      * eexists. by rewrite Hadd, <- (assoc_L (++)).
      * unfold TERRITORY_GRID in Hi.
        apply flagsGrow_alter; [intros; apply flagsGrow_set; [lia | done]|].
        apply flagsGrow_alter; [intros; apply flagsGrow_set; [lia | done]|].
        done.
  - eexists tt, _. split; [done|]. cbn. split.
    + repeat split; try done; [cbn; by rewrite length_insert | by exists added].
    + intros n e Hn. rewrite list_lookup_insert in Hn.
      destruct (decide _); [by injection Hn as <- | by eapply Hgrid].
Qed.

Lemma updateTerritories_detected s :
  returns updateTerritories s (fun _ s' => detected s s').
Proof.
  unfold updateTerritories.
  apply (returns_bind (S := System)), returns_modify.
  apply (returns_bind (S := System)), returns_read.
  change (gangsters (with_territoryGrid _ s)) with (gangsters s).
  eapply returns_weaken.
  - apply (returns_forOf_each (fun s' =>
      detected s s'
      ∧ ∀ n e, territoryGrid s' !! n = Some (Some e) → e ∈ gangsters s)).
    + split.
      * repeat split; try done.
        -- exists []. cbn. by rewrite app_nil_r.
        -- intros g. cbn. destruct (WarfareState s !! g); constructor.
           apply flagsGrow_refl.
      * intros n e Hn. cbn in Hn. apply lookup_replicate in Hn as [? _]. done.
    + intros g s' Hg HI.
      apply (returns_bind (S := System)).
      apply gangsters_elem in Hg as Hrows. destruct Hrows as ([r Hr] & _).
      destruct HI as [Hdet Hgrid]. pose proof Hdet as (_ & HTC & _).
      exists r, s'. split; [unfold getTerritoryControl; by rewrite HTC, Hr|].
      apply (returns_forOf_each (fun s' =>
        detected s s'
        ∧ ∀ n e, territoryGrid s' !! n = Some (Some e) → e ∈ gangsters s));
        [done|].
      intros i s'' Hi HI'. apply claimCell_detected; [done | | done].
      apply elem_of_seqZ in Hi. lia.
  - by intros _ s' [? _].
Qed.

(** X5. Conflict detection always returns, whatever the state: it never
    changes the clock or a [TerritoryControl] row, never removes or
    rewrites a pending conflict (new ones are appended), and changes a
    [WarfareState] row only by adding conflict flags. *)
Theorem detection_only_adds s :
  ∃ s', updateTerritories s = JS.Return tt s' ∧ detected s s'.
Proof.
  destruct (updateTerritories_detected s) as ([] & s' & Hrun & Hdet). by exists s'.
Qed.

(** X6. When no gangster has id 0 and the pending map has no duplicate
    key, detection leaves in every grid cell the first gangster, in query
    order, that claims the cell, and null where nobody does. *)
Theorem detection_grid_first_claimant s :
  0%N ∉ gangsters s →
  NoDup (JS.keys (conflictCache s)) →
  ∃ s', updateTerritories s = JS.Return tt s'
    ∧ ∀ i, 0 ≤ i < TERRITORY_GRID →
        territoryGrid s' !! Z.to_nat i = Some (firstClaimant s i).
Proof.
  intros Hzero Hkeys.
  destruct (detection_first_claimant s Hzero Hkeys) as (s' & Hrun & Hgrid & _).
  by exists s'.
Qed.

End DetectionFrame.

Section DetectionFrameSamples.
Import Territory Sample.

Lemma detection_grid_first_claimant_witness :
  ∃ s', updateTerritories twoCells = JS.Return tt s'
    ∧ ∀ i, 0 ≤ i < TERRITORY_GRID →
        territoryGrid s' !! Z.to_nat i = Some (firstClaimant twoCells i).
Proof.
  apply detection_grid_first_claimant.
  - apply (bool_decide_unpack _). vm_compute. exact I.
  - apply (bool_decide_unpack _). vm_compute. exact I.
Defined.

End DetectionFrameSamples.

(** ** TerritorySystem: strength and resolution, further properties *)

Section StrengthFrame.
Import Territory Frames.
Context `{Hooks}.

Lemma allyLoop_leaves fuel : ∀ gangster mask count strength s,
  leaves (allyLoop fuel gangster mask count strength s) (fun s' => s' = s).
Proof.
  induction fuel as [|fuel IH]; intros gangster mask count strength s; [done|].
  cbn [allyLoop]. destruct (JS.truthy mask); [|done].
  unfold mbind, M_bind, JS.bind, JS.read. apply IH.
Qed.

Lemma calculateWarStrength_leaves fuel g s :
  leaves (calculateWarStrength fuel g s) (fun s' => s' = s).
Proof.
  unfold calculateWarStrength, mbind, M_bind, JS.bind,
    getWarfareState, getTerritoryControl.
  destruct (WarfareState s !! g) as [w|]; [|done].
  destruct (TerritoryControl s !! g) as [t|]; [|done].
  pose proof (allyLoop_leaves fuel g (allies w) 0 (JS.float32 (warStrength w)) s) as Hloop.
  destruct (allyLoop fuel g (allies w) 0 (JS.float32 (warStrength w)) s); done.
Qed.

Lemma bit31_clear x : 0 ≤ x < 2 ^ 32 → Z.testbit x 31 = false → 0 ≤ x < 2 ^ 31.
Proof.
  intros Hx Hbit. split; [lia|].
  destruct (Z_lt_ge_dec x (2 ^ 31)) as [|Hge]; [done|].
  assert (Z.testbit x 31 = true); [|congruence].
  apply Z.testbit_true; [lia|].
  assert (x `div` 2 ^ 31 = 1) as ->; [|done].
  symmetry. apply (Z.div_unique x (2 ^ 31) 1 (x - 2 ^ 31)); lia.
Qed.

Lemma bit31_set x : 0 ≤ x < 2 ^ 32 → Z.testbit x 31 = true → 2 ^ 31 ≤ x < 2 ^ 32.
Proof.
  intros Hx Hbit. split; [|lia].
  destruct (Z_lt_ge_dec x (2 ^ 31)) as [Hlt|]; [|lia].
  assert (Z.testbit x 31 = false); [|congruence].
  apply Z.testbit_false; [lia|].
  by rewrite Z.div_small by lia.
Qed.

(** X7. For a [ui32] ally mask, computing the strength of a gangster that
    has both rows returns when bit 31 of the mask is clear, and never
    returns when it is set: [allyMask >>= 1] keeps the sign bit, so the
    loop condition stays true. *)
Theorem strength_returns_unless_bit31 s g w t :
  WarfareState s !! g = Some w →
  TerritoryControl s !! g = Some t →
  0 ≤ allies w < 2 ^ 32 →
  (Z.testbit (allies w) 31 = false →
   ∀ fuel, (32 ≤ fuel)%nat → returned (calculateWarStrength fuel g s) = true)
  ∧ (Z.testbit (allies w) 31 = true →
     ∀ fuel, calculateWarStrength fuel g s = JS.OutOfFuel).
Proof.
  intros Hw Ht Hmask. split.
  - intros Hbit fuel Hfuel. apply bit31_clear in Hbit; [|done].
    unfold calculateWarStrength, mbind, M_bind, JS.bind,
      getWarfareState, getTerritoryControl.
    rewrite Hw, Ht.
    by rewrite (allyLoop_returns 31) by (done || lia).
  - intros Hbit fuel. apply bit31_set in Hbit; [|done].
    by eapply calculateWarStrength_bit31.
Qed.

End StrengthFrame.

Section StrengthFrameSamples.
Import Territory Frames Sample SampleWar.

Lemma strength_returns_unless_bit31_witness :
  (Z.testbit (allies (force 2 (2 ^ 31))) 31 = false →
   ∀ fuel, (32 ≤ fuel)%nat → returned (calculateWarStrength fuel 1 ally31) = true)
  ∧ (Z.testbit (allies (force 2 (2 ^ 31))) 31 = true →
     ∀ fuel, calculateWarStrength fuel 1 ally31 = JS.OutOfFuel).
Proof.
  apply (strength_returns_unless_bit31 ally31 1 (force 2 (2 ^ 31)) (turf 1));
    [reflexivity | reflexivity | vm_compute; split; [discriminate | reflexivity]].
Defined.

End StrengthFrameSamples.

Section DisputeFacts.
Import Territory Frames.
Context `{Hooks}.

(** The rows a direct call of the dispute method does not touch. *)
Lemma resolveTerrritorialDispute_others s g1 g2 i winner :
  is_Some (TerritoryControl s !! g1) → is_Some (TerritoryControl s !! g2) →
  is_Some (WarfareState s !! g1) → is_Some (WarfareState s !! g2) →
  ∃ s', resolveTerrritorialDispute g1 g2 i winner s = JS.Return tt s'
    ∧ (∀ g, g ≠ g1 → g ≠ g2 →
         TerritoryControl s' !! g = TerritoryControl s !! g
         ∧ WarfareState s' !! g = WarfareState s !! g)
    ∧ conflictCache s' = conflictCache s
    ∧ territoryGrid s' = territoryGrid s
    ∧ time s' = time s.
Proof.
  intros [t1 Ht1] [t2 Ht2] [w1 Hw1] [w2 Hw2].
  unfold resolveTerrritorialDispute, mbind, M_bind, JS.bind,
    getTerritoryControl, getWarfareState.
  rewrite Ht1, Ht2, Hw1, Hw2.
  destruct (N.eqb winner g1), (N.eqb winner g2);
    (eexists; split; [simpl; reflexivity|]); simpl;
    (split; [|done]); intros g Hg1 Hg2; by rewrite !lookup_alter_ne.
Qed.

(** X8. Called directly for two distinct parties that have their rows,
    with one of them as winner, the dispute method moves the cell: the bit
    of the cell is set in the winner's bitfield and cleared in the loser's,
    no other bit or field of the two rows changes, the rows of every other
    entity stay as they were, and so does the pending map. *)
Theorem dispute_moves_cell s g1 g2 i winner loser tw tl :
  g1 ≠ g2 →
  (winner = g1 ∧ loser = g2) ∨ (winner = g2 ∧ loser = g1) →
  TerritoryControl s !! winner = Some tw →
  TerritoryControl s !! loser = Some tl →
  is_Some (WarfareState s !! g1) → is_Some (WarfareState s !! g2) →
  0 ≤ i < 31 →
  ∃ s' tw' tl',
    resolveTerrritorialDispute g1 g2 i winner s = JS.Return tt s'
    ∧ TerritoryControl s' !! winner = Some tw'
    ∧ TerritoryControl s' !! loser = Some tl'
    ∧ (∀ j, 0 ≤ j < 32 →
         Z.testbit (territories tw') j
         = if i =? j then true else Z.testbit (territories tw) j)
    ∧ (∀ j, 0 ≤ j < 32 →
         Z.testbit (territories tl') j
         = if i =? j then false else Z.testbit (territories tl) j)
    ∧ with_territories (territories tw) tw' = tw
    ∧ with_territories (territories tl) tl' = tl
    ∧ (∀ g, g ≠ g1 → g ≠ g2 →
         TerritoryControl s' !! g = TerritoryControl s !! g
         ∧ WarfareState s' !! g = WarfareState s !! g)
    ∧ conflictCache s' = conflictCache s.
Proof.
  intros Hne Hwho Htw Htl [w1 Hw1] [w2 Hw2] Hi.
  destruct Hwho as [[-> ->] | [-> ->]].
  - destruct (resolveTerrritorialDispute_first_wins s g1 g2 i tw tl w1 w2)
      as (s' & Hrun & Hg1 & Hg2 & _); try done.
    destruct (resolveTerrritorialDispute_others s g1 g2 i g1)
      as (s'' & Hrun' & Hothers & Hcache & _); try done.
    rewrite Hrun in Hrun'. injection Hrun' as <-.
    eexists s', _, _. repeat split; try done.
    + intros j Hj. cbn. by apply set_bit_spec.
    + intros j Hj. cbn. by apply clear_bit_spec.
    + by destruct tw.
    + by destruct tl.
    + by apply Hothers.
    + by apply Hothers.
  - destruct (resolveTerrritorialDispute_second_wins s g1 g2 i tl tw w1 w2)
      as (s' & Hrun & Hg2 & Hg1 & _); try done.
    destruct (resolveTerrritorialDispute_others s g1 g2 i g2)
      as (s'' & Hrun' & Hothers & Hcache & _); try done.
    rewrite Hrun in Hrun'. injection Hrun' as <-.
    eexists s', _, _. repeat split; try done.
    + intros j Hj. cbn. by apply set_bit_spec.
    + intros j Hj. cbn. by apply clear_bit_spec.
    + by destruct tw.
    + by destruct tl.
    + by apply Hothers.
    + by apply Hothers.
Qed.

(** X9. The same direct call keeps the books of both parties: the winner
    gains a victory and the loser a casualty, counted modulo 2^16; the
    winner's reputation rises by 0.1 up to the cap of 1 and the loser's is
    multiplied by 0.8, so a reputation between 0 and 1 stays between 0 and
    1; the conflict flag of the cell is cleared for both, and strength and
    allies are not touched. *)
Theorem dispute_keeps_books s g1 g2 i winner loser ww wl :
  g1 ≠ g2 →
  (winner = g1 ∧ loser = g2) ∨ (winner = g2 ∧ loser = g1) →
  is_Some (TerritoryControl s !! g1) → is_Some (TerritoryControl s !! g2) →
  WarfareState s !! winner = Some ww →
  WarfareState s !! loser = Some wl →
  0 ≤ i < 31 →
  ∃ s' ww' wl',
    resolveTerrritorialDispute g1 g2 i winner s = JS.Return tt s'
    ∧ WarfareState s' !! winner = Some ww'
    ∧ WarfareState s' !! loser = Some wl'
    ∧ victories ww' = (victories ww + 1) mod 2 ^ 16
    ∧ casualties ww' = casualties ww
    ∧ casualties wl' = (casualties wl + 1) mod 2 ^ 16
    ∧ victories wl' = victories wl
    ∧ reputation ww' = Qmin 1 (reputation ww + (1 # 10))
    ∧ reputation wl' = (reputation wl * (8 # 10))%Q
    ∧ ((0 <= reputation ww)%Q → (reputation ww <= 1)%Q →
       (reputation ww <= reputation ww')%Q ∧ (reputation ww' <= 1)%Q)
    ∧ ((0 <= reputation wl)%Q → (reputation wl <= 1)%Q →
       (0 <= reputation wl')%Q ∧ (reputation wl' <= reputation wl)%Q)
    ∧ (∀ j, 0 ≤ j < 32 →
         Z.testbit (activeConflicts ww') j
         = if i =? j then false else Z.testbit (activeConflicts ww) j)
    ∧ (∀ j, 0 ≤ j < 32 →
         Z.testbit (activeConflicts wl') j
         = if i =? j then false else Z.testbit (activeConflicts wl) j)
    ∧ warStrength ww' = warStrength ww ∧ allies ww' = allies ww
    ∧ warStrength wl' = warStrength wl ∧ allies wl' = allies wl.
Proof.
  intros Hne Hwho [t1 Ht1] [t2 Ht2] Hww Hwl Hi.
  assert ((0 <= reputation ww)%Q → (reputation ww <= 1)%Q →
          (reputation ww <= Qmin 1 (reputation ww + (1 # 10)))%Q
          ∧ (Qmin 1 (reputation ww + (1 # 10)) <= 1)%Q) as Hup.
  { intros H0 H1. split; [|apply Q.le_min_l].
    apply Q.min_glb; [done|]. lra. }
  assert ((0 <= reputation wl)%Q → (reputation wl <= 1)%Q →
          (0 <= reputation wl * (8 # 10))%Q
          ∧ (reputation wl * (8 # 10) <= reputation wl)%Q) as Hdown.
  { intros H0 H1. split; lra. }
  destruct Hwho as [[-> ->] | [-> ->]].
  - destruct (resolveTerrritorialDispute_first_wins s g1 g2 i t1 t2 ww wl)
      as (s' & Hrun & _ & _ & Hg1 & Hg2 & _); try done.
    eexists s', _, _. split; [done|]. split; [exact Hg1|]. split; [exact Hg2|].
    cbn. split_and!; try done; intros j Hj; by apply clear_bit_spec.
  - destruct (resolveTerrritorialDispute_second_wins s g1 g2 i t1 t2 wl ww)
      as (s' & Hrun & _ & _ & Hg2 & Hg1 & _); try done.
    eexists s', _, _. split; [done|]. split; [exact Hg2|]. split; [exact Hg1|].
    cbn. split_and!; try done; intros j Hj; by apply clear_bit_spec.
Qed.

(** X10. The dispute method reads the four rows before it writes: if a
    party lacks its [TerritoryControl] or [WarfareState] row, the call
    throws MissingComponent and the state is as it was. *)
Theorem dispute_missing_row s g1 g2 i winner :
  TerritoryControl s !! g1 = None ∨ TerritoryControl s !! g2 = None
  ∨ WarfareState s !! g1 = None ∨ WarfareState s !! g2 = None →
  resolveTerrritorialDispute g1 g2 i winner s = JS.Throw JS.MissingComponent s.
Proof.
  intros Hrow.
  unfold resolveTerrritorialDispute, mbind, M_bind, JS.bind,
    getTerritoryControl, getWarfareState.
  destruct (TerritoryControl s !! g1); [|done].
  destruct (TerritoryControl s !! g2); [|done].
  destruct (WarfareState s !! g1); [|done].
  destruct (WarfareState s !! g2); [|done].
  by destruct Hrow as [? | [? | [? | ?]]].
Qed.

End DisputeFacts.

Section DisputeSamples.
Import Territory Frames Sample SampleWar.

Lemma dispute_moves_cell_witness :
  ∃ s' tw' tl',
    resolveTerrritorialDispute 1 2 3 2 decisive = JS.Return tt s'
    ∧ TerritoryControl s' !! 2%N = Some tw'
    ∧ TerritoryControl s' !! 1%N = Some tl'
    ∧ (∀ j, 0 ≤ j < 32 →
         Z.testbit (territories tw') j
         = if 3 =? j then true else Z.testbit (territories (turf 8)) j)
    ∧ (∀ j, 0 ≤ j < 32 →
         Z.testbit (territories tl') j
         = if 3 =? j then false else Z.testbit (territories (turf 8)) j)
    ∧ with_territories (territories (turf 8)) tw' = turf 8
    ∧ with_territories (territories (turf 8)) tl' = turf 8
    ∧ (∀ g, g ≠ 1%N → g ≠ 2%N →
         TerritoryControl s' !! g = TerritoryControl decisive !! g
         ∧ WarfareState s' !! g = WarfareState decisive !! g)
    ∧ conflictCache s' = conflictCache decisive.
Proof.
  apply (dispute_moves_cell decisive 1 2 3 2 1 (turf 8) (turf 8));
    [discriminate | right; split; reflexivity | reflexivity | reflexivity
    | eexists; reflexivity | eexists; reflexivity | lia].
Defined.

Lemma dispute_keeps_books_witness :
  ∃ s' ww' wl',
    resolveTerrritorialDispute 1 2 3 1 decisive = JS.Return tt s'
    ∧ WarfareState s' !! 1%N = Some ww'
    ∧ WarfareState s' !! 2%N = Some wl'
    ∧ victories ww' = (victories (force 10 0) + 1) mod 2 ^ 16
    ∧ casualties ww' = casualties (force 10 0)
    ∧ casualties wl' = (casualties (force 7 0) + 1) mod 2 ^ 16
    ∧ victories wl' = victories (force 7 0)
    ∧ reputation ww' = Qmin 1 (reputation (force 10 0) + (1 # 10))
    ∧ reputation wl' = (reputation (force 7 0) * (8 # 10))%Q
    ∧ ((0 <= reputation (force 10 0))%Q → (reputation (force 10 0) <= 1)%Q →
       (reputation (force 10 0) <= reputation ww')%Q ∧ (reputation ww' <= 1)%Q)
    ∧ ((0 <= reputation (force 7 0))%Q → (reputation (force 7 0) <= 1)%Q →
       (0 <= reputation wl')%Q ∧ (reputation wl' <= reputation (force 7 0))%Q)
    ∧ (∀ j, 0 ≤ j < 32 →
         Z.testbit (activeConflicts ww') j
         = if 3 =? j then false else Z.testbit (activeConflicts (force 10 0)) j)
    ∧ (∀ j, 0 ≤ j < 32 →
         Z.testbit (activeConflicts wl') j
         = if 3 =? j then false else Z.testbit (activeConflicts (force 7 0)) j)
    ∧ warStrength ww' = warStrength (force 10 0) ∧ allies ww' = allies (force 10 0)
    ∧ warStrength wl' = warStrength (force 7 0) ∧ allies wl' = allies (force 7 0).
Proof.
  apply (dispute_keeps_books decisive 1 2 3 1 2 (force 10 0) (force 7 0));
    [discriminate | left; split; reflexivity | eexists; reflexivity
    | eexists; reflexivity | reflexivity | reflexivity | lia].
Defined.

Lemma dispute_missing_row_witness :
  resolveTerrritorialDispute 1 2 3 1 departed = JS.Throw JS.MissingComponent departed.
Proof.
  apply dispute_missing_row. right. left. reflexivity.
Defined.

End DisputeSamples.

Section ResolutionFrame.
Import Territory Frames.
Context `{Hooks}.

Lemma forOf_skip {S A} (body : A → JS.M S unit) (s : S) : ∀ xs,
  (∀ x, x ∈ xs → body x s = JS.Return tt s) →
  JS.forOf xs body s = JS.Return tt s.
Proof.
  induction xs as [|x xs IH]; intros Hbody; [done|].
  cbn [JS.forOf]. unfold JS.bind. rewrite Hbody by by left.
  apply IH. intros y Hy. apply Hbody. by right.
Qed.

(** X11. A resolution pass over a pending map in which no conflict is
    older than 100 ticks (an age of exactly 100 included) returns and
    changes nothing. *)
Theorem resolveConflicts_all_young fuel s :
  Forall (fun kc => time s - lastUpdate kc.2 ≤ 100) (conflictCache s) →
  resolveConflicts fuel s = JS.Return tt s.
Proof.
  intros Hyoung. unfold resolveConflicts, mbind, M_bind, JS.bind, JS.read.
  apply forOf_skip. intros key Hkey.
  unfold resolveConflict, mbind, M_bind, JS.bind, JS.read.
  destruct (JS.get key (conflictCache s)) as [c|] eqn:Hget; [|done].
  apply Map_get_elem in Hget. rewrite Forall_forall in Hyoung.
  specialize (Hyoung _ Hget). cbn in Hyoung.
  assert ((time s - lastUpdate c >? 100) = false) as ->; [|done].
  rewrite Z.gtb_ltb. apply Z.ltb_ge. lia.
Qed.

Lemma sameTurf_refl s : sameTurf s s.
Proof. done. Qed.

Lemma sameTurf_trans s1 s2 s3 : sameTurf s1 s2 → sameTurf s2 s3 → sameTurf s1 s3.
Proof.
  intros [Hk1 Ht1] [Hk2 Ht2]. split; [congruence|].
  intros e. by rewrite Ht2, Ht1.
Qed.

Lemma forOf_leaves {S A} (R : S → S → Prop) (body : A → JS.M S unit) :
  (∀ s, R s s) → (∀ s1 s2 s3, R s1 s2 → R s2 s3 → R s1 s3) →
  (∀ x s, leaves (body x s) (R s)) →
  ∀ xs s, leaves (JS.forOf xs body s) (R s).
Proof.
  intros Hrefl Htrans Hbody.
  induction xs as [|x xs IH]; intros s; [apply Hrefl|].
  cbn [JS.forOf]. unfold JS.bind.
  pose proof (Hbody x s) as Hx.
  destruct (body x s) as [[] s1|e s1|]; [|done|done].
  pose proof (IH s1) as Hrest. unfold leaves in *. cbn in Hx.
  destruct (JS.stateOf (JS.forOf xs body s1)); [|done].
  by eapply Htrans.
Qed.

Lemma resolveConflict_sameTurf fuel key s :
  stalemateFrame → leaves (resolveConflict fuel key s) (sameTurf s).
Proof.
  intros Hframe.
  unfold resolveConflict, mbind, M_bind, JS.bind, JS.read.
  destruct (JS.get key (conflictCache s)) as [c|] eqn:Hget; [|done].
  destruct (time s - lastUpdate c >? 100); [|done].
  destruct (splitKey key) as [[g1|] o2]; [|done]. cbn [entity].
  unfold mret, M_ret, JS.ret at 1.
  pose proof (calculateWarStrength_leaves fuel g1 s) as H1.
  destruct (calculateWarStrength fuel g1 s) as [st1 s1|e s1|];
    unfold leaves in H1; cbn in H1; [subst s1|by subst s1|done].
  destruct o2 as [g2|]; [|done]. cbn [entity].
  unfold mret, M_ret, JS.ret at 1.
  pose proof (calculateWarStrength_leaves fuel g2 s) as H2.
  destruct (calculateWarStrength fuel g2 s) as [st2 s2|e s2|];
    unfold leaves in H2; cbn in H2; [subst s2|by subst s2|done].
  destruct (JS.Double.gtb (JS.Double.abs (st1 - st2)%D) MIN_STRENGTH).
  - by rewrite callMethod_undefined.
  - destruct (Hframe g1 g2 c s) as (s' & -> & Htime & Hcache & Hturf).
    unfold JS.modify, leaves. cbn [JS.stateOf].
    destruct (JS.get key (conflictCache s')) as [c'|] eqn:Hget'.
    + split; [|done]. cbn [conflictCache with_conflictCache].
      rewrite Map_keys_set_present by by rewrite Hget'.
      by rewrite Hcache.
    + split; [by rewrite Hcache | done].
Qed.

(** X12. As long as [handleStalemate] keeps to its frame, a resolution
    pass, however it ends, removes no pending conflict, adds none and moves
    no cell: the keys of the pending map and every gang's bitfield of held
    cells are what they were. *)
Theorem resolution_settles_nothing fuel s :
  stalemateFrame → leaves (resolveConflicts fuel s) (sameTurf s).
Proof.
  intros Hframe. unfold resolveConflicts, mbind, M_bind, JS.bind, JS.read.
  apply (forOf_leaves sameTurf).
  - apply sameTurf_refl.
  - apply sameTurf_trans.
  - intros key s'. by apply resolveConflict_sameTurf.
Qed.

End ResolutionFrame.

Section ResolutionFrameSamples.
Import Territory Frames Sample SampleWar.

Lemma resolveConflicts_all_young_witness :
  resolveConflicts 32 atWar = JS.Return tt atWar.
Proof.
  apply resolveConflicts_all_young.
  apply (bool_decide_unpack _). vm_compute. exact I.
Defined.

Lemma resolution_settles_nothing_witness :
  leaves (resolveConflicts 32 decisive) (sameTurf decisive).
Proof.
  apply resolution_settles_nothing. exact stalemateCost_frame.
Defined.

End ResolutionFrameSamples.

(** ** TerritorySystem: the upkeep of held cells *)

Section UpkeepFacts.
Import Territory Frames Upkeep.
Context `{Territory.Hooks} `{Upkeep.Hooks}.

Lemma calculateStability_returns g i territory warfare s t w :
  TerritoryControl s !! territory = Some t →
  WarfareState s !! warfare = Some w →
  ∃ r, calculateStability g i territory warfare s = JS.Return r s
       ∧ (r = None ↔ index (protection t) i = None)
       ∧ ∀ v, r = Some v → (v <= 1)%Q.
Proof.
  intros Ht Hw.
  unfold calculateStability, mbind, M_bind, JS.bind, JS.read,
    getTerritoryControl, getWarfareState.
  rewrite Ht, Hw. eexists. split; [reflexivity|].
  destruct (index (protection t) i) as [p|];
    destruct (JS.truthy (JS.and32 (activeConflicts w) (JS.shl32 1 i))); cbn;
    (split; [done|]); intros v [= <-]; try done; apply Q.le_min_l.
Qed.

(** X13. The stability of a cell is computed without writing.  It is NaN
    exactly when the cell index lies outside the protection array, and
    otherwise at most 1. *)
Theorem stability_capped_or_nan g i territory warfare s t w :
  TerritoryControl s !! territory = Some t →
  WarfareState s !! warfare = Some w →
  ∃ r, calculateStability g i territory warfare s = JS.Return r s
       ∧ (r = None ↔ index (protection t) i = None)
       ∧ ∀ v, r = Some v → (v <= 1)%Q.
Proof. apply calculateStability_returns. Qed.

(** X14. For a held cell whose index lies outside the protection array of
    16 entries, the upkeep does nothing: the stability is NaN, both
    comparisons are false, neither [reinforceTerritory] nor
    [handleInternalThreats] is called and the state is unchanged. *)
Theorem upkeep_skips_cells_beyond_grid g territory warfare i s t w :
  TerritoryControl s !! territory = Some t →
  WarfareState s !! warfare = Some w →
  (length (protection t) ≤ Z.to_nat i)%nat →
  0 ≤ i →
  maintainCell g territory warfare i s = JS.Return tt s.
Proof.
  intros Ht Hw Hlen Hi.
  destruct (calculateStability_returns g i territory warfare s t w Ht Hw)
    as (r & Hrun & Hnan & _).
  unfold maintainCell, mbind, M_bind, JS.bind. rewrite Hrun.
  assert (r = None) as ->; [|done].
  apply Hnan. unfold index.
  destruct (Z.ltb_spec i 0); [lia|]. by apply lookup_ge_None.
Qed.

(** The loop visits the set bits, lowest bit first. *)
Lemma controlLoop_scan (n : nat) : ∀ fuel g t w mask count s,
  0 ≤ mask < 2 ^ Z.of_nat n → (n ≤ 31)%nat → (n < fuel)%nat →
  controlLoop fuel g t w mask count s
  = JS.forOf
      (filter (fun k => Z.testbit mask (k - count) = true) (seqZ count (Z.of_nat n)))
      (maintainCell g t w) s.
Proof.
  induction n as [|n IH]; intros fuel g t w mask count s Hmask Hn Hfuel.
  - destruct fuel as [|fuel]; [lia|]. simpl.
    assert (mask = 0) as -> by (simpl in Hmask; lia). done.
  - destruct fuel as [|fuel]; [lia|]. simpl controlLoop.
    unfold JS.truthy at 1. destruct (Z.eqb_spec mask 0) as [->|Hnz]; cbn [negb].
    + rewrite filter_none; [done|]. intros k _. by rewrite Z.bits_0.
    + unfold mbind, M_bind, JS.bind.
      assert (2 ^ Z.of_nat (S n) ≤ 2 ^ 31) as Hle by (apply Z.pow_le_mono_r; lia).
      assert (JS.sar32 mask 1 = mask / 2) as ->.
      { unfold JS.sar32. rewrite ToInt32_small by lia.
        change (Z.land 1 31) with 1. by rewrite Z.shiftr_div_pow2. }
      assert (JS.truthy (JS.and32 mask 1) = Z.testbit mask 0) as ->.
      { unfold JS.and32, JS.truthy. rewrite !ToInt32_small by lia.
        change 1 with (2 ^ 0) at 1. rewrite land_pow2_testbit by lia.
        by destruct (Z.testbit mask 0). }
      assert (∀ s', controlLoop fuel g t w (mask / 2) (count + 1) s'
                = JS.forOf
                    (filter (fun k => Z.testbit mask (k - count) = true)
                       (seqZ (Z.succ count) (Z.of_nat n)))
                    (maintainCell g t w) s') as Hrest.
      { intros s'. rewrite IH; [|split; [apply Z.div_pos; lia|] | lia | lia].
        2:{ apply Z.div_lt_upper_bound; [lia|].
            rewrite Nat2Z.inj_succ, Z.pow_succ_r in Hmask; [apply Hmask | lia]. }
        replace (count + 1) with (Z.succ count) by lia. f_equal.
        apply filter_ext_in. intros k Hk%elem_of_seqZ.
        change (mask / 2) with (mask / 2 ^ 1).
        rewrite Z.div_pow2_bits by lia.
        by replace (k - Z.succ count + 1) with (k - count) by lia. }
      rewrite Nat2Z.inj_succ, (seqZ_cons count) by lia.
      rewrite filter_cons, Z.sub_diag, Z.pred_succ.
      destruct (Z.testbit mask 0).
      * rewrite decide_True by done. cbn [JS.forOf]. unfold JS.bind.
        destruct (maintainCell g t w count s); [apply Hrest | done | done].
      * rewrite decide_False by done. apply Hrest.
Qed.

(** X15. For a gang whose bitfield of held cells has bit 31 clear, the
    upkeep visits exactly the held cells, in ascending order of the cell
    index, and runs the cell's upkeep for each: the [while] loop over the
    shifted mask is the loop over the set bits. *)
Theorem maintainControl_visits_held_cells fuel g territory warfare s t :
  TerritoryControl s !! territory = Some t →
  0 ≤ territories t < 2 ^ 31 →
  (32 ≤ fuel)%nat →
  maintainControl fuel g territory warfare s
  = JS.forOf (allyIndices (territories t)) (maintainCell g territory warfare) s.
Proof.
  intros Ht Hmask Hfuel.
  unfold maintainControl, mbind, M_bind, JS.bind, getTerritoryControl.
  rewrite Ht, (controlLoop_scan 31) by (done || lia).
  by rewrite allyIndices_filter.
Qed.

(** A mask that went negative under the signed shift stays negative. *)
Lemma controlLoop_negative fuel : ∀ g t w mask count s,
  - 2 ^ 31 ≤ mask < 0 →
  returned (controlLoop fuel g t w mask count s) = false.
Proof.
  induction fuel as [|fuel IH]; intros g t w mask count s Hmask; [done|].
  simpl controlLoop. unfold JS.truthy at 1.
  destruct (Z.eqb_spec mask 0) as [->|_]; [lia|]. cbn [negb].
  unfold mbind, M_bind, JS.bind.
  destruct ((if JS.truthy (JS.and32 mask 1)
             then maintainCell g t w count else mret tt) s); [|done|done].
  apply IH. unfold JS.sar32. rewrite ToInt32_small by lia.
  change (Z.land 1 31) with 1. rewrite Z.shiftr_div_pow2 by lia.
  change (2 ^ 1) with 2. split.
  - apply Z.div_le_lower_bound; lia.
  - apply Z.div_lt_upper_bound; lia.
Qed.

(** X16. For a gang that holds cell 31, the upkeep never returns: the mask
    turns negative under [controlMask >>= 1] and stays so, and the call
    either throws in a cell's upkeep or loops for ever. *)
Theorem maintainControl_never_returns_bit31 fuel g territory warfare s t :
  TerritoryControl s !! territory = Some t →
  2 ^ 31 ≤ territories t < 2 ^ 32 →
  returned (maintainControl fuel g territory warfare s) = false.
Proof.
  intros Ht Hmask.
  unfold maintainControl, mbind, M_bind, JS.bind, getTerritoryControl.
  rewrite Ht. destruct fuel as [|fuel]; [done|]. simpl controlLoop.
  unfold JS.truthy at 1.
  destruct (Z.eqb_spec (territories t) 0) as [Hz|_]; [lia|]. cbn [negb].
  unfold mbind, M_bind, JS.bind.
  destruct ((if JS.truthy (JS.and32 (territories t) 1)
             then maintainCell g territory warfare 0 else mret tt) s);
    [|done|done].
  apply controlLoop_negative.
  assert (JS.ToInt32 (territories t) = territories t - 2 ^ 32) as Hint.
  { unfold JS.ToInt32.
    replace (territories t + 2 ^ 31) with (territories t - 2 ^ 31 + 1 * 2 ^ 32) by lia.
    rewrite Z_mod_plus_full, Z.mod_small by lia. lia. }
  unfold JS.sar32. rewrite Hint.
  change (Z.land 1 31) with 1. rewrite Z.shiftr_div_pow2 by lia.
  change (2 ^ 1) with 2. split.
  - apply Z.div_le_lower_bound; lia.
  - apply Z.div_lt_upper_bound; lia.
Qed.

End UpkeepFacts.

Section UpkeepSamples.
Import Territory Frames Upkeep Sample SampleWar SampleUpkeep.

Lemma stability_capped_or_nan_witness :
  ∃ r, calculateStability 1 20 1 1 farCell = JS.Return r farCell
       ∧ (r = None ↔ index (protection (turf (2 ^ 20 + 1))) 20 = None)
       ∧ ∀ v, r = Some v → (v <= 1)%Q.
Proof.
  apply (stability_capped_or_nan 1 20 1 1 farCell (turf (2 ^ 20 + 1)) (force 2 0));
    reflexivity.
Defined.

Lemma upkeep_skips_cells_beyond_grid_witness :
  maintainCell 1 1 1 20 farCell = JS.Return tt farCell.
Proof.
  apply (upkeep_skips_cells_beyond_grid 1 1 1 20 farCell
           (turf (2 ^ 20 + 1)) (force 2 0));
    [reflexivity | reflexivity | vm_compute; lia | lia].
Defined.

Lemma maintainControl_visits_held_cells_witness :
  maintainControl 32 1 1 1 farCell
  = JS.forOf (allyIndices (territories (turf (2 ^ 20 + 1)))) (maintainCell 1 1 1) farCell.
Proof.
  apply maintainControl_visits_held_cells;
    [reflexivity | vm_compute; split; [discriminate | reflexivity] | lia].
Defined.

Lemma maintainControl_never_returns_bit31_witness :
  returned (maintainControl 1000 1 1 1 cell31) = false.
Proof.
  apply (maintainControl_never_returns_bit31 1000 1 1 1 cell31 (turf (2 ^ 31)));
    [reflexivity | vm_compute; split; [discriminate | reflexivity]].
Defined.

(** In the sample world the gang holds cells 0 and 20: cell 0, unprotected,
    is reinforced; cell 20 is visited and skipped. *)
Example upkeep_reinforces_cell_0_only :
  (fun s => protection <$> (TerritoryControl s !! 1%N))
    <$> JS.stateOf (maintainControl 32 1 1 1 farCell)
  = Some (Some (255 :: replicate 15 0)).
Proof. vm_compute. reflexivity. Qed.

End UpkeepSamples.

(** ** TerritorySystem: the tick *)

Section TickFacts.
Import Territory Frames Upkeep.
Context `{Territory.Hooks} `{Upkeep.Hooks}.

Lemma allyLoop_transfer s s1 g :
  (∀ k, getAllyContribution s1 g k = getAllyContribution s g k) →
  ∀ fuel mask count strength v,
    allyLoop fuel g mask count strength s = JS.Return v s →
    allyLoop fuel g mask count strength s1 = JS.Return v s1.
Proof.
  intros Hsame fuel.
  induction fuel as [|fuel IH]; intros mask count strength v; [done|].
  simpl allyLoop. destruct (JS.truthy mask).
  - unfold mbind, M_bind, JS.bind, JS.read. cbv beta. rewrite Hsame. apply IH.
  - by intros [= ->].
Qed.

Lemma calculateWarStrength_detected fuel g s s1 v :
  contributionFrame → detected s s1 →
  calculateWarStrength fuel g s = JS.Return v s →
  calculateWarStrength fuel g s1 = JS.Return v s1.
Proof.
  intros Hframe Hdet. pose proof Hdet as (_ & HTC & _ & _ & _ & HWS).
  unfold calculateWarStrength, mbind, M_bind, JS.bind,
    getWarfareState, getTerritoryControl.
  specialize (HWS g).
  destruct (WarfareState s !! g) as [w|]; [|done].
  destruct (WarfareState s1 !! g) as [w'|]; [|inversion HWS].
  assert (flagsGrow w w') as [Hsame _] by (by inversion HWS).
  rewrite HTC.
  destruct (TerritoryControl s !! g) as [t|]; [|done].
  assert (allies w' = allies w ∧ warStrength w' = warStrength w
          ∧ reputation w' = reputation w) as (-> & -> & ->).
  { rewrite <- Hsame. by destruct w'. }
  destruct (allyLoop fuel g (allies w) 0 (JS.float32 (warStrength w)) s) as [v0 s0| |] eqn:E;
    [|done|done].
  pose proof (allyLoop_leaves fuel g (allies w) 0 (JS.float32 (warStrength w)) s) as Hs0.
  rewrite E in Hs0. cbn in Hs0. subst s0.
  rewrite (allyLoop_transfer s s1 g (fun k => Hframe s s1 g k Hdet) _ _ _ _ _ E).
  by intros [= <-].
Qed.

(** X17. A tick that starts with a mature conflict at the head of the
    pending map whose parties differ in strength by more than the
    threshold does not get past resolution: detection runs, resolution
    throws the TypeError of the misspelt call, and no gang gets to expand,
    manage its conflicts or maintain its cells. *)
Theorem tick_aborts_on_decisive_conflict fuel s key c rest g1 g2 st1 st2 :
  contributionFrame →
  conflictCache s = (key, c) :: rest →
  100 < time s - lastUpdate c →
  splitKey key = (Some g1, Some g2) →
  calculateWarStrength fuel g1 s = JS.Return st1 s →
  calculateWarStrength fuel g2 s = JS.Return st2 s →
  JS.Double.gtb (JS.Double.abs (st1 - st2)%D) MIN_STRENGTH = true →
  ∃ s1, updateTerritories s = JS.Return tt s1
        ∧ update fuel s = JS.Throw (JS.TypeError "resolveTerritorialDispute") s1.
Proof.
  intros Hframe Hcache Hage Hkey H1 H2 Hgap.
  destruct (updateTerritories_detected s) as ([] & s1 & Hrun & Hdet).
  exists s1. split; [done|].
  pose proof Hdet as (Htime & _ & _ & _ & [added Hadd] & _).
  unfold update, mbind, M_bind, JS.bind, JS.read. rewrite Hrun.
  unfold resolveConflicts, mbind, M_bind, JS.bind, JS.read.
  rewrite Hadd, Hcache. cbn [app JS.keys map fst JS.forOf]. unfold JS.bind.
  rewrite (decisive_conflict_throws fuel key s1 c g1 g2 st1 st2); try done.
  - rewrite Hadd, Hcache. cbn [app JS.get]. by rewrite String.eqb_refl.
  - by rewrite Htime.
  - by apply (calculateWarStrength_detected fuel g1 s).
  - by apply (calculateWarStrength_detected fuel g2 s).
Qed.

End TickFacts.

Section TickSamples.
Import Territory Frames Upkeep Sample SampleWar SampleUpkeep.

Lemma constant_contribution_frame : contributionFrame.
Proof. done. Qed.

Lemma tick_aborts_on_decisive_conflict_witness :
  ∃ s1, updateTerritories decisive = JS.Return tt s1
        ∧ update 32 decisive = JS.Throw (JS.TypeError "resolveTerritorialDispute") s1.
Proof.
  eapply (tick_aborts_on_decisive_conflict 32 decisive (conflictKey 1 2)
            {| territory := 3; startTime := 0; lastUpdate := 0 |} [] 1 2).
  - exact constant_contribution_frame.
  - reflexivity.
  - vm_compute. reflexivity.
  - vm_compute. reflexivity.
  - vm_compute. reflexivity.
  - vm_compute. reflexivity.
  - vm_compute. reflexivity.
Defined.

End TickSamples.

(** ** ConspiracySystem: stability checks and vacuums *)

Section BitFacts.

Lemma bits_above x n j : 0 ≤ x < 2 ^ n → 0 ≤ n ≤ j → Z.testbit x j = false.
Proof.
  intros Hx Hj. rewrite <- (Z.mod_small x (2 ^ n)) by done.
  by apply Z.mod_pow2_bits_high.
Qed.

(** The bits of a signed 32-bit integer from position 31 on repeat the
    sign. *)
Lemma int32_sign x : - 2 ^ 31 ≤ x < 2 ^ 31 → Z.testbit x 32 = Z.testbit x 31.
Proof.
  intros Hx. destruct (Z_lt_ge_dec x 0) as [Hneg|Hpos].
  - assert (x = Z.lnot (Z.lnot x)) as Hx' by by rewrite Z.lnot_involutive.
    assert (0 ≤ Z.lnot x < 2 ^ 31) as Hy by (unfold Z.lnot; lia).
    revert Hx' Hy. generalize (Z.lnot x). intros y -> Hy.
    by rewrite !Z.lnot_spec, !(bits_above y 31) by lia.
  - by rewrite !(bits_above x 31) by lia.
Qed.

Lemma ToInt32_range x : - 2 ^ 31 ≤ JS.ToInt32 x < 2 ^ 31.
Proof.
  unfold JS.ToInt32. pose proof (Z.mod_pos_bound (x + 2 ^ 31) (2 ^ 32)). lia.
Qed.

(** [(m & s) === s] on two [ui32] values: every bit of [s] is a bit of [m],
    and bit 31 of [s] is clear. *)
Lemma and32_covers m sp :
  0 ≤ sp < 2 ^ 32 →
  JS.and32 m sp = sp
  ↔ Z.testbit sp 31 = false
    ∧ ∀ j, 0 ≤ j < 31 → Z.testbit sp j = true → Z.testbit m j = true.
Proof.
  intros Hsp. unfold JS.and32. split.
  - intros Heq. split.
    + destruct (Z.testbit sp 31) eqn:Hbit; [|done].
      assert (Z.testbit (Z.land (JS.ToInt32 m) (JS.ToInt32 sp)) 32 = true) as Hhigh.
      { rewrite Z.land_spec, !int32_sign by apply ToInt32_range.
        rewrite <- Z.land_spec, Heq. done. }
      rewrite Heq, (bits_above sp 32) in Hhigh by lia. done.
    + intros j Hj Hset.
      assert (Z.testbit (Z.land (JS.ToInt32 m) (JS.ToInt32 sp)) j = true) as Hboth
        by by rewrite Heq.
      rewrite Z.land_spec, ToInt32_testbit in Hboth by lia.
      by apply andb_true_iff in Hboth as [? _].
  - intros [Hbit Hcover]. apply bit31_clear in Hbit; [|done].
    rewrite (ToInt32_small sp) by lia.
    apply Z.bits_inj'. intros j Hj. rewrite Z.land_spec.
    destruct (Z.testbit sp j) eqn:Hset; [|apply andb_false_r].
    destruct (Z_lt_ge_dec j 31) as [Hlow|Hhigh].
    + rewrite ToInt32_testbit by lia. by rewrite Hcover by (done || lia).
    + rewrite (bits_above sp 31) in Hset by lia. done.
Qed.

Lemma ltb_spec x y : JS.ltb x y = true ↔ (x < y)%Q.
Proof.
  unfold JS.ltb. rewrite negb_true_iff. split.
  - intros Hle. apply Qnot_le_lt. intros Hyx.
    apply Qle_bool_iff in Hyx. congruence.
  - intros Hlt. destruct (Qle_bool y x) eqn:Hle; [|done].
    apply Qle_bool_iff in Hle. by apply Qle_not_lt in Hle.
Qed.

Lemma ltb_false x y : JS.ltb x y = false ↔ (y <= x)%Q.
Proof.
  unfold JS.ltb. rewrite negb_false_iff. apply Qle_bool_iff.
Qed.

End BitFacts.

Section StabilityCheck.
Import Conspiracy Hierarchy.
Context `{Conspiracy.Hooks} `{Hierarchy.Hooks}.

(** X18. For an agent whose rows exist, the quick check reads and writes
    nothing, and answers "no check needed" exactly when every supporter
    bit below 31 is also a membership bit, bit 31 of [supporters] is clear
    and the stability factor is at least 0.3.  A supporter in bit 31
    always triggers the check, member or not: [&] gives a signed number
    and [!==] compares it with the unsigned column. *)
Theorem needsStabilityCheck_spec conspiracy power s c p :
  ConspiracyState s !! conspiracy = Some c →
  PowerStructure s !! power = Some p →
  0 ≤ supporters p < 2 ^ 32 →
  ∃ b, needsStabilityCheck conspiracy power s = JS.Return b s
       ∧ (b = false
          ↔ Z.testbit (supporters p) 31 = false
            ∧ (∀ j, 0 ≤ j < 31 → Z.testbit (supporters p) j = true →
                    Z.testbit (membershipFlags c) j = true)
            ∧ (STABILITY_THRESHOLD <= stabilityFactor p)%Q).
Proof.
  intros Hc Hp Hsp.
  unfold needsStabilityCheck, mbind, M_bind, JS.bind,
    getConspiracyState, getPowerStructure.
  rewrite Hc, Hp. eexists. split; [reflexivity|].
  rewrite orb_false_iff, negb_false_iff, Z.eqb_eq, ltb_false.
  rewrite and32_covers by done. tauto.
Qed.

End StabilityCheck.

Section SortByOrder.
Context {A : Type} (compare : A → A → Q) (before : A → A → Prop).
Hypothesis after_spec : ∀ x y, JS.gtb (compare x y) 0 = true → before y x.
Hypothesis before_spec : ∀ x y, JS.gtb (compare x y) 0 = false → before x y.
Hypothesis before_trans : ∀ x y z, before x y → before y z → before x z.

Lemma insert_permutation x l : JS.insert compare x l ≡ₚ x :: l.
Proof using Type.
  induction l as [|y l IH]; [done|]. cbn [JS.insert].
  destruct (JS.gtb (compare x y) 0); [|done].
  by rewrite IH, Permutation_swap.
Qed.

Lemma sort_permutation l : JS.sort compare l ≡ₚ l.
Proof using Type.
  induction l as [|x l IH]; [done|]. unfold JS.sort. cbn [fold_right].
  rewrite insert_permutation. by constructor.
Qed.

Lemma insert_ordered x l :
  StronglySorted before l → StronglySorted before (JS.insert compare x l).
Proof using after_spec before_spec before_trans.
  induction 1 as [|y l Hsorted IH Hall]; cbn [JS.insert].
  - repeat constructor.
  - destruct (JS.gtb (compare x y) 0) eqn:Hcmp.
    + constructor; [done|].
      rewrite insert_permutation. constructor; [by apply after_spec | done].
    + constructor; [by constructor|]. constructor; [by apply before_spec|].
      eapply Forall_impl; [done|]. intros z Hz. cbn.
      eapply before_trans; [by apply before_spec | done].
Qed.

Lemma sort_ordered l : StronglySorted before (JS.sort compare l).
Proof using after_spec before_spec before_trans.
  induction l as [|x l IH]; [constructor|]. by apply insert_ordered.
Qed.

End SortByOrder.

Section Vacuums.
Import Conspiracy Hierarchy Frames.
Context `{Conspiracy.Hooks}.

Lemma detectPowerVacuums_loop s : ∀ agents acc,
  (∀ a, a ∈ agents → is_Some (PowerStructure s !! a)) →
  ∃ vs,
    JS.forOfAcc agents acc (fun vacuums agent =>
      power ← getPowerStructure agent;
      if (0 <? leaderPosition power) && JS.ltb (stabilityFactor power) (2 # 10) then
        mret (vacuums ++ [{| position := leaderPosition power; agent := agent;
                             severity := 1 - stabilityFactor power |}])
      else mret vacuums) s
    = JS.Return (acc ++ vs) s
    ∧ agent <$> vs = filter (fun a => unstable s a = true) agents
    ∧ Forall (fun v =>
        ∃ p, PowerStructure s !! agent v = Some p
             ∧ position v = leaderPosition p
             ∧ severity v = (1 - stabilityFactor p)%Q
             ∧ 0 < position v
             ∧ (8 # 10 < severity v)%Q) vs.
Proof.
  induction agents as [|a agents IH]; intros acc Hrows.
  - exists []. by rewrite app_nil_r.
  - destruct (Hrows a) as [p Hp]; [by left|].
    rewrite filter_cons.
    match goal with |- context [JS.forOfAcc (a :: agents) _ ?b] => set (body := b) end.
    cbn [JS.forOfAcc].
    assert (unstable s a
            = (0 <? leaderPosition p) && JS.ltb (stabilityFactor p) (2 # 10)) as Hun
      by (unfold unstable; by rewrite Hp).
    assert (body acc a s
            = JS.Return
                (if (0 <? leaderPosition p) && JS.ltb (stabilityFactor p) (2 # 10)
                 then acc ++ [{| position := leaderPosition p; agent := a;
                                 severity := 1 - stabilityFactor p |}]
                 else acc) s) as Hstep.
    { unfold body, mbind, M_bind, JS.bind, getPowerStructure. rewrite Hp.
      by destruct ((0 <? leaderPosition p) && JS.ltb (stabilityFactor p) (2 # 10)). }
    unfold JS.bind. rewrite Hstep. subst body.
    destruct ((0 <? leaderPosition p) && JS.ltb (stabilityFactor p) (2 # 10))
      eqn:Hcond.
    + destruct (IH (acc ++ [{| position := leaderPosition p; agent := a;
                               severity := 1 - stabilityFactor p |}]))
        as (vs & Hrun & Hagents & Hall); [intros; apply Hrows; by right|].
      eexists (_ :: vs). split; [|split].
      * rewrite Hrun. by rewrite <- (assoc_L (++)).
      * rewrite decide_True by by rewrite Hun. cbn. by rewrite Hagents.
      * constructor; [|done]. exists p. cbn.
        apply andb_true_iff in Hcond as [Hpos Hlow].
        apply Z.ltb_lt in Hpos. apply ltb_spec in Hlow.
        repeat split; try done. lra.
    + destruct (IH acc) as (vs & Hrun & Hagents & Hall);
        [intros; apply Hrows; by right|].
      exists vs. split; [|split]; try done.
      rewrite decide_False by (by rewrite Hun). done.
Qed.

(** X19. Over agents that all have a [PowerStructure] row, vacuum
    detection writes nothing and reports, in query order, exactly the
    agents that hold a rank above 0 with a stability factor below 0.2;
    each report carries the agent's rank and one minus its stability, so
    every reported severity is above 0.8. *)
Theorem detectPowerVacuums_spec agents s :
  (∀ a, a ∈ agents → is_Some (PowerStructure s !! a)) →
  ∃ vs,
    detectPowerVacuums agents s = JS.Return vs s
    ∧ agent <$> vs = filter (fun a => unstable s a = true) agents
    ∧ Forall (fun v =>
        ∃ p, PowerStructure s !! agent v = Some p
             ∧ position v = leaderPosition p
             ∧ severity v = (1 - stabilityFactor p)%Q
             ∧ 0 < position v
             ∧ (8 # 10 < severity v)%Q) vs.
Proof.
  intros Hrows.
  destruct (detectPowerVacuums_loop s agents [] Hrows) as (vs & Hrun & Hfacts).
  exists vs. split; [exact Hrun | exact Hfacts].
Qed.

Lemma bySeverity_after (x y : Vacuum) :
  JS.gtb (if Qeq_bool (severity y - severity x) 0
          then inject_Z (position y - position x)
          else (severity y - severity x)%Q) 0 = true →
  bySeverity y x.
Proof.
  intros Hgt%gtb_spec. unfold bySeverity.
  destruct (Qeq_bool (severity y - severity x) 0) eqn:Heq.
  - apply Qeq_bool_iff in Heq. right. split; [lra|].
    change 0%Q with (inject_Z 0) in Hgt. rewrite <- Zlt_Qlt in Hgt. lia.
  - left. lra.
Qed.

Lemma bySeverity_before (x y : Vacuum) :
  JS.gtb (if Qeq_bool (severity y - severity x) 0
          then inject_Z (position y - position x)
          else (severity y - severity x)%Q) 0 = false →
  bySeverity x y.
Proof.
  intros Hle. unfold bySeverity.
  assert (∀ q, JS.gtb q 0 = false → (q <= 0)%Q) as Hnot.
  { intros q Hq. unfold JS.gtb in Hq. apply negb_false_iff in Hq.
    by apply Qle_bool_iff. }
  apply Hnot in Hle.
  destruct (Qeq_bool (severity y - severity x) 0) eqn:Heq.
  - apply Qeq_bool_iff in Heq. right. split; [lra|].
    change 0%Q with (inject_Z 0) in Hle. rewrite <- Zle_Qle in Hle. lia.
  - apply Qeq_bool_neq in Heq. left.
    destruct (Qlt_le_dec (severity y) (severity x)) as [|Hge]; [done|].
    exfalso. apply Heq. lra.
Qed.

Lemma bySeverity_trans (x y z : Vacuum) :
  bySeverity x y → bySeverity y z → bySeverity x z.
Proof.
  unfold bySeverity. intros [Hxy|[Hxy Hp]] [Hyz|[Hyz Hq]].
  - left. lra.
  - left. lra.
  - left. lra.
  - right. split; [lra | lia].
Qed.

(** X20. Vacuums are handled one after the other in order of falling
    severity and, at equal severity, of falling position: the list the
    loop runs over is a rearrangement of the vacuums given, sorted that
    way. *)
Theorem handlePowerVacuums_order vacuums agents s :
  ∃ order,
    handlePowerVacuums vacuums agents s
    = JS.forOf order (handlePowerVacuum agents) s
    ∧ order ≡ₚ vacuums
    ∧ StronglySorted bySeverity order.
Proof.
  eexists. split; [reflexivity|]. split.
  - apply sort_permutation.
  - apply sort_ordered.
    + apply bySeverity_after.
    + apply bySeverity_before.
    + apply bySeverity_trans.
Qed.

End Vacuums.

Section CrisisFacts.
Import Conspiracy Hierarchy Frames.
Context `{Conspiracy.Hooks}.

Lemma leaves_bind {S A B} (R : S → S → Prop) (m : JS.M S A) (f : A → JS.M S B) s :
  (∀ s1 s2 s3, R s1 s2 → R s2 s3 → R s1 s3) →
  leaves (m s) (R s) →
  (∀ a s1, leaves (f a s1) (R s1)) →
  leaves (JS.bind m f s) (R s).
Proof.
  intros Htrans Hm Hf. unfold JS.bind.
  destruct (m s) as [a s1|e s1|]; [|done|done].
  unfold leaves in *. cbn in Hm. specialize (Hf a s1).
  destruct (JS.stateOf (f a s1)); [|done]. by eapply Htrans.
Qed.

Lemma leaves_get_conspiracy e s (R : System → System → Prop) :
  (∀ s, R s s) → leaves (getConspiracyState e s) (R s).
Proof.
  intros Hrefl. unfold getConspiracyState.
  destruct (ConspiracyState s !! e); apply Hrefl.
Qed.

Lemma initiateSuccessionCrisis_leaves vacuum successors s :
  allocationFrame →
  leaves (initiateSuccessionCrisis vacuum successors s)
    (fun s' => PowerStructure s' = PowerStructure s).
Proof.
  intros Hframe. unfold initiateSuccessionCrisis, mbind, M_bind.
  pose (R := fun s s' : System => PowerStructure s' = PowerStructure s).
  assert (∀ s, R s s) as Hrefl by done.
  assert (∀ s1 s2 s3, R s1 s2 → R s2 s3 → R s1 s3) as Htrans
    by (unfold R; congruence).
  apply (leaves_bind R); [done | apply Hrefl|]. intros s0 s1.
  apply (forOf_leaves R); [done | done|]. intros faction s2.
  apply (leaves_bind R); [done | by apply leaves_get_conspiracy|]. intros _ s3.
  apply (leaves_bind R); [done | apply Hframe|]. intros bit s4.
  apply (leaves_bind R); [done | done|]. intros _ s5.
  apply (leaves_bind R); [done | done|]. intros _ s6.
  apply (leaves_bind R); [done | done|]. intros _ s7.
  apply (forOf_leaves R); [done | done|]. intros supporter s8.
  apply (leaves_bind R); [done | by apply leaves_get_conspiracy|]. intros _ s9.
  done.
Qed.

(** X21. When a vacuum has at least one viable successor, handling it
    opens a succession crisis and changes no power structure: however the
    call ends, nobody is demoted or promoted and no stability factor moves,
    provided [allocateConspiracyBit] leaves the power structures alone.
    The row that made the vacuum is therefore as unstable as before. *)
Theorem crisis_leaves_power_structures vacuum agents s successors :
  allocationFrame →
  findViableSuccessors vacuum agents s = JS.Return successors s →
  (0 < length successors)%nat →
  leaves (handlePowerVacuum agents vacuum s)
    (fun s' => PowerStructure s' = PowerStructure s).
Proof.
  intros Hframe Hfind Hsome.
  unfold handlePowerVacuum, mbind, M_bind, JS.bind. rewrite Hfind.
  assert ((0 <? Z.of_nat (length successors)) = true) as ->
    by (apply Z.ltb_lt; lia).
  by apply initiateSuccessionCrisis_leaves.
Qed.

End CrisisFacts.

Section CollapseFailure.
Import Conspiracy Hierarchy Frames.
Context `{Conspiracy.Hooks}.

Lemma forOf_app {S A} (body : A → JS.M S unit) (xs ys : list A) (s : S) :
  JS.forOf (xs ++ ys) body s
  = JS.bind (JS.forOf xs body) (fun _ => JS.forOf ys body) s.
Proof.
  revert s. induction xs as [|x xs IH]; intros s; [done|].
  cbn [app JS.forOf]. unfold JS.bind in *.
  destruct (body x s); [apply IH | done | done].
Qed.

(** The loop of [handlePowerCollapse] over agents that have their rows. *)
Lemma collapse_loop s0 (l : list N) :
  realignmentFrame →
  NoDup l →
  (∀ a, a ∈ l → is_Some (PowerStructure s0 !! a) ∧ is_Some (ConspiracyState s0 !! a)) →
  returns
    (JS.forOf l (fun agent =>
       _ ← getPowerStructure agent;
       _ ← getConspiracyState agent;
       setPowerStructure agent (fun p =>
         with_leaderPosition (JS.ToUint8 (Z.max 0 (leaderPosition p - 1))) p);;
       setPowerStructure agent (fun p =>
         with_stabilityFactor (stabilityFactor p * (5 # 10))%Q p);;
       forceConspiracyRealignment agent agent agent)) s0
    (fun _ s' =>
       (∀ a p, a ∈ l → PowerStructure s0 !! a = Some p →
               PowerStructure s' !! a = Some (collapsed p))
       ∧ (∀ a, a ∉ l → PowerStructure s' !! a = PowerStructure s0 !! a)
       ∧ (∀ e, is_Some (ConspiracyState s' !! e) ↔ is_Some (ConspiracyState s0 !! e))).
Proof.
  intros Hframe Hnd Hrows.
  apply (returns_forOf
           (fun seen s' =>
              (∀ a p, a ∈ seen → PowerStructure s0 !! a = Some p →
                      PowerStructure s' !! a = Some (collapsed p))
              ∧ (∀ a, a ∉ seen → PowerStructure s' !! a = PowerStructure s0 !! a)
              ∧ (∀ e, is_Some (ConspiracyState s' !! e)
                      ↔ is_Some (ConspiracyState s0 !! e)))
           l _ []).
  - split; [|split]; try done. intros a p Hin. by apply elem_of_nil in Hin.
  - simpl. intros seen a rest s' Heq _ (Hseen & Hother & Hcs).
    rewrite Heq in Hnd. apply NoDup_app in Hnd as (_ & Hdisj & _).
    assert (a ∉ seen) as Ha by (intros Hin; apply (Hdisj a Hin); by left).
    assert (a ∈ l) as Hin by (rewrite Heq; apply elem_of_app; right; by left).
    destruct (Hrows a Hin) as [[p Hp] Hc].
    apply Hcs in Hc as [c Hc].
    pose proof (Hother a Ha) as Hp'. rewrite Hp in Hp'.
    apply returns_bind. exists p, s'. split.
    { unfold getPowerStructure. by rewrite Hp'. }
    apply returns_bind. exists c, s'. split.
    { unfold getConspiracyState. by rewrite Hc. }
    apply returns_bind, returns_modify.
    apply returns_bind, returns_modify.
    match goal with |- returns _ ?st _ => destruct (Hframe a a a st)
      as (s'' & Hrun & Hps & Hcs') end.
    exists tt, s''. split; [done|]. simpl in Hps, Hcs'.
    split; [|split].
    + intros b q [Hb|Hb%list_elem_of_singleton]%elem_of_app Hq.
      * rewrite Hps, !lookup_alter_ne by (intros ->; done). by apply Hseen.
      * subst b. rewrite Hps, !lookup_alter_eq, Hp'. simpl.
        rewrite Hp in Hq. by injection Hq as <-.
    + intros b Hb. rewrite Hps.
      rewrite !lookup_alter_ne.
      * apply Hother. intros Hin'. apply Hb, elem_of_app. by left.
      * intros ->. apply Hb, elem_of_app. right. by apply list_elem_of_singleton.
      * intros ->. apply Hb, elem_of_app. right. by apply list_elem_of_singleton.
    + intros e. by rewrite Hcs'.
Qed.

(** X22. A power collapse is not atomic.  When an affected agent lacks its
    [PowerStructure] or [ConspiracyState] row, the call throws
    MissingComponent at that agent, and the agents listed before it have
    already been demoted: their rows in the state the call leaves are the
    collapsed ones.  ([forceConspiracyRealignment] is assumed to leave the
    power structures alone.) *)
Theorem collapse_fails_half_way vacuum agents s before missing after :
  realignmentFrame →
  findAffectedAgents s vacuum agents = before ++ missing :: after →
  NoDup before →
  (∀ a, a ∈ before →
        is_Some (PowerStructure s !! a) ∧ is_Some (ConspiracyState s !! a)) →
  PowerStructure s !! missing = None ∨ ConspiracyState s !! missing = None →
  ∃ s', handlePowerCollapse vacuum agents s = JS.Throw JS.MissingComponent s'
        ∧ (∀ a p, a ∈ before → PowerStructure s !! a = Some p →
                  PowerStructure s' !! a = Some (collapsed p))
        ∧ (∀ a, a ∉ before → PowerStructure s' !! a = PowerStructure s !! a).
Proof.
  intros Hframe Haff Hnd Hrows Hmissing.
  destruct (collapse_loop s before Hframe Hnd Hrows)
    as ([] & s' & Hrun & Hdone & Hother & Hcs).
  exists s'. split; [|done].
  unfold handlePowerCollapse, mbind, M_bind. unfold JS.bind at 1, JS.read at 1.
  rewrite Haff, forOf_app. unfold JS.bind at 1.
  unfold mbind, M_bind in Hrun. rewrite Hrun.
  cbn [JS.forOf]. unfold JS.bind, getPowerStructure, getConspiracyState.
  assert (missing ∉ before) as Hnot.
  { intros Hin. destruct (Hrows _ Hin) as [[p Hp] [c Hc]].
    destruct Hmissing; congruence. }
  rewrite (Hother _ Hnot).
  destruct (PowerStructure s !! missing) as [p|]; [|done].
  destruct Hmissing as [|Hc]; [done|].
  destruct (ConspiracyState s' !! missing) as [c|] eqn:Hc'; [|done].
  assert (is_Some (ConspiracyState s !! missing)) as [? ?] by (apply Hcs; eauto).
  congruence.
Qed.

End CollapseFailure.

Section CacheKeys.
Import Conspiracy Hierarchy Frames.
Context `{Conspiracy.Hooks}.

(** The cache key of the conspiracy status, [`${agent}_${flags}`],
    tells apart agents and flag sets: two keys are equal only for the same
    agent and the same (non-negative) membership flags. *)
Lemma status_cache_key_injective agent flags agent' flags' :
  0 ≤ flags → 0 ≤ flags' →
  cacheKey agent flags = cacheKey agent' flags' ↔ agent = agent' ∧ flags = flags'.
Proof.
  intros Hf Hf'. split.
  - intros [-> Heq]%pair_key_inj. split; [done|]. lia.
  - by intros [-> ->].
Qed.

(** X23. A status lookup for an agent that has its row returns and keeps
    the cache at one entry per key: the entries under every other key are
    untouched, the key of the lookup keeps its place if it was present and
    goes last if it was not, and no entry is ever removed.  The clock and
    the component rows are not written. *)
Theorem status_cache_one_entry_per_key agent conspiracy power s row :
  ConspiracyState s !! conspiracy = Some row →
  ∃ v s',
    updateConspiracyStatus agent conspiracy power s = JS.Return v s'
    ∧ JS.keys (conspiracyCache s')
      = (if JS.has (cacheKey agent (membershipFlags row)) (conspiracyCache s)
         then JS.keys (conspiracyCache s)
         else JS.keys (conspiracyCache s) ++ [cacheKey agent (membershipFlags row)])
    ∧ (∀ k, k ≠ cacheKey agent (membershipFlags row) →
            JS.get k (conspiracyCache s') = JS.get k (conspiracyCache s))
    ∧ time s' = time s
    ∧ ConspiracyState s' = ConspiracyState s
    ∧ PowerStructure s' = PowerStructure s.
Proof.
  intros Hrow.
  destruct (JS.get (cacheKey agent (membershipFlags row)) (conspiracyCache s))
    as [entry|] eqn:Hget.
  - assert (JS.has (cacheKey agent (membershipFlags row)) (conspiracyCache s) = true)
      as Hhas by (apply Map_has_get; eauto).
    rewrite Hhas.
    destruct (Z_lt_ge_dec (time s - timestamp entry) 100) as [Hfresh|Hstale].
    + exists (status entry), s. split; [|done].
      by apply (updateConspiracyStatus_hit agent conspiracy power s row entry).
    + destruct (updateConspiracyStatus_compute agent conspiracy power s row Hrow)
        as (s' & Hrun & _ & Hcache & Ht & Hcs & Hps).
      { intros entry' Hentry'. rewrite Hget in Hentry'. injection Hentry' as <-. lia. }
      eexists _, s'. split; [done|]. rewrite Hcache. split; [|split; [|done]].
      * apply Map_keys_set_present. eauto.
      * intros k Hk. by apply Map_get_set_ne.
  - assert (JS.has (cacheKey agent (membershipFlags row)) (conspiracyCache s) = false)
      as Hhas by by apply Map_has_false.
    rewrite Hhas.
    destruct (updateConspiracyStatus_compute agent conspiracy power s row Hrow)
      as (s' & Hrun & _ & Hcache & Ht & Hcs & Hps).
    { intros entry' Hentry'. congruence. }
    eexists _, s'. split; [done|]. rewrite Hcache. split; [|split; [|done]].
    + rewrite Map_set_fresh by done. unfold JS.keys. by rewrite map_app.
    + intros k Hk. by apply Map_get_set_ne.
Qed.

End CacheKeys.

(** ** ConspiracySystem: the hierarchy update *)

Section NumberMapFacts.
Import Hierarchy.
Context {K V : Type} `{EqDecision K}.
Implicit Types (m : list (K * V)).

Lemma get_set_eq k v m : get k (set k v m) = Some v.
Proof.
  induction m as [|[k' v'] m IH]; cbn.
  - by rewrite decide_True.
  - destruct (decide (k = k')) as [->|Hne]; cbn.
    + by rewrite decide_True.
    + by rewrite decide_False.
Qed.

Lemma get_set_ne k k' v m : k ≠ k' → get k' (set k v m) = get k' m.
Proof.
  intros Hne. induction m as [|[k0 v0] m IH]; cbn.
  - by rewrite decide_False.
  - destruct (decide (k = k0)) as [->|Hne0]; cbn.
    + by rewrite !decide_False.
    + destruct (decide (k' = k0)); [done | apply IH].
Qed.

Lemma get_keys k m : is_Some (get k m) ↔ k ∈ keys m.
Proof.
  induction m as [|[k' v'] m IH]; cbn.
  - split; [by intros [? ?] | by intros ?%elem_of_nil].
  - destruct (decide (k = k')) as [->|Hne].
    + split; [intros _; by left | eauto].
    + rewrite IH. split; [by right|]. by intros [?|?]%elem_of_cons.
Qed.

Lemma keys_set_present k v m : k ∈ keys m → keys (set k v m) = keys m.
Proof.
  induction m as [|[k' v'] m IH]; cbn; [by intros ?%elem_of_nil|].
  intros Hin. destruct (decide (k = k')) as [->|Hne]; cbn; [done|].
  f_equal. apply IH. by apply elem_of_cons in Hin as [?|?].
Qed.

Lemma keys_set_fresh k v m : k ∉ keys m → keys (set k v m) = keys m ++ [k].
Proof.
  induction m as [|[k' v'] m IH]; cbn; [done|].
  intros Hnot. destruct (decide (k = k')) as [->|Hne]; cbn.
  - exfalso. apply Hnot. by left.
  - f_equal. apply IH. intros Hin. apply Hnot. by right.
Qed.

Lemma keys_set_NoDup k v m : NoDup (keys m) → NoDup (keys (set k v m)).
Proof.
  intros Hnd. destruct (decide (k ∈ keys m)) as [Hin|Hnot].
  - by rewrite keys_set_present.
  - rewrite keys_set_fresh by done. apply NoDup_app. split; [done|]. split.
    + intros x Hx ->%list_elem_of_singleton. done.
    + apply NoDup_singleton.
Qed.

Lemma elem_get k v m : NoDup (keys m) → (k, v) ∈ m → get k m = Some v.
Proof.
  induction m as [|[k' v'] m IH]; cbn; [by intros _ ?%elem_of_nil|].
  intros [Hnot Hnd]%NoDup_cons [[= -> ->]|Hin]%elem_of_cons.
  - by rewrite decide_True.
  - destruct (decide (k = k')) as [->|Hne]; [|by apply IH].
    exfalso. apply Hnot. apply (list_elem_of_fmap_2 fst _ (k', v)). done.
Qed.

End NumberMapFacts.

Section LevelFacts.
Import Conspiracy Hierarchy Frames.
Context `{Conspiracy.Hooks} `{Hierarchy.Hooks}.

(** The shifts collected for the agents of a level: one entry per agent. *)
Lemma collected_shifts (f : N → Q) : ∀ (l seen : list N) (acc : list (N * Q)),
  NoDup (keys acc) →
  (∀ a, get a acc = if decide (a ∈ seen) then Some (f a) else None) →
  NoDup (keys (fold_left (fun acc a => set a (f a) acc) l acc))
  ∧ ∀ a, get a (fold_left (fun acc a => set a (f a) acc) l acc)
         = if decide (a ∈ seen ++ l) then Some (f a) else None.
Proof.
  induction l as [|x l IH]; intros seen acc Hnd Hget; cbn [fold_left].
  - by rewrite app_nil_r.
  - destruct (IH (seen ++ [x]) (set x (f x) acc)) as [Hnd' Hget'].
    + by apply keys_set_NoDup.
    + intros a. destruct (decide (a = x)) as [->|Hne].
      * rewrite get_set_eq, decide_True; [done|].
        apply elem_of_app. right. by left.
      * rewrite get_set_ne, Hget by done.
        destruct (decide (a ∈ seen)) as [Hin|Hnot].
        -- rewrite decide_True; [done|]. apply elem_of_app. by left.
        -- rewrite decide_False; [done|].
           intros [?|?%list_elem_of_singleton]%elem_of_app; done.
    + split; [done|]. intros a. rewrite Hget'.
      by rewrite <- (assoc_L (++)).
Qed.

(** X24. The shifts of a level are applied atomically: for agents that all
    have a [PowerStructure] row, every shift is computed from the state at
    entry, before any is applied, and then each listed agent's power base
    is raised by its shift exactly once, also when the agent is listed
    twice.  Nothing else is written. *)
Theorem updateHierarchyLevel_atomic levelAgents s :
  (∀ a, a ∈ levelAgents → is_Some (PowerStructure s !! a)) →
  ∃ s', updateHierarchyLevel levelAgents s = JS.Return tt s'
    ∧ (∀ a, PowerStructure s' !! a
            = if decide (a ∈ levelAgents)
              then (fun p => with_powerBase
                               (powerBase p + calculatePowerShift s a a)%Q p)
                     <$> PowerStructure s !! a
              else PowerStructure s !! a)
    ∧ ConspiracyState s' = ConspiracyState s
    ∧ conspiracyCache s' = conspiracyCache s
    ∧ time s' = time s.
Proof.
  intros Hrows.
  destruct (collected_shifts (fun a => calculatePowerShift s a a) levelAgents [] [])
    as [Hnd Hget]; [constructor | done|].
  cbn [app] in Hget.
  set (shifts := fold_left (fun acc a => set a (calculatePowerShift s a a) acc)
                   levelAgents []) in *.
  unfold updateHierarchyLevel, mbind, M_bind. unfold JS.bind at 1.
  rewrite (forOfAcc_pure (fun acc a => set a (calculatePowerShift s a a) acc)).
  2:{ intros acc a Ha. destruct (Hrows a Ha) as [p Hp].
      unfold JS.bind, getPowerStructure, JS.read. by rewrite Hp. }
  fold shifts.
  enough (returns
            (JS.forOf shifts (fun '(agent, shift) =>
               JS.bind (getPowerStructure agent) (fun _ =>
                 setPowerStructure agent (fun p =>
                   with_powerBase (powerBase p + shift)%Q p)))) s
            (fun _ s' =>
               (∀ a, PowerStructure s' !! a
                     = if decide (a ∈ keys shifts)
                       then (fun p => with_powerBase
                                        (powerBase p + calculatePowerShift s a a)%Q p)
                              <$> PowerStructure s !! a
                       else PowerStructure s !! a)
               ∧ ConspiracyState s' = ConspiracyState s
               ∧ conspiracyCache s' = conspiracyCache s
               ∧ time s' = time s)) as ([] & s' & Hrun & Hps & Hrest).
  { exists s'. split; [done|]. split; [|done]. intros a. rewrite Hps.
    destruct (decide (a ∈ levelAgents)) as [Hin|Hnot].
    - rewrite decide_True; [done|]. apply get_keys. rewrite Hget.
      rewrite decide_True by done. eauto.
    - rewrite decide_False; [done|]. intros Hin%get_keys.
      rewrite Hget, decide_False in Hin by done. by destruct Hin. }
  eapply returns_weaken.
  - apply (returns_forOf
             (fun seen s' =>
                (∀ a, PowerStructure s' !! a
                      = if decide (a ∈ keys seen)
                        then (fun p => with_powerBase
                                         (powerBase p + calculatePowerShift s a a)%Q p)
                               <$> PowerStructure s !! a
                        else PowerStructure s !! a)
                ∧ ConspiracyState s' = ConspiracyState s
                ∧ conspiracyCache s' = conspiracyCache s
                ∧ time s' = time s)
             shifts _ []).
    + done.
    + cbn [app]. intros seen [a v] rest s' Heq _ (Hps & Hcs & Hcache & Ht).
      assert ((a, v) ∈ shifts) as Hin
        by (rewrite Heq; apply elem_of_app; right; by left).
      assert (v = calculatePowerShift s a a) as ->.
      { apply (elem_get a v shifts Hnd) in Hin. rewrite Hget in Hin.
        destruct (decide (a ∈ levelAgents)); congruence. }
      assert (a ∈ levelAgents) as Ha.
      { apply (elem_get a _ shifts Hnd) in Hin. rewrite Hget in Hin.
        by destruct (decide (a ∈ levelAgents)). }
      assert (a ∉ keys seen) as Hfresh.
      { unfold keys in Hnd. rewrite Heq, map_app in Hnd.
        apply NoDup_app in Hnd as (_ & Hdisj & _).
        intros Hseen. apply (Hdisj a Hseen). by left. }
      destruct (Hrows a Ha) as [p Hp].
      apply (returns_bind (S := System)). exists p, s'. split.
      { unfold getPowerStructure. by rewrite Hps, decide_False, Hp. }
      apply returns_modify. cbn. split; [|done].
      intros b.
      assert (keys (seen ++ [(a, calculatePowerShift s a a)]) = keys seen ++ [a])
        as -> by (unfold keys; by rewrite map_app).
      destruct (decide (b = a)) as [->|Hne].
      * rewrite lookup_alter_eq, Hps, decide_False by done.
        rewrite decide_True; [done|]. apply elem_of_app. right. by left.
      * rewrite lookup_alter_ne, Hps by done.
        destruct (decide (b ∈ keys seen)) as [Hb|Hb].
        -- rewrite decide_True; [done|]. apply elem_of_app. by left.
        -- rewrite decide_False; [done|].
           intros [?|?%list_elem_of_singleton]%elem_of_app; done.
  - cbn [app]. by intros [] s' ?.
Qed.

End LevelFacts.

Section GroupingFacts.
Import Conspiracy Hierarchy Frames.
Context `{Conspiracy.Hooks} `{Hierarchy.Hooks}.

Lemma forOf_ext {S A} (f g : A → JS.M S unit) : ∀ xs s,
  (∀ x s', x ∈ xs → f x s' = g x s') →
  JS.forOf xs f s = JS.forOf xs g s.
Proof.
  induction xs as [|x xs IH]; intros s Hfg; [done|].
  cbn [JS.forOf]. unfold JS.bind. rewrite Hfg by by left.
  destruct (g x s); [|done|done].
  apply IH. intros y s' Hy. apply Hfg. by right.
Qed.

Lemma sorted_strict (l : list Z) :
  StronglySorted (fun a b => b ≤ a) l → NoDup l →
  StronglySorted (fun a b => b < a) l.
Proof.
  induction 1 as [|x l Hsorted IH Hall]; intros Hnd; [constructor|].
  apply NoDup_cons in Hnd as [Hnot Hnd]. constructor; [by apply IH|].
  rewrite Forall_forall in Hall. apply Forall_forall. intros y Hy.
  specialize (Hall y Hy). cbn in Hall.
  assert (y ≠ x) by (by intros ->). lia.
Qed.

(** The groups built by the first loop of [updatePowerStructures]: one
    entry per rank, holding the agents of that rank in query order. *)
Lemma grouped_levels (lvl : N → Z) : ∀ (l seen : list N) (acc : list (Z * list N)),
  NoDup (keys acc) →
  (∀ k, get k acc = if decide (k ∈ lvl <$> seen)
                    then Some (filter (fun a => lvl a = k) seen) else None) →
  let groups :=
    fold_left (fun acc a =>
      let acc' := if negb (has (lvl a) acc) then set (lvl a) [] acc else acc in
      set (lvl a) (default [] (get (lvl a) acc') ++ [a]) acc') l acc in
  NoDup (keys groups)
  ∧ ∀ k, get k groups = if decide (k ∈ lvl <$> (seen ++ l))
                        then Some (filter (fun a => lvl a = k) (seen ++ l)) else None.
Proof.
  induction l as [|x l IH]; intros seen acc Hnd Hget; cbn [fold_left].
  - cbn zeta. by rewrite app_nil_r.
  - cbn zeta.
    set (acc' := if negb (has (lvl x) acc) then set (lvl x) [] acc else acc).
    assert (NoDup (keys acc')
            ∧ get (lvl x) acc' = Some (filter (fun a => lvl a = lvl x) seen)
            ∧ ∀ k, k ≠ lvl x → get k acc' = get k acc) as (Hnd' & Hx & Hother).
    { unfold acc', has. rewrite Hget.
      destruct (decide (lvl x ∈ lvl <$> seen)) as [Hin|Hnot]; cbn [negb].
      - by rewrite Hget, decide_True.
      - split; [by apply keys_set_NoDup|]. split.
        + rewrite get_set_eq. f_equal. symmetry. apply filter_none.
          intros a Ha Heq. apply Hnot. rewrite <- Heq.
          by apply list_elem_of_fmap_2.
        + intros k Hk. by apply get_set_ne. }
    rewrite Hx. cbn [default].
    specialize (IH (seen ++ [x])
                  (set (lvl x) (filter (fun a => lvl a = lvl x) seen ++ [x]) acc')).
    cbn zeta in IH. rewrite <- !(assoc_L (++)) in IH. apply IH.
    + by apply keys_set_NoDup.
    + intros k. rewrite fmap_app, filter_app. cbn [fmap list_fmap].
      destruct (decide (k = lvl x)) as [->|Hne].
      * rewrite get_set_eq, decide_True by (apply elem_of_app; right; by left).
        f_equal. f_equal. rewrite filter_cons, decide_True by done. done.
      * rewrite get_set_ne, Hother, Hget by done.
        rewrite filter_cons.
        rewrite (decide_False (P := lvl x = k)) by (intros Heq; by apply Hne).
        rewrite filter_nil, app_nil_r.
        destruct (decide (k ∈ lvl <$> seen)) as [Hin|Hnot].
        -- rewrite decide_True; [done|]. apply elem_of_app. by left.
        -- rewrite decide_False; [done|].
           intros [?|?%list_elem_of_singleton]%elem_of_app; done.
Qed.

(** X25. Power structures are updated level by level from the top: over
    agents that all have a [PowerStructure] row, the levels are the
    distinct ranks held at entry, taken in strictly falling order, and for
    each level the agents that held that rank at entry are updated as one
    batch, in query order. *)
Theorem updatePowerStructures_top_down agents s :
  (∀ a, a ∈ agents → is_Some (PowerStructure s !! a)) →
  ∃ levels,
    updatePowerStructures agents s
    = JS.forOf levels (fun l => updateHierarchyLevel (agentsAt s l agents)) s
    ∧ StronglySorted (fun a b => b < a) levels
    ∧ ∀ l, l ∈ levels ↔ ∃ a, a ∈ agents ∧ levelOf s a = Some l.
Proof.
  intros Hrows.
  pose (lvl := fun a => default 0 (levelOf s a)).
  assert (∀ a, a ∈ agents → levelOf s a = Some (lvl a)) as Hlvl.
  { intros a Ha. destruct (Hrows a Ha) as [p Hp]. unfold lvl, levelOf.
    by rewrite Hp. }
  destruct (grouped_levels lvl agents [] []) as [Hnd Hget]; [constructor | done|].
  cbn [app] in Hget.
  set (groups := fold_left (fun acc a =>
      let acc' := if negb (has (lvl a) acc) then set (lvl a) [] acc else acc in
      set (lvl a) (default [] (get (lvl a) acc') ++ [a]) acc') agents []) in *.
  exists (JS.sort (fun a b => inject_Z (b - a)) (keys groups)).
  assert (∀ l, l ∈ keys groups ↔ ∃ a, a ∈ agents ∧ levelOf s a = Some l) as Hkeys.
  { intros l. rewrite <- get_keys, Hget. split.
    - destruct (decide (l ∈ lvl <$> agents)) as [Hin|]; [|by intros [? ?]].
      intros _. apply list_elem_of_fmap in Hin as (a & -> & Ha).
      exists a. split; [done | by apply Hlvl].
    - intros (a & Ha & Hl). rewrite decide_True; [eauto|].
      apply list_elem_of_fmap. exists a. split; [|done].
      rewrite (Hlvl a Ha) in Hl. by injection Hl. }
  split; [|split].
  - unfold updatePowerStructures, mbind, M_bind. unfold JS.bind at 1.
    rewrite (forOfAcc_pure (fun acc a =>
      let acc' := if negb (has (lvl a) acc) then set (lvl a) [] acc else acc in
      set (lvl a) (default [] (get (lvl a) acc') ++ [a]) acc')).
    2:{ intros acc a Ha. destruct (Hrows a Ha) as [p Hp].
        unfold JS.bind, getPowerStructure. rewrite Hp.
        unfold lvl, levelOf. by rewrite Hp. }
    fold groups. apply forOf_ext. intros l s' Hl.
    rewrite sort_permutation in Hl.
    apply get_keys in Hl. rewrite Hget in Hl. rewrite Hget.
    destruct (decide (l ∈ lvl <$> agents)); [|by destruct Hl].
    cbn [default]. f_equal. unfold agentsAt. apply filter_ext_in.
    intros a Ha. rewrite (Hlvl a Ha). split; [by intros -> | by intros [= ->]].
  - apply sorted_strict.
    + apply sort_ordered.
      * intros x y Hgt%gtb_spec.
        change 0%Q with (inject_Z 0) in Hgt. rewrite <- Zlt_Qlt in Hgt. lia.
      * intros x y Hle. unfold JS.gtb in Hle. apply negb_false_iff in Hle.
        apply Qle_bool_iff in Hle.
        change 0%Q with (inject_Z 0) in Hle. rewrite <- Zle_Qle in Hle. lia.
      * intros x y z. lia.
    + by rewrite sort_permutation.
  - intros l. by rewrite sort_permutation.
Qed.

End GroupingFacts.

Section HierarchySamples.
Import Conspiracy Hierarchy Frames SampleCourt SampleHierarchy SampleCrisis.

Lemma needsStabilityCheck_spec_witness :
  ∃ b, needsStabilityCheck 1 1 court = JS.Return b court
       ∧ (b = false
          ↔ Z.testbit (supporters (seat 2 [5; 3; 0; 0]%N (1 # 10))) 31 = false
            ∧ (∀ j, 0 ≤ j < 31 →
                    Z.testbit (supporters (seat 2 [5; 3; 0; 0]%N (1 # 10))) j = true →
                    Z.testbit (membershipFlags (plotter 5)) j = true)
            ∧ (STABILITY_THRESHOLD <= stabilityFactor (seat 2 [5; 3; 0; 0]%N (1 # 10)))%Q).
Proof.
  apply (needsStabilityCheck_spec 1 1 court (plotter 5) (seat 2 [5; 3; 0; 0]%N (1 # 10)));
    [reflexivity | reflexivity | cbn; lia].
Defined.

Lemma detectPowerVacuums_spec_witness :
  ∃ vs,
    detectPowerVacuums [1; 3; 5]%N court = JS.Return vs court
    ∧ agent <$> vs = filter (fun a => unstable court a = true) [1; 3; 5]%N
    ∧ Forall (fun v =>
        ∃ p, PowerStructure court !! agent v = Some p
             ∧ position v = leaderPosition p
             ∧ severity v = (1 - stabilityFactor p)%Q
             ∧ 0 < position v
             ∧ (8 # 10 < severity v)%Q) vs.
Proof.
  apply detectPowerVacuums_spec.
  apply Forall_forall. apply (bool_decide_unpack _). vm_compute. exact I.
Defined.

(** Allocation under [factions] drops the cached statuses and leaves the
    power structures alone. *)
Lemma factions_allocation_frame : @allocationFrame factions.
Proof. intros s. reflexivity. Qed.

(** Under [factions] the vacuum of [court] opens a crisis that writes:
    agents 5 and 3 each come to lead a faction under a bit of their own
    (bits 1 and 3), agent 1 supports both, the leaders' first goals are
    set and the cached statuses are dropped; the power structures are what
    they were. *)
Lemma crisis_leaves_power_structures_witness :
  (fun s => (membershipFlags <$> (ConspiracyState s !! 5%N),
             membershipFlags <$> (ConspiracyState s !! 3%N),
             membershipFlags <$> (ConspiracyState s !! 1%N),
             secretGoals <$> (ConspiracyState s !! 5%N),
             publicGoals <$> (ConspiracyState s !! 3%N)))
    <$> JS.stateOf (@handlePowerVacuum factions [1; 3; 5]%N courtVacuum court)
  = Some (Some 7, Some 13, Some 15, Some [1; 0; 0; 0], Some [2; 0; 0; 0])
  ∧ leaves (@handlePowerVacuum factions [1; 3; 5]%N courtVacuum court)
      (fun s' => PowerStructure s' = PowerStructure court).
Proof.
  split; [vm_compute; reflexivity|].
  eapply (@crisis_leaves_power_structures factions courtVacuum [1; 3; 5]%N court).
  - exact factions_allocation_frame.
  - vm_compute. reflexivity.
  - cbn. lia.
Defined.

Lemma collapse_fails_half_way_witness :
  ∃ s', handlePowerCollapse leaderlessVacuum [1; 2; 9]%N leaderless
        = JS.Throw JS.MissingComponent s'
        ∧ (∀ a p, a ∈ [1; 2]%N → PowerStructure leaderless !! a = Some p →
                  PowerStructure s' !! a = Some (collapsed p))
        ∧ (∀ a, a ∉ [1; 2]%N →
                PowerStructure s' !! a = PowerStructure leaderless !! a).
Proof.
  apply (collapse_fails_half_way leaderlessVacuum [1; 2; 9]%N leaderless
           [1; 2]%N 9%N []).
  - exact no_realignment_frame.
  - reflexivity.
  - apply (bool_decide_unpack _). vm_compute. exact I.
  - apply Forall_forall. apply (bool_decide_unpack _). vm_compute. exact I.
  - left. reflexivity.
Defined.

Lemma status_cache_one_entry_per_key_witness :
  ∃ v s',
    updateConspiracyStatus 1 1 1 idle = JS.Return v s'
    ∧ JS.keys (conspiracyCache s')
      = (if JS.has (cacheKey 1 (membershipFlags (plotter 5))) (conspiracyCache idle)
         then JS.keys (conspiracyCache idle)
         else JS.keys (conspiracyCache idle) ++ [cacheKey 1 (membershipFlags (plotter 5))])
    ∧ (∀ k, k ≠ cacheKey 1 (membershipFlags (plotter 5)) →
            JS.get k (conspiracyCache s') = JS.get k (conspiracyCache idle))
    ∧ time s' = time idle
    ∧ ConspiracyState s' = ConspiracyState idle
    ∧ PowerStructure s' = PowerStructure idle.
Proof.
  apply (status_cache_one_entry_per_key 1 1 1 idle (plotter 5)). reflexivity.
Defined.

Lemma updateHierarchyLevel_atomic_witness :
  ∃ s', updateHierarchyLevel [3; 5; 3]%N court = JS.Return tt s'
    ∧ (∀ a, PowerStructure s' !! a
            = if decide (a ∈ [3; 5; 3]%N)
              then (fun p => with_powerBase
                               (powerBase p + calculatePowerShift court a a)%Q p)
                     <$> PowerStructure court !! a
              else PowerStructure court !! a)
    ∧ ConspiracyState s' = ConspiracyState court
    ∧ conspiracyCache s' = conspiracyCache court
    ∧ time s' = time court.
Proof.
  apply updateHierarchyLevel_atomic.
  apply Forall_forall. apply (bool_decide_unpack _). vm_compute. exact I.
Defined.

(** Agents 3 and 5 both gain the power base agent 3 had at entry, although
    agent 3 is updated before agent 5, and agent 3, listed twice, gains it
    once. *)
Example shifts_use_the_entry_state :
  (fun s => (powerBase <$> (PowerStructure s !! 3%N),
             powerBase <$> (PowerStructure s !! 5%N)))
    <$> JS.stateOf (updateHierarchyLevel [3; 5; 3]%N court)
  = Some (Some (1 + 1)%Q, Some (1 + 1)%Q).
Proof. vm_compute. reflexivity. Qed.

Lemma updatePowerStructures_top_down_witness :
  ∃ levels,
    updatePowerStructures [1; 3; 5]%N court
    = JS.forOf levels (fun l => updateHierarchyLevel (agentsAt court l [1; 3; 5]%N)) court
    ∧ StronglySorted (fun a b => b < a) levels
    ∧ ∀ l, l ∈ levels ↔ ∃ a, a ∈ [1; 3; 5]%N ∧ levelOf court a = Some l.
Proof.
  apply updatePowerStructures_top_down.
  apply Forall_forall. apply (bool_decide_unpack _). vm_compute. exact I.
Defined.

End HierarchySamples.

(** ** UndergroundSystem: discovery, further properties *)

Section AccessFacts.
Import Underground Shadow.

Lemma int32_sign_ext x j :
  - 2 ^ 31 ≤ x < 2 ^ 31 → 31 ≤ j → Z.testbit x j = Z.testbit x 31.
Proof.
  intros Hx Hj. destruct (Z_lt_ge_dec x 0) as [Hneg|Hpos].
  - assert (x = Z.lnot (Z.lnot x)) as Hx' by by rewrite Z.lnot_involutive.
    assert (0 ≤ Z.lnot x < 2 ^ 31) as Hy by (unfold Z.lnot; lia).
    revert Hx' Hy. generalize (Z.lnot x). intros y -> Hy.
    by rewrite !Z.lnot_spec, !(bits_above y 31) by lia.
  - by rewrite !(bits_above x 31) by lia.
Qed.

Lemma min_int32_bits j : 0 ≤ j → Z.testbit (- 2 ^ 31) j = (31 <=? j).
Proof.
  intros Hj. rewrite Z.bits_opp, <- Z.ones_equiv by done.
  destruct (Z.leb_spec 31 j).
  - by rewrite Z.ones_spec_high by lia.
  - by rewrite Z.ones_spec_low by lia.
Qed.

(** [x & (1 << i)] read as a condition is bit [i mod 32] of [x]. *)
Lemma bit_test x i :
  JS.truthy (JS.and32 x (JS.shl32 1 i)) = Z.testbit x (i mod 32).
Proof.
  unfold JS.and32, JS.shl32.
  change 31 with (Z.ones 5). rewrite Z.land_ones by lia. change (2 ^ 5) with 32.
  pose proof (Z.mod_pos_bound i 32 ltac:(lia)) as Hk.
  set (k := i mod 32) in *.
  rewrite (ToInt32_small 1), Z.shiftl_1_l by lia.
  destruct (Z_lt_ge_dec k 31) as [Hlow|Hhigh].
  - pose proof (pow2_small k ltac:(lia)) as Hpow.
    rewrite !(ToInt32_small (2 ^ k)), land_pow2_testbit by lia.
    rewrite ToInt32_testbit by lia. unfold JS.truthy.
    destruct (Z.testbit x k); [|done].
    destruct (Z.eqb_spec (2 ^ k) 0); [lia | done].
  - assert (k = 31) as -> by lia.
    assert (JS.ToInt32 (JS.ToInt32 (2 ^ 31)) = - 2 ^ 31) as -> by done.
    pose proof (ToInt32_range x) as Hrange.
    rewrite <- (ToInt32_testbit x 31) by lia.
    unfold JS.truthy.
    destruct (Z.testbit (JS.ToInt32 x) 31) eqn:Hbit.
    + destruct (Z.eqb_spec (Z.land (JS.ToInt32 x) (- 2 ^ 31)) 0) as [Hz|]; [|done].
      assert (Z.testbit (Z.land (JS.ToInt32 x) (- 2 ^ 31)) 31 = true) as Hset
        by (by rewrite Z.land_spec, Hbit, min_int32_bits).
      rewrite Hz, Z.bits_0 in Hset. done.
    + assert (Z.land (JS.ToInt32 x) (- 2 ^ 31) = 0) as ->; [|done].
      apply Z.bits_inj'. intros j Hj. rewrite Z.land_spec, Z.bits_0, min_int32_bits by done.
      destruct (Z.leb_spec 31 j); [|apply andb_false_r].
      by rewrite int32_sign_ext, Hbit by done.
Qed.

(** X26. Whether an operator has access to a market depends on the market
    id modulo 32 only: [1 << marketId] takes the shift count modulo 32, so
    the test reads bit [marketId mod 32] of the access field, and a market
    with id 32 or more shares the access bit of the market 32 below it. *)
Theorem access_is_modulo_32 access marketId :
  accessible access marketId = Z.testbit access (Z.of_N marketId mod 32)
  ∧ accessible access (marketId + 32) = accessible access marketId.
Proof.
  unfold accessible. rewrite !bit_test. split; [done|].
  rewrite N2Z.inj_add. change (Z.of_N 32) with (1 * 32).
  by rewrite Z_mod_plus_full.
Qed.

End AccessFacts.

Section DiscoveryFacts.
Import Underground Shadow.
Context `{Underground.Hooks}.

Lemma returns_forOfAcc_seen {S A B} (I : list A → B → S → Prop)
    (body : B → A → JS.M S B) :
  ∀ xs seen acc s,
    I seen acc s →
    (∀ seen x acc s, I seen acc s →
       returns (body acc x) s (fun acc' s' => I (seen ++ [x]) acc' s')) →
    returns (JS.forOfAcc xs acc body) s (fun acc' s' => I (seen ++ xs) acc' s').
Proof.
  induction xs as [|x xs IH]; intros seen acc s HI Hbody.
  - exists acc, s. by rewrite app_nil_r.
  - cbn [JS.forOfAcc]. apply (returns_bind (S := S)).
    eapply returns_weaken; [by apply Hbody|].
    intros acc' s' HI'. cbn beta.
    replace (seen ++ x :: xs) with ((seen ++ [x]) ++ xs)
      by by rewrite <- (assoc_L (++)).
    by apply IH.
Qed.

(** What the search loop of [findSuitableMarket] knows of its running best
    after the markets [seen]. *)
Lemma search_step (score : N → Q) (access : Z) seen x bestMarket bestScore :
  ((∀ m, m ∈ seen → accessible access m = true → (score m <= bestScore)%Q)
   ∧ match bestMarket with
     | Some m =>
         ∃ pre post, seen = pre ++ m :: post
           ∧ accessible access m = true
           ∧ bestScore = score m ∧ (0 < score m)%Q
           ∧ ∀ m', m' ∈ pre → accessible access m' = true → (score m' < score m)%Q
     | None => bestScore = 0%Q
     end) →
  let best' :=
    if accessible access x
    then if JS.gtb (score x) bestScore then (Some x, score x) else (bestMarket, bestScore)
    else (bestMarket, bestScore) in
  (∀ m, m ∈ seen ++ [x] → accessible access m = true → (score m <= best'.2)%Q)
  ∧ match best'.1 with
    | Some m =>
        ∃ pre post, seen ++ [x] = pre ++ m :: post
          ∧ accessible access m = true
          ∧ best'.2 = score m ∧ (0 < score m)%Q
          ∧ ∀ m', m' ∈ pre → accessible access m' = true → (score m' < score m)%Q
    | None => best'.2 = 0%Q
    end.
Proof.
  intros [Hbound Hbest].
  assert (0 <= bestScore)%Q as Hnonneg.
  { destruct bestMarket as [m|]; [|by rewrite Hbest].
    destruct Hbest as (_ & _ & _ & _ & -> & Hpos & _). lra. }
  assert (∀ (keep : bool),
            (accessible access x = true → (score x <= bestScore)%Q) →
            (∀ m, m ∈ seen ++ [x] → accessible access m = true →
                  (score m <= bestScore)%Q)
            ∧ match bestMarket with
              | Some m =>
                  ∃ pre post, seen ++ [x] = pre ++ m :: post
                    ∧ accessible access m = true
                    ∧ bestScore = score m ∧ (0 < score m)%Q
                    ∧ ∀ m', m' ∈ pre → accessible access m' = true →
                            (score m' < score m)%Q
              | None => bestScore = 0%Q
              end) as Hkeep.
  { intros _ Hx. split.
    - intros m [Hm | ->%list_elem_of_singleton]%elem_of_app; [by apply Hbound | done].
    - destruct bestMarket as [m|]; [|done].
      destruct Hbest as (pre & post & -> & Hacc & Hs & Hpos & Hfirst).
      exists pre, (post ++ [x]). by rewrite <- (assoc_L (++)). }
  cbn zeta. destruct (accessible access x) eqn:Hacc.
  - destruct (JS.gtb (score x) bestScore) eqn:Hgt.
    + apply gtb_spec in Hgt. cbn [fst snd]. split.
      * intros m [Hm | ->%list_elem_of_singleton]%elem_of_app Hm'; [|lra].
        specialize (Hbound m Hm Hm'). lra.
      * exists seen, []. split; [done|]. split; [done|]. split; [done|].
        split; [lra|]. intros m' Hm' Hacc'. specialize (Hbound m' Hm' Hacc'). lra.
    + apply (Hkeep true). intros _.
      unfold JS.gtb in Hgt. apply negb_false_iff in Hgt. by apply Qle_bool_iff.
  - apply (Hkeep true). congruence.
Qed.

(** The result of a search: the first accessible active market of maximal
    positive score, or null when there is none. *)
Lemma findSuitableMarket_best operator underground s row :
  scoreFrame →
  UndergroundEconomy s !! underground = Some row →
  (∀ entry,
     JS.get (cacheKey operator (marketAccess row)) (discoveryCache s) = Some entry →
     100 ≤ time s - timestamp entry) →
  ∃ best s',
    findSuitableMarket operator underground s = JS.Return best s'
    ∧ match best with
      | Some m =>
          ∃ pre post, activeMarkets s = pre ++ m :: post
            ∧ accessible (marketAccess row) m = true
            ∧ (0 < evaluateMarketSuitability s m operator)%Q
            ∧ (∀ m', m' ∈ pre → accessible (marketAccess row) m' = true →
                 (evaluateMarketSuitability s m' operator
                  < evaluateMarketSuitability s m operator)%Q)
            ∧ (∀ m', m' ∈ post → accessible (marketAccess row) m' = true →
                 (evaluateMarketSuitability s m' operator
                  <= evaluateMarketSuitability s m operator)%Q)
      | None =>
          ∀ m', m' ∈ activeMarkets s → accessible (marketAccess row) m' = true →
                (evaluateMarketSuitability s m' operator <= 0)%Q
      end.
Proof.
  intros Hframe Hrow Hstale.
  pose (score := fun m => evaluateMarketSuitability s m operator).
  pose (Inv := fun (seen : list N) (best : option N * Q) =>
    (∀ m, m ∈ seen → accessible (marketAccess row) m = true → (score m <= best.2)%Q)
    ∧ match best.1 with
      | Some m =>
          ∃ pre post, seen = pre ++ m :: post
            ∧ accessible (marketAccess row) m = true
            ∧ best.2 = score m ∧ (0 < score m)%Q
            ∧ ∀ m', m' ∈ pre → accessible (marketAccess row) m' = true →
                    (score m' < score m)%Q
      | None => best.2 = 0%Q
      end).
  enough (returns (findSuitableMarket operator underground) s (fun best s' =>
            ∃ bestScore, Inv (activeMarkets s) (best, bestScore)))
    as (best & s' & Hrun & bestScore & Hbound & Hbest).
  { exists best, s'. split; [done|]. cbn [fst snd] in Hbound, Hbest.
    destruct best as [m|].
    - destruct Hbest as (pre & post & Heq & Hacc & -> & Hpos & Hfirst).
      exists pre, post. repeat split; try done.
      intros m' Hm' Hacc'. apply Hbound; [|done].
      rewrite Heq. apply elem_of_app. right. by right.
    - subst bestScore. done. }
  unfold findSuitableMarket.
  apply returns_bind. exists row, s. split.
  { unfold getUndergroundEconomy. by rewrite Hrow. }
  apply returns_bind, returns_read.
  assert (returns
            (JS.read ≫= fun s0 =>
             JS.forOfAcc (activeMarkets s0) (None, 0%Q)
               (fun '(bestMarket, bestScore) marketId =>
                  if JS.truthy
                       (JS.and32 (marketAccess row) (JS.shl32 1 (Z.of_N marketId)))
                  then
                    JS.read ≫= fun s1 =>
                    JS.modify
                      (fun s2 => with_evaluated ((marketId, operator) :: evaluated s2) s2)
                    ≫= fun _ =>
                    if JS.gtb (evaluateMarketSuitability s1 marketId operator) bestScore
                    then mret (Some marketId,
                               evaluateMarketSuitability s1 marketId operator)
                    else mret (bestMarket, bestScore)
                  else mret (bestMarket, bestScore))
             ≫= fun best =>
             JS.modify
               (fun s1 =>
                  with_discoveryCache
                    (JS.set (cacheKey operator (marketAccess row))
                       {| market := best.1; timestamp := time s1 |}
                       (discoveryCache s1)) s1)
             ≫= fun _ => mret best.1) s
            (fun best s' => ∃ bestScore, Inv (activeMarkets s) (best, bestScore)))
    as Hsearch.
  { apply returns_bind, returns_read. apply returns_bind.
    eapply returns_weaken.
    - apply (returns_forOfAcc_seen
               (fun seen best s' =>
                  (∃ log, s' = with_evaluated log s) ∧ Inv seen best)
               _ (activeMarkets s) []).
      + split; [exists (evaluated s); by destruct s|].
        split; [by intros m Hm%elem_of_nil | done].
      + intros seen marketId [bestMarket bestScore] s0 [[log ->] HInv].
        pose proof (search_step score (marketAccess row) seen marketId
                      bestMarket bestScore HInv) as Hstep.
        cbn zeta in Hstep.
        change (JS.truthy (JS.and32 (marketAccess row) (JS.shl32 1 (Z.of_N marketId))))
          with (accessible (marketAccess row) marketId).
        revert Hstep. destruct (accessible (marketAccess row) marketId); intros Hstep.
        * apply returns_bind, returns_read. apply returns_bind, returns_modify.
          rewrite Hframe. fold (score marketId).
          revert Hstep. destruct (JS.gtb (score marketId) bestScore); intros Hstep;
            apply returns_ret; (split; [by eexists | exact Hstep]).
        * apply returns_ret. split; [by eexists | exact Hstep].
    - cbn [app]. intros [bestMarket bestScore] s0 [_ HInv].
      apply returns_bind, returns_modify. apply returns_ret.
      by exists bestScore. }
  destruct (JS.get _ (discoveryCache s)) as [entry|] eqn:Hget; [|exact Hsearch].
  assert ((timestamp entry >? time s - 100) = false) as ->; [|exact Hsearch].
  specialize (Hstale entry eq_refl). rewrite Z.gtb_ltb. apply Z.ltb_ge. lia.
Qed.

(** X27. When the cache holds no fresh entry for the operator, the search
    returns the best market: an active market the operator has access to,
    with a positive score that no other accessible active market exceeds,
    and the first such market in the iteration order of the set; it returns
    null exactly when no accessible active market has a positive score.
    (The score is assumed not to depend on the log of evaluations.) *)
Theorem market_search_finds_best operator underground s row :
  scoreFrame →
  UndergroundEconomy s !! underground = Some row →
  (∀ entry,
     JS.get (cacheKey operator (marketAccess row)) (discoveryCache s) = Some entry →
     100 ≤ time s - timestamp entry) →
  ∃ best s',
    findSuitableMarket operator underground s = JS.Return best s'
    ∧ match best with
      | Some m =>
          ∃ pre post, activeMarkets s = pre ++ m :: post
            ∧ accessible (marketAccess row) m = true
            ∧ (0 < evaluateMarketSuitability s m operator)%Q
            ∧ (∀ m', m' ∈ pre → accessible (marketAccess row) m' = true →
                 (evaluateMarketSuitability s m' operator
                  < evaluateMarketSuitability s m operator)%Q)
            ∧ (∀ m', m' ∈ post → accessible (marketAccess row) m' = true →
                 (evaluateMarketSuitability s m' operator
                  <= evaluateMarketSuitability s m operator)%Q)
      | None =>
          ∀ m', m' ∈ activeMarkets s → accessible (marketAccess row) m' = true →
                (evaluateMarketSuitability s m' operator <= 0)%Q
      end.
Proof. apply findSuitableMarket_best. Qed.

End DiscoveryFacts.

(** ** The tick-stamped caches, both *)

Section CacheWindows.
Import Underground Shadow Caches.
Context `{Conspiracy.Hooks} `{Underground.Hooks}.

(** A search logs one evaluation for each accessible active market, stores
    what it found under the key with the current time and changes nothing
    else. *)
Lemma findSuitableMarket_searched operator underground s row :
  UndergroundEconomy s !! underground = Some row →
  (∀ entry,
     JS.get (cacheKey operator (marketAccess row)) (discoveryCache s) = Some entry →
     100 ≤ time s - timestamp entry) →
  ∃ best s',
    findSuitableMarket operator underground s = JS.Return best s'
    ∧ evaluated s' = searched s (marketAccess row) operator ++ evaluated s
    ∧ discoveryCache s'
      = JS.set (cacheKey operator (marketAccess row))
          {| market := best; timestamp := time s |} (discoveryCache s)
    ∧ time s' = time s
    ∧ UndergroundEconomy s' = UndergroundEconomy s
    ∧ activeMarkets s' = activeMarkets s.
Proof.
  intros Hrow Hstale.
  pose (log := fun seen : list N =>
    rev ((fun marketId => (marketId, operator))
           <$> filter (fun marketId => accessible (marketAccess row) marketId = true) seen)).
  enough (returns (findSuitableMarket operator underground) s (fun best s' =>
            evaluated s' = log (activeMarkets s) ++ evaluated s
            ∧ discoveryCache s'
              = JS.set (cacheKey operator (marketAccess row))
                  {| market := best; timestamp := time s |} (discoveryCache s)
            ∧ time s' = time s
            ∧ UndergroundEconomy s' = UndergroundEconomy s
            ∧ activeMarkets s' = activeMarkets s))
    as (best & s' & Hrun & HQ) by (by exists best, s').
  unfold findSuitableMarket.
  apply returns_bind. exists row, s. split.
  { unfold getUndergroundEconomy. by rewrite Hrow. }
  apply returns_bind, returns_read.
  assert (returns
            (JS.read ≫= fun s0 =>
             JS.forOfAcc (activeMarkets s0) (None, 0%Q)
               (fun '(bestMarket, bestScore) marketId =>
                  if JS.truthy
                       (JS.and32 (marketAccess row) (JS.shl32 1 (Z.of_N marketId)))
                  then
                    JS.read ≫= fun s1 =>
                    JS.modify
                      (fun s2 => with_evaluated ((marketId, operator) :: evaluated s2) s2)
                    ≫= fun _ =>
                    if JS.gtb (evaluateMarketSuitability s1 marketId operator) bestScore
                    then mret (Some marketId,
                               evaluateMarketSuitability s1 marketId operator)
                    else mret (bestMarket, bestScore)
                  else mret (bestMarket, bestScore))
             ≫= fun best =>
             JS.modify
               (fun s1 =>
                  with_discoveryCache
                    (JS.set (cacheKey operator (marketAccess row))
                       {| market := best.1; timestamp := time s1 |}
                       (discoveryCache s1)) s1)
             ≫= fun _ => mret best.1) s
            (fun best s' =>
               evaluated s' = log (activeMarkets s) ++ evaluated s
               ∧ discoveryCache s'
                 = JS.set (cacheKey operator (marketAccess row))
                     {| market := best; timestamp := time s |} (discoveryCache s)
               ∧ time s' = time s
               ∧ UndergroundEconomy s' = UndergroundEconomy s
               ∧ activeMarkets s' = activeMarkets s)) as Hsearch.
  { apply returns_bind, returns_read. apply returns_bind.
    eapply returns_weaken.
    - apply (returns_forOfAcc_seen
               (fun seen _ s' =>
                  evaluated s' = log seen ++ evaluated s
                  ∧ discoveryCache s' = discoveryCache s ∧ time s' = time s
                  ∧ UndergroundEconomy s' = UndergroundEconomy s
                  ∧ activeMarkets s' = activeMarkets s)
               _ (activeMarkets s) []).
      + done.
      + intros seen marketId [bestMarket bestScore] s0 (Hlog & Hc & Ht & Hu & Ha).
        assert (log (seen ++ [marketId])
                = (if accessible (marketAccess row) marketId
                   then [(marketId, operator)] else []) ++ log seen) as Hstep.
        { unfold log. rewrite filter_app, filter_cons, filter_nil.
          destruct (accessible (marketAccess row) marketId).
          - rewrite decide_True by done. by rewrite fmap_app, rev_app_distr.
          - rewrite decide_False by done. by rewrite app_nil_r. }
        rewrite Hstep.
        change (JS.truthy (JS.and32 (marketAccess row) (JS.shl32 1 (Z.of_N marketId))))
          with (accessible (marketAccess row) marketId).
        destruct (accessible (marketAccess row) marketId).
        * apply returns_bind, returns_read. apply returns_bind, returns_modify.
          destruct (JS.gtb _ bestScore); apply returns_ret; cbn; by rewrite Hlog.
        * by apply returns_ret.
    - cbn [app]. intros [bestMarket bestScore] s0 (Hlog & Hc & Ht & Hu & Ha).
      apply returns_bind, returns_modify. apply returns_ret. cbn.
      by rewrite Hc, Ht. }
  destruct (JS.get _ (discoveryCache s)) as [entry|] eqn:Hget; [|exact Hsearch].
  assert ((timestamp entry >? time s - 100) = false) as ->; [|exact Hsearch].
  specialize (Hstale entry eq_refl). rewrite Z.gtb_ltb. apply Z.ltb_ge. lia.
Qed.


(** C8, as amended.  Both tick-stamped caches, the status cache of
    [updateConspiracyStatus] and the discovery cache of
    [findSuitableMarket], keep a result for 100 ticks from the tick at
    which it was stored.  A lookup that finds no entry under its key, or
    one stored 100 ticks ago or more, computes: it runs the computation
    once (the status calculation once, the search once over the accessible
    active markets), stores the result under the key with the current
    tick, overwriting what was there, and returns it.  A later lookup of
    the key that finds this entry less than 100 ticks after it was stored
    returns the stored value and computes nothing, so that the two lookups
    compute exactly once; a lookup that finds it 100 ticks or more after
    it was stored computes again and overwrites it with the new result and
    the new tick. *)
Theorem caches_keep_results_for_ttl
    agent conspiracy power s1 row operator underground u1 urow :
  Conspiracy.ConspiracyState s1 !! conspiracy = Some row →
  (∀ entry,
     JS.get (Conspiracy.cacheKey agent (Conspiracy.membershipFlags row))
       (Conspiracy.conspiracyCache s1) = Some entry →
     100 ≤ Conspiracy.time s1 - Conspiracy.timestamp entry) →
  UndergroundEconomy u1 !! underground = Some urow →
  (∀ entry,
     JS.get (cacheKey operator (marketAccess urow)) (discoveryCache u1) = Some entry →
     100 ≤ time u1 - timestamp entry) →
  (∃ s1',
     Conspiracy.updateConspiracyStatus agent conspiracy power s1
     = JS.Return (Conspiracy.calculateConspiracyStatus s1 agent conspiracy power) s1'
     ∧ Conspiracy.calculated s1' = agent :: Conspiracy.calculated s1
     ∧ JS.get (Conspiracy.cacheKey agent (Conspiracy.membershipFlags row))
         (Conspiracy.conspiracyCache s1')
       = Some {| Conspiracy.status :=
                   Conspiracy.calculateConspiracyStatus s1 agent conspiracy power;
                 Conspiracy.timestamp := Conspiracy.time s1 |}
     ∧ ∀ s2 row2,
         Conspiracy.ConspiracyState s2 !! conspiracy = Some row2 →
         Conspiracy.membershipFlags row2 = Conspiracy.membershipFlags row →
         JS.get (Conspiracy.cacheKey agent (Conspiracy.membershipFlags row))
           (Conspiracy.conspiracyCache s2)
         = JS.get (Conspiracy.cacheKey agent (Conspiracy.membershipFlags row))
             (Conspiracy.conspiracyCache s1') →
         (Conspiracy.time s2 - Conspiracy.time s1 < 100 →
          Conspiracy.updateConspiracyStatus agent conspiracy power s2
          = JS.Return (Conspiracy.calculateConspiracyStatus s1 agent conspiracy power) s2)
         ∧ (100 ≤ Conspiracy.time s2 - Conspiracy.time s1 →
            ∃ s2',
              Conspiracy.updateConspiracyStatus agent conspiracy power s2
              = JS.Return (Conspiracy.calculateConspiracyStatus s2 agent conspiracy power)
                  s2'
              ∧ Conspiracy.calculated s2' = agent :: Conspiracy.calculated s2
              ∧ JS.get (Conspiracy.cacheKey agent (Conspiracy.membershipFlags row))
                  (Conspiracy.conspiracyCache s2')
                = Some {| Conspiracy.status :=
                            Conspiracy.calculateConspiracyStatus s2 agent conspiracy power;
                          Conspiracy.timestamp := Conspiracy.time s2 |}))
  ∧ (∃ best u1',
       findSuitableMarket operator underground u1 = JS.Return best u1'
       ∧ (scoreFrame → bestMarket u1 (marketAccess urow) operator best)
       ∧ evaluated u1' = searched u1 (marketAccess urow) operator ++ evaluated u1
       ∧ JS.get (cacheKey operator (marketAccess urow)) (discoveryCache u1')
         = Some {| market := best; timestamp := time u1 |}
       ∧ ∀ u2 urow2,
           UndergroundEconomy u2 !! underground = Some urow2 →
           marketAccess urow2 = marketAccess urow →
           JS.get (cacheKey operator (marketAccess urow)) (discoveryCache u2)
           = JS.get (cacheKey operator (marketAccess urow)) (discoveryCache u1') →
           (time u2 - time u1 < 100 →
            findSuitableMarket operator underground u2 = JS.Return best u2)
           ∧ (100 ≤ time u2 - time u1 →
              ∃ best2 u2',
                findSuitableMarket operator underground u2 = JS.Return best2 u2'
                ∧ (scoreFrame → bestMarket u2 (marketAccess urow) operator best2)
                ∧ evaluated u2' = searched u2 (marketAccess urow) operator ++ evaluated u2
                ∧ JS.get (cacheKey operator (marketAccess urow)) (discoveryCache u2')
                  = Some {| market := best2; timestamp := time u2 |})).
Proof.
  intros Hrow Hstale Hurow Hustale. split.
  - destruct (updateConspiracyStatus_compute agent conspiracy power s1 row Hrow Hstale)
      as (s1' & Hrun & Hcalc & Hcache & _).
    exists s1'. split; [exact Hrun|]. split; [exact Hcalc|].
    assert (JS.get (Conspiracy.cacheKey agent (Conspiracy.membershipFlags row))
              (Conspiracy.conspiracyCache s1')
            = Some {| Conspiracy.status :=
                        Conspiracy.calculateConspiracyStatus s1 agent conspiracy power;
                      Conspiracy.timestamp := Conspiracy.time s1 |}) as Hstored
      by (rewrite Hcache; apply Map_get_set_eq).
    split; [exact Hstored|].
    intros s2 row2 Hrow2 Hflags Hget2. rewrite Hstored in Hget2. split.
    + intros Hage.
      apply (updateConspiracyStatus_hit agent conspiracy power s2 row2
               {| Conspiracy.status := _; Conspiracy.timestamp := Conspiracy.time s1 |});
        [done | by rewrite Hflags | done].
    + intros Hage.
      destruct (updateConspiracyStatus_compute agent conspiracy power s2 row2 Hrow2)
        as (s2' & Hrun2 & Hcalc2 & Hcache2 & _).
      { rewrite Hflags, Hget2. intros entry [= <-]. simpl. lia. }
      exists s2'. split; [done|]. split; [done|].
      rewrite Hcache2, Hflags. apply Map_get_set_eq.
  - assert (∀ u urow',
              UndergroundEconomy u !! underground = Some urow' →
              (∀ entry,
                 JS.get (cacheKey operator (marketAccess urow')) (discoveryCache u)
                 = Some entry →
                 100 ≤ time u - timestamp entry) →
              ∃ best u',
                findSuitableMarket operator underground u = JS.Return best u'
                ∧ (scoreFrame → bestMarket u (marketAccess urow') operator best)
                ∧ evaluated u' = searched u (marketAccess urow') operator ++ evaluated u
                ∧ JS.get (cacheKey operator (marketAccess urow')) (discoveryCache u')
                  = Some {| market := best; timestamp := time u |}) as Hsearch.
    { intros u urow' Hu Hs.
      destruct (findSuitableMarket_searched operator underground u urow' Hu Hs)
        as (best & u' & Hrun & Hlog & Hcache & _).
      exists best, u'. split; [exact Hrun|]. split; [|split; [exact Hlog|]].
      - intros Hframe.
        destruct (findSuitableMarket_best operator underground u urow' Hframe Hu Hs)
          as (best' & u'' & Hrun' & Hbest).
        rewrite Hrun in Hrun'. by injection Hrun' as <- <-.
      - rewrite Hcache. apply Map_get_set_eq. }
    destruct (Hsearch u1 urow Hurow Hustale) as (best & u1' & Hrun & Hbest & Hlog & Hstored).
    exists best, u1'. split; [exact Hrun|]. split; [exact Hbest|].
    split; [exact Hlog|]. split; [exact Hstored|].
    intros u2 urow2 Hurow2 Haccess Hget2. rewrite Hstored in Hget2. split.
    + intros Hage.
      apply (findSuitableMarket_hit operator underground u2 urow2
               {| market := best; timestamp := time u1 |});
        [done | by rewrite Haccess | done].
    + intros Hage. rewrite <- Haccess. apply Hsearch; [done|].
      rewrite Haccess, Hget2. intros entry [= <-]. simpl. lia.
Qed.

End CacheWindows.

Section CacheWindowSamples.
Import Underground Shadow Caches SampleCourt SampleMarket SampleStale.

Lemma identity_score_frame : scoreFrame.
Proof. done. Qed.

Lemma caches_keep_results_for_ttl_witness :
  (∃ s1',
     Conspiracy.updateConspiracyStatus 1 1 1 (courtAt 110) = JS.Return 110 s1'
     ∧ Conspiracy.calculated s1' = [1%N]
     ∧ JS.get (Conspiracy.cacheKey 1 5) (Conspiracy.conspiracyCache s1')
       = Some {| Conspiracy.status := 110; Conspiracy.timestamp := 110 |}
     ∧ ∀ s2 row2,
         Conspiracy.ConspiracyState s2 !! 1%N = Some row2 →
         Conspiracy.membershipFlags row2 = 5 →
         JS.get (Conspiracy.cacheKey 1 5) (Conspiracy.conspiracyCache s2)
         = JS.get (Conspiracy.cacheKey 1 5) (Conspiracy.conspiracyCache s1') →
         (Conspiracy.time s2 - 110 < 100 →
          Conspiracy.updateConspiracyStatus 1 1 1 s2 = JS.Return 110 s2)
         ∧ (100 ≤ Conspiracy.time s2 - 110 →
            ∃ s2',
              Conspiracy.updateConspiracyStatus 1 1 1 s2
              = JS.Return (Conspiracy.time s2) s2'
              ∧ Conspiracy.calculated s2' = 1%N :: Conspiracy.calculated s2
              ∧ JS.get (Conspiracy.cacheKey 1 5) (Conspiracy.conspiracyCache s2')
                = Some {| Conspiracy.status := Conspiracy.time s2;
                          Conspiracy.timestamp := Conspiracy.time s2 |}))
  ∧ (∃ best u1',
       findSuitableMarket 1 1 (bazaarAt 110) = JS.Return best u1'
       ∧ (scoreFrame → bestMarket (bazaarAt 110) 6 1 best)
       ∧ evaluated u1' = searched (bazaarAt 110) 6 1 ++ []
       ∧ JS.get (cacheKey 1 6) (discoveryCache u1')
         = Some {| market := best; timestamp := 110 |}
       ∧ ∀ u2 urow2,
           UndergroundEconomy u2 !! 1%N = Some urow2 →
           marketAccess urow2 = 6 →
           JS.get (cacheKey 1 6) (discoveryCache u2)
           = JS.get (cacheKey 1 6) (discoveryCache u1') →
           (time u2 - 110 < 100 → findSuitableMarket 1 1 u2 = JS.Return best u2)
           ∧ (100 ≤ time u2 - 110 →
              ∃ best2 u2',
                findSuitableMarket 1 1 u2 = JS.Return best2 u2'
                ∧ (scoreFrame → bestMarket u2 6 1 best2)
                ∧ evaluated u2' = searched u2 6 1 ++ evaluated u2
                ∧ JS.get (cacheKey 1 6) (discoveryCache u2')
                  = Some {| market := best2; timestamp := time u2 |})).
Proof.
  refine (caches_keep_results_for_ttl 1 1 1 (courtAt 110) (plotter 5)
            1 1 (bazaarAt 110)
            {| marketAccess := 6; contraband := replicate 8 0; contacts := 0;
               reputation := 0; heatLevel := 0; fronts := [0; 0; 0; 0] |}
            eq_refl _ eq_refl _).
  - intros entry [= <-]. simpl. lia.
  - intros entry [= <-]. simpl. lia.
Defined.

(** C8, as stated, fails for lookups that find an entry stored earlier.
    With the status 10 stored at tick 10, the lookups at ticks 50 and 60,
    ten ticks apart, are both served from the cache and compute nothing,
    not once; and of the lookups at ticks 105 and 115, ten ticks apart as
    well, the first is served and the second, which finds the entry 105
    ticks old, computes again instead of returning the stored value.  The
    discovery cache does the same. *)
Lemma lookups_within_ttl_of_each_other :
  (Conspiracy.updateConspiracyStatus 1 1 1 (courtAt 50) = JS.Return 10 (courtAt 50)
   ∧ Conspiracy.updateConspiracyStatus 1 1 1 (courtAt 60) = JS.Return 10 (courtAt 60)
   ∧ Conspiracy.calculated (courtAt 60) = []
   ∧ Conspiracy.updateConspiracyStatus 1 1 1 (courtAt 105) = JS.Return 10 (courtAt 105)
   ∧ ∃ s', Conspiracy.updateConspiracyStatus 1 1 1 (courtAt 115) = JS.Return 115 s'
           ∧ Conspiracy.calculated s' = [1%N]
           ∧ Conspiracy.conspiracyCache s'
             = [(Conspiracy.cacheKey 1 5,
                 {| Conspiracy.status := 115; Conspiracy.timestamp := 115 |})])
  ∧ (findSuitableMarket 1 1 (bazaarAt 50) = JS.Return (Some 1%N) (bazaarAt 50)
     ∧ findSuitableMarket 1 1 (bazaarAt 60) = JS.Return (Some 1%N) (bazaarAt 60)
     ∧ evaluated (bazaarAt 60) = []
     ∧ findSuitableMarket 1 1 (bazaarAt 105) = JS.Return (Some 1%N) (bazaarAt 105)
     ∧ ∃ u', findSuitableMarket 1 1 (bazaarAt 115) = JS.Return (Some 2%N) u'
             ∧ evaluated u' = [(2, 1); (1, 1)]%N
             ∧ discoveryCache u'
               = [(cacheKey 1 6, {| market := Some 2%N; timestamp := 115 |})]).
Proof.
  split; repeat split; try (vm_compute; reflexivity);
    eexists; (split; [vm_compute; reflexivity|]); split; reflexivity.
Qed.

End CacheWindowSamples.

(** ** UndergroundSystem: trading *)

Section TradingFacts.
Import Underground Shadow.
Context `{Underground.Hooks} `{Shadow.Hooks}.

Lemma before_in_both {A} (l1 l2 l1' l2' : list A) x y :
  NoDup (l1 ++ x :: l2) →
  l1 ++ x :: l2 = l1' ++ y :: l2' →
  y ∈ l2 → x ∈ l1'.
Proof.
  intros Hnd Heq [k Hk]%list_elem_of_lookup.
  assert ((l1 ++ x :: l2) !! (length l1 + S k)%nat = Some y) as Hy
    by (by rewrite lookup_app_r, Nat.add_comm, Nat.add_sub by lia).
  assert ((l1 ++ x :: l2) !! length l1' = Some y) as Hy'
    by (by rewrite Heq, list_lookup_middle).
  pose proof (NoDup_lookup _ _ _ _ Hnd Hy Hy') as Hpos.
  assert ((l1' ++ y :: l2') !! length l1 = Some x) as Hx
    by (by rewrite <- Heq, list_lookup_middle).
  rewrite lookup_app_l in Hx by lia.
  by eapply list_elem_of_lookup_2.
Qed.

(** X28. Market 0 can be found but is never traded with.  When the search
    runs and market 0 is the best market of the operator (accessible, of
    positive score, ahead of every rival), [findSuitableMarket] returns 0
    and caches it, and [engageUnderground], which tests the id for
    truthiness, goes on as if no market had been found: it calls
    [considerNewMarket] and not [executeUndergroundTrade]. *)
Theorem market_zero_is_never_traded operator underground economic w row pre post :
  scoreFrame →
  UndergroundEconomy (core w) !! underground = Some row →
  (∀ entry,
     JS.get (cacheKey operator (marketAccess row)) (discoveryCache (core w)) = Some entry →
     100 ≤ time (core w) - timestamp entry) →
  NoDup (activeMarkets (core w)) →
  activeMarkets (core w) = pre ++ 0%N :: post →
  accessible (marketAccess row) 0 = true →
  (0 < evaluateMarketSuitability (core w) 0 operator)%Q →
  (∀ m', m' ∈ pre → accessible (marketAccess row) m' = true →
     (evaluateMarketSuitability (core w) m' operator
      < evaluateMarketSuitability (core w) 0 operator)%Q) →
  (∀ m', m' ∈ post → accessible (marketAccess row) m' = true →
     (evaluateMarketSuitability (core w) m' operator
      <= evaluateMarketSuitability (core w) 0 operator)%Q) →
  ∃ s1,
    findSuitableMarket operator underground (core w) = JS.Return (Some 0%N) s1
    ∧ JS.get (cacheKey operator (marketAccess row)) (discoveryCache s1)
      = Some {| market := Some 0%N; timestamp := time (core w) |}
    ∧ engageUnderground operator underground economic w
      = considerNewMarket operator underground (with_core s1 w).
Proof.
  intros Hframe Hrow Hstale Hnd Hlist Hacc Hpos Hpre Hpost.
  destruct (findSuitableMarket_best operator underground (core w) row Hframe Hrow Hstale)
    as (best & s1 & Hrun & Hbest).
  destruct (findSuitableMarket_search operator underground (core w) row Hrow Hstale)
    as (best' & s1' & Hrun' & Hcache & _).
  rewrite Hrun in Hrun'. injection Hrun' as <- <-.
  assert (best = Some 0%N) as ->.
  { destruct best as [m|].
    - destruct Hbest as (pre' & post' & Hlist' & Hacc' & Hpos' & Hpre' & Hpost').
      destruct (decide (m = 0%N)) as [->|Hne]; [done|]. exfalso.
      assert (m ∈ pre ∨ m ∈ post) as Hm.
      { assert (m ∈ pre ++ 0%N :: post) as Hin
          by (rewrite <- Hlist, Hlist'; apply elem_of_app; right; by left).
        apply elem_of_app in Hin as [?|[?|?]%elem_of_cons]; auto. done. }
      destruct Hm as [Hm|Hm].
      + specialize (Hpre m Hm Hacc').
        assert (0%N ∈ pre' ∨ 0%N ∈ post') as [Hz|Hz].
        { assert (0%N ∈ pre' ++ m :: post') as Hin
            by (rewrite <- Hlist', Hlist; apply elem_of_app; right; by left).
          apply elem_of_app in Hin as [?|[?|?]%elem_of_cons]; auto. done. }
        * specialize (Hpre' 0%N Hz Hacc). lra.
        * specialize (Hpost' 0%N Hz Hacc). lra.
      + specialize (Hpost m Hm Hacc').
        assert (0%N ∈ pre') as Hz.
        { apply (before_in_both pre post pre' post' 0%N m); [|congruence|done].
          by rewrite <- Hlist. }
        specialize (Hpre' 0%N Hz Hacc). lra.
    - exfalso. assert (0%N ∈ activeMarkets (core w)) as Hin
        by (rewrite Hlist; apply elem_of_app; right; by left).
      specialize (Hbest 0%N Hin Hacc). lra. }
  exists s1. split; [done|]. split.
  - rewrite Hcache. apply Map_get_set_eq.
  - unfold engageUnderground, mbind, M_bind, JS.bind, lift. by rewrite Hrun.
Qed.

End TradingFacts.

Section TradingSamples.
Import Underground Shadow SampleShadow.

Lemma flat_score_frame : @scoreFrame flat.
Proof. done. Qed.

Lemma market_search_finds_best_witness :
  ∃ best s',
    @findSuitableMarket flat 1 1 (core alley) = JS.Return best s'
    ∧ match best with
      | Some m =>
          ∃ pre post, activeMarkets (core alley) = pre ++ m :: post
            ∧ accessible (marketAccess boss) m = true
            ∧ (0 < @evaluateMarketSuitability flat (core alley) m 1)%Q
            ∧ (∀ m', m' ∈ pre →
                 accessible (marketAccess boss) m' = true →
                 (@evaluateMarketSuitability flat (core alley) m' 1
                  < @evaluateMarketSuitability flat (core alley) m 1)%Q)
            ∧ (∀ m', m' ∈ post →
                 accessible (marketAccess boss) m' = true →
                 (@evaluateMarketSuitability flat (core alley) m' 1
                  <= @evaluateMarketSuitability flat (core alley) m 1)%Q)
      | None =>
          ∀ m', m' ∈ activeMarkets (core alley) →
                accessible (marketAccess boss) m' = true →
                (@evaluateMarketSuitability flat (core alley) m' 1 <= 0)%Q
      end.
Proof.
  apply (@market_search_finds_best flat 1 1 (core alley)
           boss).
  - exact flat_score_frame.
  - reflexivity.
  - intros entry Hentry. discriminate Hentry.
Defined.

Lemma market_zero_is_never_traded_witness :
  ∃ s1,
    @findSuitableMarket flat 1 1 (core alley) = JS.Return (Some 0%N) s1
    ∧ JS.get (cacheKey 1 (marketAccess boss))
        (discoveryCache s1)
      = Some {| market := Some 0%N; timestamp := time (core alley) |}
    ∧ @engageUnderground flat dealings 1 1 1 alley
      = considerNewMarket 1 1 (with_core s1 alley).
Proof.
  apply (@market_zero_is_never_traded flat dealings 1 1 1 alley
           boss [] [1%N]).
  - exact flat_score_frame.
  - reflexivity.
  - intros entry Hentry. discriminate Hentry.
  - apply (bool_decide_unpack _). vm_compute. exact I.
  - reflexivity.
  - reflexivity.
  - reflexivity.
  - intros m' Hm'. by apply elem_of_nil in Hm'.
  - intros m' Hm' _. cbn. lra.
Defined.

(** With market 1 ahead, the operator trades with it: one unit of volume
    raises the heat from 0.8 to 0.9 and lowers the security of market 1
    from 0.1 to 0.05.  With market 0 ahead nothing is traded. *)
Example trade_with_market_1_not_0 :
  (fun w => (Qred <$> (heatLevel <$> (UndergroundEconomy (core w) !! 1%N)),
             Qred <$> (Market.security <$> (BlackMarket w !! 1%N))))
    <$> JS.stateOf (@engageUnderground flat dealings 1 1 1 lane)
  = Some (Some (9 # 10), Some (1 # 20))
  ∧ (fun w => (Qred <$> (heatLevel <$> (UndergroundEconomy (core w) !! 1%N)),
               Qred <$> (Market.security <$> (BlackMarket w !! 0%N))))
      <$> JS.stateOf (@engageUnderground flat dealings 1 1 1 alley)
    = Some (Some (4 # 5), Some 1%Q).
Proof. split; vm_compute; reflexivity. Qed.

End TradingSamples.

(** ** UndergroundSystem: heat *)

Section HeatFacts.
Import Underground Shadow.
Context `{Underground.Hooks} `{Shadow.Hooks}.

(** [x & ~(1 << i)]: bit [i] is clear, the other bits are those of [x]. *)
Lemma clear_bit_any x i j :
  0 ≤ i < 32 → 0 ≤ j < 32 →
  Z.testbit (JS.and32 x (JS.not32 (JS.shl32 1 i))) j
  = if i =? j then false else Z.testbit x j.
Proof.
  intros Hi Hj. unfold JS.and32, JS.not32, JS.shl32.
  change 31 with (Z.ones 5). rewrite Z.land_ones by lia. change (2 ^ 5) with 32.
  rewrite (Z.mod_small i 32), (ToInt32_small 1), Z.shiftl_1_l by lia.
  pose proof (ToInt32_range (2 ^ i)) as Hp.
  rewrite (ToInt32_small (JS.ToInt32 (2 ^ i))) by done.
  rewrite (ToInt32_small (Z.lnot _)) by (unfold Z.lnot; lia).
  rewrite Z.land_spec, Z.lnot_spec, !ToInt32_testbit, Z.pow2_bits_eqb by lia.
  destruct (i =? j); [apply andb_false_r | apply andb_true_r].
Qed.

(** [c & ~x], stored: the bits of [c] that are not bits of [x]. *)
Lemma prune_bits c x j :
  0 ≤ j < 32 →
  Z.testbit (JS.ToUint32 (JS.and32 c (JS.not32 x))) j
  = Z.testbit c j && negb (Z.testbit x j).
Proof.
  intros Hj. rewrite ToUint32_testbit by done. unfold JS.and32, JS.not32.
  pose proof (ToInt32_range x) as Hx.
  rewrite (ToInt32_small (Z.lnot _)) by (unfold Z.lnot; lia).
  by rewrite Z.land_spec, Z.lnot_spec, !ToInt32_testbit by lia.
Qed.

(** The loop of [handleInvestigation] over the market ids from [start]. *)
Lemma burn_loop w a0 : ∀ (n : nat) start acc,
  0 ≤ start → start + Z.of_nat n ≤ 32 →
  (∀ i, 0 ≤ i < 32 → Z.testbit a0 i = true → is_Some (BlackMarket w !! Z.to_N i)) →
  (∀ j, 0 ≤ j < 32 →
     Z.testbit acc j
     = if j <? start then Z.testbit a0 j && negb (isMarketCompromised w (Z.to_N j))
       else Z.testbit a0 j) →
  ∃ acc',
    JS.forOfAcc (seqZ start (Z.of_nat n)) acc (fun newAccess i =>
      if JS.truthy (JS.and32 newAccess (JS.shl32 1 i)) then
        _ ← getBlackMarket (Z.to_N i);
        w ← JS.read;
        if isMarketCompromised w (Z.to_N i)
        then mret (JS.and32 newAccess (JS.not32 (JS.shl32 1 i)))
        else mret newAccess
      else mret newAccess) w
    = JS.Return acc' w
    ∧ ∀ j, 0 ≤ j < 32 →
        Z.testbit acc' j
        = if j <? start + Z.of_nat n
          then Z.testbit a0 j && negb (isMarketCompromised w (Z.to_N j))
          else Z.testbit a0 j.
Proof.
  induction n as [|n IH]; intros start acc Hstart Hend Hrows Hacc.
  - exists acc. split; [done|]. intros j Hj. rewrite Hacc by done.
    by replace (start + Z.of_nat 0) with start by lia.
  - rewrite Nat2Z.inj_succ, seqZ_cons, Z.pred_succ by lia.
    match goal with |- context [JS.forOfAcc _ _ ?b] => set (body := b) end.
    cbn [JS.forOfAcc].
    assert (Z.testbit acc start = Z.testbit a0 start) as Hbit.
    { rewrite Hacc by lia. destruct (Z.ltb_spec start start); [lia | done]. }
    assert (∃ acc1, body acc start w = JS.Return acc1 w
              ∧ ∀ j, 0 ≤ j < 32 →
                  Z.testbit acc1 j
                  = if j <? Z.succ start
                    then Z.testbit a0 j && negb (isMarketCompromised w (Z.to_N j))
                    else Z.testbit a0 j) as (acc1 & Hstep & Hacc1).
    { unfold body. rewrite bit_test, (Z.mod_small start 32), Hbit by lia.
      destruct (Z.testbit a0 start) eqn:Hset.
      - destruct (Hrows start) as [m Hm]; [lia | done|].
        unfold mbind, M_bind, JS.bind, getBlackMarket, JS.read. rewrite Hm.
        destruct (isMarketCompromised w (Z.to_N start)) eqn:Hcomp.
        + eexists. split; [reflexivity|]. intros j Hj.
          rewrite clear_bit_any, Hacc by lia.
          destruct (Z.eqb_spec start j) as [<-|Hne].
          * destruct (Z.ltb_spec start (Z.succ start)); [|lia].
            by rewrite Hset, Hcomp.
          * destruct (Z.ltb_spec j start), (Z.ltb_spec j (Z.succ start));
              done || lia.
        + exists acc. split; [done|]. intros j Hj. rewrite Hacc by done.
          destruct (Z.ltb_spec j start), (Z.ltb_spec j (Z.succ start));
            try done; try lia.
          assert (j = start) as -> by lia. by rewrite Hset, Hcomp.
      - exists acc. split; [done|]. intros j Hj. rewrite Hacc by done.
        destruct (Z.ltb_spec j start), (Z.ltb_spec j (Z.succ start));
          try done; try lia.
        assert (j = start) as -> by lia. by rewrite Hset. }
    unfold JS.bind. rewrite Hstep. subst body.
    destruct (IH (Z.succ start) acc1) as (acc' & Hrun & Hacc'); [lia | lia | done | done|].
    exists acc'. split; [done|]. intros j Hj. rewrite Hacc' by done.
    by replace (Z.succ start + Z.of_nat n) with (start + Z.succ (Z.of_nat n)) by lia.
Qed.

(** X29. An investigation only takes away.  For an operator whose row
    exists and whose accessible markets all have a [BlackMarket] row, it
    returns having cleared, among the 32 access bits, exactly those of the
    markets that are compromised, and, among the contacts, exactly the
    compromised ones; heat and fronts are as before.
    ([rotateFrontBusinesses] is assumed to leave the rows alone.) *)
Theorem investigation_burns_compromised_markets operator underground w r :
  rotationFrame →
  UndergroundEconomy (core w) !! underground = Some r →
  (∀ i, 0 ≤ i < 32 → Z.testbit (marketAccess r) i = true →
        is_Some (BlackMarket w !! Z.to_N i)) →
  ∃ w1 w' r',
    setUnderground underground (fun r =>
      with_contacts
        (JS.ToUint32 (JS.and32 (contacts r)
                        (JS.not32 (findCompromisedContacts w underground)))) r) w
    = JS.Return tt w1
    ∧ handleInvestigation operator underground w = JS.Return tt w'
    ∧ UndergroundEconomy (core w') !! underground = Some r'
    ∧ (∀ j, 0 ≤ j < 32 →
         Z.testbit (marketAccess r') j
         = Z.testbit (marketAccess r) j && negb (isMarketCompromised w1 (Z.to_N j)))
    ∧ (∀ j, 0 ≤ j < 32 →
         Z.testbit (contacts r') j
         = Z.testbit (contacts r) j
           && negb (Z.testbit (findCompromisedContacts w underground) j))
    ∧ heatLevel r' = heatLevel r
    ∧ fronts r' = fronts r.
Proof.
  intros Hframe Hrow Hrows.
  set (w1 := with_core
               (with_UndergroundEconomy
                  (alter (fun r =>
                            with_contacts
                              (JS.ToUint32
                                 (JS.and32 (contacts r)
                                    (JS.not32 (findCompromisedContacts w underground))))
                              r) underground
                     (UndergroundEconomy (core w))) (core w)) w).
  assert (UndergroundEconomy (core w1) !! underground
          = Some (with_contacts
                    (JS.ToUint32 (JS.and32 (contacts r)
                       (JS.not32 (findCompromisedContacts w underground)))) r)) as Hrow1
    by (unfold w1; cbn; by rewrite lookup_alter_eq, Hrow).
  destruct (burn_loop w1 (marketAccess r) 32 0 (marketAccess r))
    as (acc' & Hloop & Hacc'); [lia | lia | done | |].
  { intros j Hj. destruct (Z.ltb_spec j 0); [lia | done]. }
  set (w2 := with_core
               (with_UndergroundEconomy
                  (alter (fun r => with_marketAccess (JS.ToUint32 acc') r) underground
                     (UndergroundEconomy (core w1))) (core w1)) w1).
  destruct (Hframe operator underground w2) as (w' & Hrotate & Hsame).
  exists w1, w'. eexists. split; [reflexivity|]. split; [|split].
  - unfold handleInvestigation, updateUnderground, getUnderground,
      setUnderground, mbind, M_bind, JS.bind, JS.read, JS.modify.
    rewrite Hrow. fold w1. rewrite Hrow1. cbn [marketAccess with_contacts].
    change (Z.of_nat 32) with MAX_MARKETS in Hloop.
    unfold mbind, M_bind, JS.bind, JS.read in Hloop. rewrite Hloop.
    fold w2. exact Hrotate.
  - rewrite Hsame. unfold w2.
    cbn [core with_core with_UndergroundEconomy UndergroundEconomy].
    rewrite lookup_alter_eq, Hrow1. reflexivity.
  - cbn. split; [|split; [|done]].
    + intros j Hj. rewrite ToUint32_testbit, Hacc' by done.
      destruct (Z.ltb_spec j (0 + Z.of_nat 32)); [done | lia].
    + intros j Hj. by apply prune_bits.
Qed.

(** The front loop of [reduceHeat]: a tenth less heat for each cover
    business in use. *)
Lemma front_loop underground r : ∀ (fs : list Z) (w : World) (h : Q),
  UndergroundEconomy (core w) !! underground = Some (with_heatLevel h r) →
  ∃ w' h',
    JS.forOf fs (fun front =>
      if negb (front =? 0) then
        updateUnderground underground (fun r =>
          with_heatLevel (heatLevel r - (1 # 10))%Q r)
      else mret tt) w
    = JS.Return tt w'
    ∧ UndergroundEconomy (core w') !! underground = Some (with_heatLevel h' r)
    ∧ (h' == h - (1 # 10)
                * inject_Z (Z.of_nat (length (filter (fun front : Z => front ≠ 0%Z) fs))))%Q
    ∧ BlackMarket w' = BlackMarket w
    ∧ EconomicState w' = EconomicState w.
Proof.
  induction fs as [|front fs IH]; intros w h Hrow.
  - exists w, h. cbn. repeat split; try done. ring.
  - cbn [JS.forOf]. unfold JS.bind. rewrite filter_cons.
    destruct (Z.eqb_spec front 0) as [->|Hne]; cbn [negb].
    + rewrite decide_False by (by intros ?).
      unfold mret, M_ret, JS.ret. by apply IH.
    + rewrite decide_True by done.
      unfold updateUnderground, getUnderground,
        setUnderground, mbind, M_bind, JS.bind, JS.modify.
      rewrite Hrow.
      match goal with |- context [JS.forOf fs _ ?st] => destruct (IH st (h - (1 # 10))%Q)
        as (w' & h' & Hrun & Hrow' & Hh & Hbm & Hes) end.
      { cbn. by rewrite lookup_alter_eq, Hrow. }
      exists w', h'. split; [done|]. split; [done|]. split; [|done].
      rewrite Hh. cbn [length]. rewrite Nat2Z.inj_succ, <- Z.add_1_r, inject_Z_plus.
      ring.
Qed.

(** X30. Cooling down: for an operator whose rows exist, [reduceHeat]
    lowers the heat by 0.1 for each cover business in use and by a further
    0.2 when more than 100 units of resource 0 are in stock, in which case
    exactly 100 units are spent; with 100 units or fewer nothing is spent.
    The heat is not clamped, contacts are only removed, and the access
    bits and the fronts are not touched. *)
Theorem reduceHeat_effect operator underground w r e :
  UndergroundEconomy (core w) !! underground = Some r →
  EconomicState w !! operator = Some e →
  (∀ stock, Economy.resources e !! 0%nat = Some stock → 0 ≤ stock < 2 ^ 32) →
  ∃ w' r' e',
    reduceHeat operator underground w = JS.Return tt w'
    ∧ UndergroundEconomy (core w') !! underground = Some r'
    ∧ EconomicState w' !! operator = Some e'
    ∧ match Economy.resources e !! 0%nat with
      | Some stock =>
          if 100 <? stock then
            (heatLevel r'
             == heatLevel r - (1 # 10) * inject_Z (Z.of_nat (frontsInUse r)) - (2 # 10))%Q
            ∧ e' = with_resources (<[0%nat := stock - 100]> (Economy.resources e)) e
          else
            (heatLevel r'
             == heatLevel r - (1 # 10) * inject_Z (Z.of_nat (frontsInUse r)))%Q
            ∧ e' = e
      | None =>
          (heatLevel r'
           == heatLevel r - (1 # 10) * inject_Z (Z.of_nat (frontsInUse r)))%Q
          ∧ e' = e
      end
    ∧ (∀ j, 0 ≤ j < 32 → Z.testbit (contacts r') j = true →
            Z.testbit (contacts r) j = true)
    ∧ marketAccess r' = marketAccess r
    ∧ fronts r' = fronts r
    ∧ BlackMarket w' = BlackMarket w.
Proof.
  intros Hrow Heco Hstock.
  destruct (front_loop underground r (fronts r) w (heatLevel r))
    as (w1 & h1 & Hloop & Hrow1 & Hh1 & Hbm1 & Hes1); [by destruct r|].
  fold (frontsInUse r) in Hh1.
  unfold reduceHeat, mbind, M_bind. unfold JS.bind at 1.
  unfold getUnderground at 1. rewrite Hrow.
  unfold JS.bind at 1. rewrite Hloop.
  unfold JS.bind at 1. unfold getEconomicState at 1. rewrite Hes1, Heco.
  destruct (Economy.resources e !! 0%nat) as [stock|] eqn:Hres.
  - destruct (100 <? stock) eqn:Hrich.
    + unfold updateUnderground, getUnderground,
        setUnderground, setEconomicState, mbind, M_bind, JS.bind, JS.read, JS.modify.
      cbn. rewrite Hrow1. cbn. rewrite lookup_alter_eq, Hrow1. cbn.
      eexists _, _, _. split; [reflexivity|]. cbn.
      rewrite !lookup_alter_eq, Hrow1, Hes1, Heco. cbn.
      split; [reflexivity|]. split; [reflexivity|]. cbn.
      split; [|split; [|done]].
      * split; [by rewrite Hh1|].
        unfold JS.ToUint32. rewrite Z.mod_small; [done|].
        apply Z.ltb_lt in Hrich. specialize (Hstock stock eq_refl). lia.
      * intros j Hj. rewrite prune_bits by done. by intros [? _]%andb_true_iff.
    + unfold updateUnderground, getUnderground,
        setUnderground, mbind, M_bind, JS.bind, JS.read, JS.modify.
      cbn. rewrite Hrow1. cbn.
      eexists _, _, _. split; [reflexivity|]. cbn.
      rewrite !lookup_alter_eq, Hrow1, Hes1, Heco. cbn.
      split; [reflexivity|]. split; [reflexivity|]. cbn.
      split; [done|]. split; [|done].
      intros j Hj. rewrite prune_bits by done. by intros [? _]%andb_true_iff.
  - unfold updateUnderground, getUnderground,
      setUnderground, mbind, M_bind, JS.bind, JS.read, JS.modify.
    cbn. rewrite Hrow1. cbn.
    eexists _, _, _. split; [reflexivity|]. cbn.
    rewrite !lookup_alter_eq, Hrow1, Hes1, Heco. cbn.
    split; [reflexivity|]. split; [reflexivity|]. cbn.
    split; [done|]. split; [|done].
    intros j Hj. rewrite prune_bits by done. by intros [? _]%andb_true_iff.
Qed.

End HeatFacts.

Section HeatSamples.
Import Underground Shadow SampleShadow.

Lemma no_rotation_frame : rotationFrame.
Proof. intros operator underground w. by exists w. Qed.

Lemma investigation_burns_compromised_markets_witness :
  ∃ w1 w' r',
    setUnderground 1 (fun r =>
      with_contacts
        (JS.ToUint32 (JS.and32 (contacts r)
                        (JS.not32 (findCompromisedContacts alley 1)))) r) alley
    = JS.Return tt w1
    ∧ @handleInvestigation dealings 1 1 alley = JS.Return tt w'
    ∧ UndergroundEconomy (core w') !! 1%N = Some r'
    ∧ (∀ j, 0 ≤ j < 32 →
         Z.testbit (marketAccess r') j
         = Z.testbit (marketAccess boss) j
           && negb (isMarketCompromised w1 (Z.to_N j)))
    ∧ (∀ j, 0 ≤ j < 32 →
         Z.testbit (contacts r') j
         = Z.testbit (contacts boss) j
           && negb (Z.testbit (findCompromisedContacts alley 1) j))
    ∧ heatLevel r' = heatLevel boss
    ∧ fronts r' = fronts boss.
Proof.
  apply (@investigation_burns_compromised_markets dealings 1 1 alley
           boss).
  - exact no_rotation_frame.
  - reflexivity.
  - intros i Hi Hbit.
    assert (i = 0 ∨ i = 1) as [-> | ->].
    { destruct (decide (i = 0)) as [|H0]; [by left|].
      destruct (decide (i = 1)) as [|H1]; [by right|].
      exfalso. change (marketAccess boss) with 3 in Hbit.
      rewrite (bits_above 3 2 i) in Hbit by lia. done. }
    + by eexists.
    + by eexists.
Defined.

(** In the sample world the investigation takes market 1, whose security
    is low, and contact 0 away from operator 1. *)
Example investigation_burns_market_1 :
  (fun w => (fun r => (marketAccess r, contacts r))
              <$> (UndergroundEconomy (core w) !! 1%N))
    <$> JS.stateOf (@handleInvestigation dealings 1 1 alley)
  = Some (Some (1, 6)).
Proof. vm_compute. reflexivity. Qed.

Lemma reduceHeat_effect_witness :
  ∃ w' r' e',
    @reduceHeat dealings 1 1 alley = JS.Return tt w'
    ∧ UndergroundEconomy (core w') !! 1%N = Some r'
    ∧ EconomicState w' !! 1%N = Some e'
    ∧ match Economy.resources (purse 150) !! 0%nat with
      | Some stock =>
          if 100 <? stock then
            (heatLevel r'
             == heatLevel boss
                - (1 # 10) * inject_Z (Z.of_nat (frontsInUse boss))
                - (2 # 10))%Q
            ∧ e' = with_resources
                     (<[0%nat := stock - 100]> (Economy.resources (purse 150)))
                     (purse 150)
          else
            (heatLevel r'
             == heatLevel boss
                - (1 # 10) * inject_Z (Z.of_nat (frontsInUse boss)))%Q
            ∧ e' = purse 150
      | None =>
          (heatLevel r'
           == heatLevel boss
              - (1 # 10) * inject_Z (Z.of_nat (frontsInUse boss)))%Q
          ∧ e' = purse 150
      end
    ∧ (∀ j, 0 ≤ j < 32 → Z.testbit (contacts r') j = true →
            Z.testbit (contacts boss) j = true)
    ∧ marketAccess r' = marketAccess boss
    ∧ fronts r' = fronts boss
    ∧ BlackMarket w' = BlackMarket alley.
Proof.
  apply (@reduceHeat_effect dealings 1 1 alley
           boss (purse 150)).
  - reflexivity.
  - reflexivity.
  - intros stock [= <-]. lia.
Defined.

(** In the sample world cooling down takes the heat from 0.8 to 0.4 (two
    fronts and a bribe), spends 100 of the 150 units and drops contact 1. *)
Example cooling_down_in_the_alley :
  (fun w => ((fun r => (Qred (heatLevel r), contacts r))
               <$> (UndergroundEconomy (core w) !! 1%N),
             (fun e => Economy.resources e !! 0%nat) <$> (EconomicState w !! 1%N)))
    <$> JS.stateOf (@reduceHeat dealings 1 1 alley)
  = Some (Some (2 # 5, 5), Some (Some 50)).
Proof. vm_compute. reflexivity. Qed.

(** With heat 0.8 the operator is first investigated (0.76 is above the
    threshold) and then cools down. *)
Example heat_is_managed_in_the_alley :
  (fun w => (fun r => (Qred (heatLevel r), marketAccess r, contacts r))
              <$> (UndergroundEconomy (core w) !! 1%N))
    <$> JS.stateOf (@manageHeatLevel dealings 1 1 alley)
  = Some (Some (9 # 25, 1, 4)).
Proof. vm_compute. reflexivity. Qed.

End HeatSamples.
